(** * open-percentiles: the leaderboard curve sampler of [app.py]

    A shallow embedding of [app.py] and the properties its specification
    states about it.

    Conventions of the embedding.
    - Python [int] is [Z]; an exception is the [Err] branch of [result].
    - A Python [str] is a [String.string] whose characters are the code
      points of the text: every text with code points below 256.  The
      character classes of [re] and of [int] are Unicode's, as far as they
      reach into that range: no decimal digit beyond [0-9], the white space
      U+0085 and U+00A0 beside the ASCII one.  [int] refuses a literal of
      more than 4300 digits ([sys.get_int_max_str_digits()], CPython 3.11
      and later).
    - A Python [float] is an IEEE binary64 number.  It is modelled by its
      exact rational value (module [F64]); every arithmetic operation computes
      the exact result and rounds it to the nearest binary64 number, ties to
      even, as the interpreter does.  [int / int] is Python's correctly
      rounded true division.
    - JSON objects received from the remote API are records with one field per
      key the program reads; a key that is missing or [null] is [None] (or
      [JAbsent]).  A Python [dict] that the program builds ([by_rank], [_CACHE])
      is an insertion-ordered association list with unique keys.
    - The remote API is an oracle from the optional page number to the page,
      [None] being a transport failure; every call is recorded in a trace. *)

From Stdlib Require Import ZArith QArith Qround Qpower Qabs Qreduction.
From Stdlib Require Import Lia Lqa List Bool String Ascii.
From Stdlib Require Import Sorted Permutation.
From Stdlib Require Floats.
Import ListNotations.

Local Open Scope Z_scope.

(* ================================================================== *)
(** * Python values and exceptions *)

Inductive exn : Type :=
| HTTPError          (* requests: timeout or non-success status *)
| ValueError
| ZeroDivisionError
| OverflowError
| IndexError
| TypeError
| OutOfFuel.         (* no Python exception: a loop of the model ran past its
                        bound; [find_loop_terminates] shows it never does *)

Inductive result (A : Type) : Type :=
| Ok (a : A)
| Err (e : exn).
Arguments Ok {A} a.
Arguments Err {A} e.

Definition rbind {A B} (r : result A) (k : A -> result B) : result B :=
  match r with
  | Ok a => k a
  | Err e => Err e
  end.

Declare Scope result_scope.
Delimit Scope result_scope with result.
Notation "x <- c ;; k" := (rbind c (fun x => k))
  (at level 61, c at next level, right associativity) : result_scope.

(* ================================================================== *)
(** * Python floats: IEEE binary64 by exact value *)

Module F64.
Local Open Scope Q_scope.

Definition pow2 (e : Z) : Q := 2 ^ e.

(** [floor (log2 x)] for a positive rational [x]: the difference of the bit
    lengths of numerator and denominator, corrected by one comparison. *)
Definition ilog2 (x : Q) : Z :=
  let k := (Z.log2 (Qnum x) - Z.log2 (Zpos (Qden x)))%Z in
  if Qle_bool (pow2 k) x then k else (k - 1)%Z.

(** The nearest integer, a half going to the even neighbour. *)
Definition rne (x : Q) : Z :=
  let f := Qfloor x in
  match Qcompare (x - inject_Z f) (1 # 2) with
  | Lt => f
  | Gt => (f + 1)%Z
  | Eq => if Z.even f then f else (f + 1)%Z
  end.

(** Exponent of the least positive binary64 number, [2^-1074]. *)
Definition emin : Z := -1074.

(** Exponent of the unit in the last place for a magnitude [x > 0]: 53
    significant bits, and never below [emin] (subnormal numbers). *)
Definition ulp_exp (x : Q) : Z := Z.max (ilog2 x - 52) emin.

(** Round a magnitude to the binary64 grid (the exponent is not bounded
    above here; [round] below handles overflow). *)
Definition rnd_abs (x : Q) : Q :=
  if Qle_bool x 0 then 0
  else inject_Z (rne (x / pow2 (ulp_exp x))) * pow2 (ulp_exp x).

(** Round to nearest, ties to even; the result is a reduced fraction. *)
Definition rnd (x : Q) : Q :=
  Qred (if Qle_bool 0 x then rnd_abs x else - rnd_abs (- x)).

(** A binary64 value.  The sign of zero is not kept: no comparison or
    arithmetic result of the program depends on it. *)
Inductive float : Type :=
| Fin (q : Q)
| PInf
| NInf
| NaN.

Definition is_nan (a : float) : bool :=
  match a with
  | NaN => true
  | _ => false
  end.

(** Results of magnitude [2^1024] and more overflow to an infinity. *)
Definition huge : Q := pow2 1024.

Definition round (x : Q) : float :=
  let r := rnd x in
  if Qle_bool huge r then PInf
  else if Qle_bool r (- huge) then NInf
  else Fin r.

(** [a - b] on floats. *)
Definition sub (a b : float) : float :=
  match a, b with
  | NaN, _ | _, NaN => NaN
  | Fin x, Fin y => round (x - y)
  | Fin _, PInf => NInf
  | Fin _, NInf => PInf
  | PInf, PInf => NaN
  | PInf, _ => PInf
  | NInf, NInf => NaN
  | NInf, _ => NInf
  end.

Definition sign_inf (positive : bool) : float := if positive then PInf else NInf.

(** [a * b] on floats. *)
Definition mul (a b : float) : float :=
  match a, b with
  | NaN, _ | _, NaN => NaN
  | Fin x, Fin y => round (x * y)
  | Fin x, PInf | PInf, Fin x =>
      if Qeq_bool x 0 then NaN else sign_inf (Qle_bool 0 x)
  | Fin x, NInf | NInf, Fin x =>
      if Qeq_bool x 0 then NaN else sign_inf (negb (Qle_bool 0 x))
  | PInf, PInf | NInf, NInf => PInf
  | PInf, NInf | NInf, PInf => NInf
  end.

(** [a < b] and [a <= b] on floats; false when an operand is NaN. *)
Definition ltb (a b : float) : bool :=
  match a, b with
  | NaN, _ | _, NaN => false
  | Fin x, Fin y => negb (Qle_bool y x)
  | _, NInf => false
  | NInf, _ => true
  | PInf, _ => false
  | Fin _, PInf => true
  end.

Definition leb (a b : float) : bool :=
  match a, b with
  | NaN, _ | _, NaN => false
  | Fin x, Fin y => Qle_bool x y
  | NInf, _ => true
  | _, PInf => true
  | PInf, _ => false
  | Fin _, NInf => false
  end.

(** [a / b] on Python integers: the exact quotient, correctly rounded;
    [ZeroDivisionError] for [b = 0], [OverflowError] when the rounded quotient
    is no finite float. *)
Definition truediv (a b : Z) : result float :=
  if (b =? 0)%Z then Err ZeroDivisionError
  else match round (inject_Z a / inject_Z b) with
       | Fin r => Ok (Fin r)
       | _ => Err OverflowError
       end.

(** [math.ceil(x)]. *)
Definition ceil (x : float) : result Z :=
  match x with
  | Fin q => Ok (Qceiling q)
  | NaN => Err ValueError
  | _ => Err OverflowError
  end.

End F64.

(** The kernel's own binary64 numbers, read as values of [F64.float]: the
    model of rounding is checked against them on concrete inputs below. *)
Module F64Check.

Definition value (f : PrimFloat.float) : F64.float :=
  match FloatOps.Prim2SF f with
  | SpecFloat.S754_zero _ => F64.Fin 0
  | SpecFloat.S754_finite s m e =>
      F64.Fin (Qred ((if s then -1 else 1) * inject_Z (Zpos m) * F64.pow2 e))
  | SpecFloat.S754_infinity s => if s then F64.NInf else F64.PInf
  | SpecFloat.S754_nan => F64.NaN
  end.

(** [float(n)] for [0 <= n < 2^63]. *)
Definition of_int (n : Z) : PrimFloat.float :=
  PrimFloat.of_uint63 (Uint63.of_Z n).

End F64Check.

(* ================================================================== *)
(** * Strings: [int(str)], [str(int)], character classes *)

Module PyStr.

Definition code (c : ascii) : nat := nat_of_ascii c.

(** [\d] of a [str] pattern, and the digits of [int]: the decimal digits of
    Unicode, which below code point 256 are [0-9]. *)
Definition is_digit (c : ascii) : bool :=
  (48 <=? code c)%nat && (code c <=? 57)%nat.

(** [\s] of a [str] pattern: the white space of Unicode, which below code
    point 256 is TAB..CR, FS..US, the space, U+0085 and U+00A0. *)
Definition is_space (c : ascii) : bool :=
  ((9 <=? code c)%nat && (code c <=? 13)%nat)
  || ((28 <=? code c)%nat && (code c <=? 32)%nat)
  || (code c =? 133)%nat || (code c =? 160)%nat.

(** The blanks [int] skips around a literal: TAB..CR and the space, and of
    the white space beyond ASCII (which [int] turns into spaces first)
    U+0085 and U+00A0.  FS..US are not among them. *)
Definition is_blank (c : ascii) : bool :=
  ((9 <=? code c)%nat && (code c <=? 13)%nat) || (code c =? 32)%nat
  || (code c =? 133)%nat || (code c =? 160)%nat.

Definition digit_val (c : ascii) : Z := Z.of_nat (code c) - 48.

(** ASCII lower-casing, for [re.IGNORECASE] against a lower-case literal. *)
Definition lower (c : ascii) : ascii :=
  if ((65 <=? code c)%nat && (code c <=? 90)%nat)%bool
  then ascii_of_nat (code c + 32) else c.

Fixpoint drop_space (s : list ascii) : list ascii :=
  match s with
  | c :: r => if is_blank c then drop_space r else s
  | [] => []
  end.

Definition strip (s : list ascii) : list ascii :=
  rev (drop_space (rev (drop_space s))).

(** The digits of a decimal literal; [prev_us] is true just after an
    underscore, which must stand between two digits. *)
Fixpoint digits_value (acc : Z) (prev_us : bool) (s : list ascii) : option Z :=
  match s with
  | [] => if prev_us then None else Some acc
  | c :: r =>
      if is_digit c then digits_value (10 * acc + digit_val c) false r
      else if (Ascii.eqb c "_" && negb prev_us)%bool then digits_value acc true r
      else None
  end.

(** [sys.get_int_max_str_digits()]: a decimal literal with more digits
    (underscores and sign not counted, leading zeros counted) is refused. *)
Definition int_max_str_digits : Z := 4300.

Definition count_digits (s : list ascii) : Z :=
  Z.of_nat (List.length (filter is_digit s)).

Definition parse_unsigned (s : list ascii) : option Z :=
  match s with
  | c :: _ =>
      if is_digit c
      then if int_max_str_digits <? count_digits s then None
           else digits_value 0 false s
      else None
  | [] => None
  end.

(** [int(s)] for a string [s], base 10: surrounding whitespace, an optional
    sign, at most 4300 digits with single underscores between them.  [None]
    is the [ValueError] Python raises. *)
Definition int_of_chars (s : list ascii) : option Z :=
  match strip s with
  | "+"%char :: r => parse_unsigned r
  | "-"%char :: r => option_map Z.opp (parse_unsigned r)
  | t => parse_unsigned t
  end.

Definition int_of_string (s : string) : result Z :=
  match int_of_chars (list_ascii_of_string s) with
  | Some n => Ok n
  | None => Err ValueError
  end.

(** [str(n)] for an integer.  The program applies it to integers that [int]
    or the JSON decoder produced, which are within the limit of 4300 digits
    that [str] has as well. *)
Definition digit_char (d : Z) : ascii := ascii_of_nat (Z.to_nat (48 + d)).

Fixpoint pos_digits (fuel : nat) (n : Z) (acc : list ascii) : list ascii :=
  match fuel with
  | O => acc
  | S f =>
      let acc' := digit_char (n mod 10) :: acc in
      if n / 10 =? 0 then acc' else pos_digits f (n / 10) acc'
  end.

Definition chars_of_int (n : Z) : list ascii :=
  if n <? 0 then "-"%char :: pos_digits (Z.to_nat (- n)) (- n) []
  else pos_digits (S (Z.to_nat n)) n [].

Definition string_of_int (n : Z) : string :=
  string_of_list_ascii (chars_of_int n).

End PyStr.

(* ================================================================== *)
(** * Score parser: [re.search(r"(\d+)\s*rep", text, re.IGNORECASE)] *)

Module Regex.
Import PyStr.

(** The literal [rep] at the head of [s], ignoring case. *)
Definition lit_rep (s : list ascii) : bool :=
  match s with
  | a :: b :: c :: _ =>
      Ascii.eqb (lower a) "r" && Ascii.eqb (lower b) "e" && Ascii.eqb (lower c) "p"
  | _ => false
  end.

(** [\s*rep] at the head of [s]: greedy, then backtracking to fewer spaces. *)
Fixpoint spaces_rep (s : list ascii) : bool :=
  match s with
  | c :: r =>
      if is_space c
      then (if spaces_rep r then true else lit_rep s)
      else lit_rep s
  | [] => lit_rep s
  end.

(** The rest of [\d+] once the digits [g] (latest first) are consumed:
    take one more digit if there is one, and fall back to the digits taken
    so far when the longer attempt fails. *)
Fixpoint digits_rest (g : list ascii) (s : list ascii) : option (list ascii) :=
  let here := if spaces_rep s then Some (rev g) else None in
  match s with
  | c :: r =>
      if is_digit c
      then match digits_rest (c :: g) r with
           | Some m => Some m
           | None => here
           end
      else here
  | [] => here
  end.

(** A match of the whole pattern anchored at the head of [s]; the result is
    group 1. *)
Definition match_here (s : list ascii) : option (list ascii) :=
  match s with
  | c :: r => if is_digit c then digits_rest [c] r else None
  | [] => None
  end.

(** [re.search]: the match at the leftmost position that has one. *)
Fixpoint search (s : list ascii) : option (list ascii) :=
  match match_here s with
  | Some g => Some g
  | None =>
      match s with
      | _ :: r => search r
      | [] => None
      end
  end.

End Regex.

(** [_parse_reps] (app.py:24-34).  [not text] skips [None] and the empty
    string; a match object is always true; [int(m.group(1))] is the integer
    conversion of the captured digits, which raises [ValueError] when there
    are more than 4300 of them, and nothing catches that. *)
Definition parse_text (text : option string) : result (option Z) :=
  match text with
  | None => Ok None
  | Some EmptyString => Ok None
  | Some t =>
      match Regex.search (list_ascii_of_string t) with
      | Some g =>
          match PyStr.int_of_chars g with
          | Some n => Ok (Some n)
          | None => Err ValueError
          end
      | None => Ok None
      end
  end.

Definition _parse_reps (score_display breakdown : option string)
  : result (option Z) :=
  (m <- parse_text breakdown ;;
   match m with
   | Some n => Ok (Some n)
   | None => parse_text score_display
   end)%result.

(* ================================================================== *)
(** * JSON received from the leaderboard API *)

(** A scalar field that the program converts itself: missing or [null], a
    number, or a string.  A number is an integer the JSON decoder produced;
    the decoder reads integers with [int], so it has at most 4300 digits. *)
Inductive jscalar : Type :=
| JAbsent
| JNum (n : Z)
| JStr (s : string).

Record score : Type := mkScore {
  scoreDisplay : option string;
  breakdown : option string;
  valid : jscalar
}.

(** The [scores] key of a row: missing, [null], or a list. *)
Inductive jscores : Type :=
| ScoresAbsent
| ScoresNull
| ScoresList (l : list score).

Record row : Type := mkRow {
  overallRank : jscalar;
  scores : jscores
}.

Record pagination_json : Type := mkPagination {
  totalPages : jscalar;
  totalCompetitors : jscalar
}.

Record page_json : Type := mkPage {
  pagination : option pagination_json;
  leaderboardRows : option (list row)
}.

(** The dict [{}]. *)
Definition empty_json : page_json := mkPage None None.
Definition empty_score : score := mkScore None None JAbsent.
Definition empty_pagination : pagination_json := mkPagination JAbsent JAbsent.

(** [not d] for a page dict.  The only dict the program tests is
    [last_json], which is [{}] or a page that was found to have rows. *)
Definition dict_is_empty (p : page_json) : bool :=
  match pagination p, leaderboardRows p with
  | None, None => true
  | _, _ => false
  end.

(** [page_json.get("leaderboardRows") or []] *)
Definition rows_of (p : page_json) : list row :=
  match leaderboardRows p with
  | Some l => l
  | None => []
  end.

(** [page_json.get("pagination") or {}] *)
Definition pagination_of (p : page_json) : pagination_json :=
  match pagination p with
  | Some g => g
  | None => empty_pagination
  end.

(** Truth value of an optional string: [None] and [""] are false. *)
Definition str_truthy (o : option string) : bool :=
  match o with
  | Some EmptyString => false
  | Some _ => true
  | None => false
  end.

(** [int(v or 0)] *)
Definition int_or_0 (v : jscalar) : result Z :=
  match v with
  | JAbsent => Ok 0
  | JNum n => Ok n
  | JStr EmptyString => Ok 0
  | JStr s => PyStr.int_of_string s
  end.

(** [str(v or "")] *)
Definition str_or_empty (v : jscalar) : string :=
  match v with
  | JAbsent => EmptyString
  | JNum n => if n =? 0 then EmptyString else PyStr.string_of_int n
  | JStr s => s
  end.

(** [row.get("scores", [{}])[0]]: the default only covers a missing key. *)
Definition first_score_strict (r : row) : result score :=
  match scores r with
  | ScoresAbsent => Ok empty_score
  | ScoresNull => Err TypeError
  | ScoresList [] => Err IndexError
  | ScoresList (s :: _) => Ok s
  end.

(** [scores = row.get("scores") or []; first = scores[0] if scores else {}] *)
Definition first_score_lenient (r : row) : score :=
  match scores r with
  | ScoresList (s :: _) => s
  | _ => empty_score
  end.

(* ================================================================== *)
(** * The remote API and the fetches made *)

(** [base_params] of a request. *)
Record params : Type := mkParams {
  p_view : string;
  p_division : string;
  p_region : string;
  p_scaled : string;
  p_sort : string
}.

(** One query of the leaderboard: the optional [page] parameter to the
    JSON body, or [None] when the request fails ([raise_for_status], timeout). *)
Definition oracle : Type := option Z -> option page_json.

(** The [page] parameters of the requests sent so far, oldest first. *)
Definition trace : Type := list (option Z).

(** Computations that fetch: the trace is threaded and survives an error. *)
Definition M (A : Type) : Type := trace -> result A * trace.

Definition ret {A} (a : A) : M A := fun t => (Ok a, t).

Definition lift {A} (r : result A) : M A := fun t => (r, t).

Definition bind {A B} (m : M A) (k : A -> M B) : M B :=
  fun t =>
    match m t with
    | (Ok a, t') => k a t'
    | (Err e, t') => (Err e, t')
    end.

Declare Scope io_scope.
Delimit Scope io_scope with io.
Notation "x <- c ;; k" := (bind c (fun x => k))
  (at level 61, c at next level, right associativity) : io_scope.
Notation "' pat <- c ;; k" := (bind c (fun x => match x with pat => k end))
  (at level 61, pat pattern, c at next level, right associativity) : io_scope.

(** [_get_json] (app.py:18-21) for fixed [base_params]. *)
Definition _get_json (remote : oracle) (page : option Z) : M page_json :=
  fun t =>
    (match remote page with
     | Some body => Ok body
     | None => Err HTTPError
     end, t ++ [page]).

(* ================================================================== *)
(** * Lists, sorting and dicts as Python has them *)

(** [range(start, stop, step)] for a positive [step]: its length is
    [(stop - start - 1) // step + 1] when [start < stop] and 0 otherwise,
    and its element [i] is [start + i * step]. *)
Definition range_len (start stop step : Z) : Z :=
  if start <? stop then (stop - start - 1) / step + 1 else 0.

Definition py_range (start stop step : Z) : list Z :=
  map (fun i => start + Z.of_nat i * step)
      (seq 0 (Z.to_nat (range_len start stop step))).

(** [list.sort] and [sorted]: a stable sort that only asks whether one
    element is less than another.  An element goes in front of the first one
    that is not less than it. *)
Fixpoint insert_sorted {A} (lt : A -> A -> bool) (x : A) (l : list A) : list A :=
  match l with
  | [] => [x]
  | y :: r => if lt y x then y :: insert_sorted lt x r else x :: l
  end.

Definition py_sort {A} (lt : A -> A -> bool) (l : list A) : list A :=
  fold_right (insert_sorted lt) [] l.

(** [sorted(set(l))] on integers. *)
Definition sorted_set (l : list Z) : list Z :=
  py_sort Z.ltb (nodup Z.eq_dec l).

(** A [dict]: keys in insertion order, each once.  Assigning to a key that
    is present replaces its value in place. *)
Section Dict.
Context {K V : Type} (eqb : K -> K -> bool).

Fixpoint dict_get (k : K) (d : list (K * V)) : option V :=
  match d with
  | [] => None
  | (k', v) :: r => if eqb k k' then Some v else dict_get k r
  end.

Fixpoint dict_set (k : K) (v : V) (d : list (K * V)) : list (K * V) :=
  match d with
  | [] => [(k, v)]
  | (k', v') :: r => if eqb k k' then (k, v) :: r else (k', v') :: dict_set k v r
  end.

Definition dict_values (d : list (K * V)) : list V := map snd d.
Definition dict_keys (d : list (K * V)) : list K := map fst d.

End Dict.

(* ================================================================== *)
(** * The functions of [app.py] *)

(** [_percentile_from_rank] (app.py:37-39):
    [100.0 * (1.0 - (rank - 1) / total_competitors)] *)
Definition _percentile_from_rank (rank total_competitors : Z) : result F64.float :=
  (q <- F64.truediv (rank - 1) total_competitors ;;
   Ok (F64.mul (F64.Fin 100) (F64.sub (F64.Fin 1) q)))%result.

(** [_make_page_samples] (app.py:42-53) *)
Definition bucket_mid (total_pages step start : Z) : Z :=
  let end_ := Z.min total_pages (start + step - 1) in
  (start + end_) / 2.

(** The loop of lines 47-51: the middle page of every bucket, in order. *)
Definition bucket_mids (total_pages step : Z) : list Z :=
  map (bucket_mid total_pages step) (py_range 1 (total_pages + 1) step).

Definition _make_page_samples (total_pages target_buckets : Z) : result (list Z) :=
  if total_pages <=? 0 then Ok [1]
  else
    (q <- F64.truediv total_pages target_buckets ;;
     c <- F64.ceil q ;;
     let step := Z.max 1 c in
     let pages := bucket_mids total_pages step in
     Ok (sorted_set pages))%result.

(** [_page_has_submissions] (app.py:56-58): [any] stops at the first row
    whose first score has a display, and fails on a row it cannot index. *)
Fixpoint any_display (rows : list row) : result bool :=
  match rows with
  | [] => Ok false
  | r :: rest =>
      (s <- first_score_strict r ;;
       if str_truthy (scoreDisplay s) then Ok true else any_display rest)%result
  end.

Definition _page_has_submissions (page : page_json) : result bool :=
  any_display (rows_of page).

(** [_find_last_submission_page] (app.py:61-76).  The [while] loop, with
    [fuel] iterations allowed. *)
Fixpoint find_loop (remote : oracle) (fuel : nat) (lo hi : Z) (last_json : page_json)
  : M (Z * page_json) :=
  if lo <? hi then
    match fuel with
    | O => lift (Err OutOfFuel)
    | S f =>
        let mid := (lo + hi + 1) / 2 in
        (page <- _get_json remote (Some mid) ;;
         has <- lift (_page_has_submissions page) ;;
         if has : bool then find_loop remote f mid hi page
         else find_loop remote f lo (mid - 1) last_json)%io
    end
  else ret (lo, last_json).

Definition _find_last_submission_page (remote : oracle) (total_pages : Z)
  : M (Z * page_json) :=
  ('(lo, last_json) <- find_loop remote (Z.to_nat total_pages) 1 total_pages empty_json ;;
   if dict_is_empty last_json
   then (page <- _get_json remote (Some lo) ;; ret (lo, page))
   else ret (lo, last_json))%io.

(** [_max_submitted_rank] (app.py:79-89) *)
Fixpoint max_rank_loop (rows : list row) (max_rank : Z) : result Z :=
  match rows with
  | [] => Ok max_rank
  | r :: rest =>
      (s <- first_score_strict r ;;
       if str_truthy (scoreDisplay s) then
         match int_or_0 (overallRank r) with
         | Ok n => max_rank_loop rest (Z.max max_rank n)
         | Err ValueError => max_rank_loop rest max_rank
         | Err e => Err e
         end
       else max_rank_loop rest max_rank)%result
  end.

Definition _max_submitted_rank (page : page_json) : result Z :=
  max_rank_loop (rows_of page) 0.

(** A point of the curve: [{"rank": .., "reps": .., "percentile": ..}] *)
Record point : Type := mkPoint {
  rank : Z;
  reps : Z;
  percentile : F64.float
}.

(** [_extract_points_from_page] (app.py:92-135).  One iteration of the loop
    over the rows maps [(points, submitted_rows, total_rows)] to its next
    value. *)
Definition extract_row (total_competitors total_submitted : Z)
  (acc : list point * Z * Z) (r : row) : result (list point * Z * Z) :=
  let '(points, submitted_rows, total_rows) := acc in
  let total_rows := total_rows + 1 in
  match int_or_0 (overallRank r) with
  | Err ValueError => Ok (points, submitted_rows, total_rows)       (* continue *)
  | Err e => Err e
  | Ok rk =>
      let first := first_score_lenient r in
      let is_valid := String.eqb (str_or_empty (valid first)) "1" in
      (parsed <- _parse_reps (scoreDisplay first) (breakdown first) ;;
       let submitted_rows :=
         match parsed with
         | Some _ => if is_valid then submitted_rows + 1 else submitted_rows
         | None => submitted_rows
         end in
       let pct_base := if total_submitted =? 0 then total_competitors else total_submitted in
       match parsed with
       | None => Ok (points, submitted_rows, total_rows)            (* continue *)
       | Some n =>
           if (rk <=? 0) || (pct_base <=? 0)
           then Ok (points, submitted_rows, total_rows)             (* continue *)
           else
             pc <- _percentile_from_rank rk pct_base ;;
             Ok (points ++ [mkPoint rk n pc], submitted_rows, total_rows)
       end)%result
  end.

Fixpoint extract_rows (total_competitors total_submitted : Z)
  (rows : list row) (acc : list point * Z * Z) : result (list point * Z * Z) :=
  match rows with
  | [] => Ok acc
  | r :: rest =>
      (acc' <- extract_row total_competitors total_submitted acc r ;;
       extract_rows total_competitors total_submitted rest acc')%result
  end.

Definition _extract_points_from_page (page : page_json)
  (fallback_total total_submitted : Z) : result (list point * Z * Z) :=
  (tc <- int_or_0 (totalCompetitors (pagination_of page)) ;;
   let total_competitors := if tc =? 0 then fallback_total else tc in
   extract_rows total_competitors total_submitted (rows_of page) ([], 0, 0))%result.

(** [_cache_key] (app.py:138-140) on [{**base_params, "buckets": buckets}]:
    the six keys in sorted order, each as [key=value], joined by [&]. *)
Definition _cache_key (bp : params) (buckets : Z) : string :=
  ("buckets=" ++ PyStr.string_of_int buckets
   ++ "&division=" ++ p_division bp
   ++ "&region=" ++ p_region bp
   ++ "&scaled=" ++ p_scaled bp
   ++ "&sort=" ++ p_sort bp
   ++ "&view=" ++ p_view bp)%string.

(** The payload of [/api/curve]. *)
Record meta : Type := mkMeta {
  year : Z;
  competition : string;
  division : string;
  region : string;
  scaled : string;
  view : string;
  sort : string;
  m_totalPages : Z;
  m_totalCompetitors : Z;
  lastSubmissionPage : Z;
  totalSubmitted : Z;
  sampledPages : Z;
  sampledRows : Z;
  sampledSubmittedRows : Z;
  estimatedSubmissionRate : option F64.float;
  note : string
}.

Record payload : Type := mkPayload {
  p_meta : meta;
  points : list point
}.

(** An entry of [_CACHE]: [{"ts": now, "payload": payload}] *)
Record cache_entry : Type := mkEntry {
  ts : F64.float;
  entry_payload : payload
}.

Definition cache : Type := list (string * cache_entry).

Definition CACHE_TTL_SECONDS : F64.float := F64.Fin 60.

(** The query string of a request to [/api/curve]; [None] is a missing
    argument. *)
Record request : Type := mkRequest {
  arg_division : option string;
  arg_region : option string;
  arg_scaled : option string;
  arg_view : option string;
  arg_sort : option string;
  arg_buckets : option string
}.

(** [request.args.get(name, default)] *)
Definition arg_or (a : option string) (default : string) : string :=
  match a with
  | Some s => s
  | None => default
  end.

Definition base_params_of (req : request) : params :=
  mkParams (arg_or (arg_view req) "0") (arg_or (arg_division req) "1")
           (arg_or (arg_region req) "0") (arg_or (arg_scaled req) "0")
           (arg_or (arg_sort req) "0").

(** Step 3 of [api_curve] (app.py:201-212): the loop over the sampled pages,
    on [(all_points, submitted_rows, total_rows)]. *)
Fixpoint sample_loop (remote : oracle) (first : page_json)
  (last_sub_page : Z) (last_sub_json : page_json)
  (total_competitors total_submitted : Z)
  (pages : list Z) (acc : list point * Z * Z) : M (list point * Z * Z) :=
  match pages with
  | [] => ret acc
  | p :: rest =>
      let '(all_points, submitted_rows, total_rows) := acc in
      (page <- (if p =? 1 then ret first
                else if p =? last_sub_page then ret last_sub_json
                else _get_json remote (Some p)) ;;
       '(pts, sub, tot) <- lift (_extract_points_from_page page total_competitors total_submitted) ;;
       sample_loop remote first last_sub_page last_sub_json
         total_competitors total_submitted rest
         (all_points ++ pts, submitted_rows + sub, total_rows + tot))%io
  end.

(** Step 4 (app.py:214-219): one assignment to [by_rank]. *)
Definition merge_point (by_rank : list (Z * point)) (pt : point) : list (Z * point) :=
  match dict_get Z.eqb (rank pt) by_rank with
  | None => dict_set Z.eqb (rank pt) pt by_rank
  | Some old =>
      if reps old <? reps pt then dict_set Z.eqb (rank pt) pt by_rank else by_rank
  end.

Definition merge_points (all_points : list point) : list (Z * point) :=
  fold_left merge_point all_points [].

(** [points.sort(key=lambda x: x["percentile"])] *)
Definition sort_by_percentile (pts : list point) : list point :=
  py_sort (fun a b => F64.ltb (percentile a) (percentile b)) pts.

Definition the_note : string :=
  "Submission rate is estimated from sampled pages (valid score rows / total rows sampled).".

(** What steps 1 and 2 of [api_curve] establish before the sampler runs
    (app.py:181-190). *)
Record located : Type := mkLocated {
  first : page_json;
  total_pages : Z;
  total_competitors : Z;
  last_sub_page : Z;
  last_sub_json : page_json;
  total_submitted : Z
}.

Definition locate_boundary (remote : oracle) : M located :=
  (first <- _get_json remote None ;;
   total_pages <- lift (int_or_0 (totalPages (pagination_of first))) ;;
   total_competitors <- lift (int_or_0 (totalCompetitors (pagination_of first))) ;;
   '(last_sub_page, last_sub_json) <- _find_last_submission_page remote total_pages ;;
   total_submitted <- lift (_max_submitted_rank last_sub_json) ;;
   ret (mkLocated first total_pages total_competitors
                  last_sub_page last_sub_json total_submitted))%io.

(** [submission_rate = (submitted_rows / total_rows) if total_rows else None] *)
Definition submission_rate (submitted_rows total_rows : Z) : result (option F64.float) :=
  if total_rows =? 0 then Ok None
  else (r <- F64.truediv submitted_rows total_rows ;; Ok (Some r))%result.

(** The computation of [api_curve] after a cache miss (app.py:180-248). *)
Definition compute_curve (remote : oracle) (bp : params) (buckets : Z) : M payload :=
  (loc <- locate_boundary remote ;;
   sample_pages <- lift (_make_page_samples (last_sub_page loc) buckets) ;;
   let sample_pages :=
     if existsb (Z.eqb 1) sample_pages then sample_pages
     else py_sort Z.ltb (1 :: sample_pages) in
   '(all_points, submitted_rows, total_rows) <-
     sample_loop remote (first loc) (last_sub_page loc) (last_sub_json loc)
       (total_competitors loc) (total_submitted loc) sample_pages ([], 0, 0) ;;
   let pts := sort_by_percentile (dict_values (merge_points all_points)) in
   rate <- lift (submission_rate submitted_rows total_rows) ;;
   ret (mkPayload
          (mkMeta 2026 "open" (p_division bp) (p_region bp) (p_scaled bp)
                  (p_view bp) (p_sort bp)
                  (total_pages loc) (total_competitors loc)
                  (last_sub_page loc) (total_submitted loc)
                  (Z.of_nat (List.length sample_pages)) total_rows submitted_rows
                  rate the_note)
          pts))%io.

(** [api_curve] (app.py:148-251).  [remote] answers the leaderboard queries
    for given base parameters, [now] is [time.time()], [c] is [_CACHE]; the
    result is the response (or the exception), the fetches made, and the
    cache afterwards. *)
Definition api_curve (remote : params -> oracle) (now : F64.float)
  (req : request) (c : cache) : result payload * trace * cache :=
  let bp := base_params_of req in
  match PyStr.int_of_string (arg_or (arg_buckets req) "20") with
  | Err e => (Err e, [], c)
  | Ok buckets =>
      let ck := _cache_key bp buckets in
      let fresh :=
        match compute_curve (remote bp) bp buckets [] with
        | (Ok pl, t) => (Ok pl, t, dict_set String.eqb ck (mkEntry now pl) c)
        | (Err e, t) => (Err e, t, c)
        end in
      match dict_get String.eqb ck c with
      | Some cached =>
          if F64.ltb (F64.sub now (ts cached)) CACHE_TTL_SECONDS
          then (Ok (entry_payload cached), [], c)
          else fresh
      | None => fresh
      end
  end.

(* ================================================================== *)
(** * A synthetic leaderboard *)

(** Ten pages of three athletes each, thirty competitors; the first eleven
    have a result ("489 reps" for rank 11), so page 4 is the last page with
    a submission.  Pages outside 1..10 fail. *)
Definition demo_row (r : Z) (submitted : bool) : row :=
  mkRow (JStr (PyStr.string_of_int r))
        (ScoresList
           [mkScore (Some (if submitted
                           then (PyStr.string_of_int (500 - r) ++ " reps")%string
                           else EmptyString))
                    None
                    (JStr (if submitted then "1" else "0")%string)]).

Definition demo_page (p : Z) : page_json :=
  mkPage (Some (mkPagination (JNum 10) (JNum 30)))
         (Some [demo_row (3 * p - 2) (p <=? 4);
                demo_row (3 * p - 1) (p <=? 4);
                demo_row (3 * p) (p <? 4)]).

Definition demo_oracle : oracle :=
  fun page =>
    match page with
    | None => Some (demo_page 1)
    | Some p => if (1 <=? p) && (p <=? 10) then Some (demo_page p) else None
    end.

(** A request with the default filters and the given [buckets]. *)
Definition demo_request (buckets : string) : request :=
  mkRequest None None None None None (Some buckets).

(** The first page of the synthetic leaderboard without its [pagination]
    object, and a remote API that serves only it. *)
Definition demo_page_without_pagination : page_json :=
  mkPage None (leaderboardRows (demo_page 1)).

Definition demo_oracle_without_pagination : oracle :=
  fun page =>
    match page with
    | None => Some demo_page_without_pagination
    | Some p => if p =? 1 then Some demo_page_without_pagination else None
    end.

(** The synthetic leaderboard with [totalPages] sent as the word "ten". *)
Definition demo_oracle_malformed_pages : oracle :=
  fun page =>
    match page with
    | None => Some (mkPage (Some (mkPagination (JStr "ten") (JNum 30)))
                           (leaderboardRows (demo_page 1)))
    | Some p => demo_oracle (Some p)
    end.

Definition demo_params : params := mkParams "0" "1" "0" "0" "0".

(* ================================================================== *)
(** * Vocabulary of the specification *)

(** The spec's pattern "<integer> rep(s)" at the head of [s]: a non-empty run
    of digits [g], any white space, then the letters r, e, p in either case. *)
Definition pattern_at (s g : list ascii) : Prop :=
  exists ws a b c rest,
    s = g ++ ws ++ a :: b :: c :: rest
    /\ g <> []
    /\ Forall (fun x => PyStr.is_digit x = true) g
    /\ Forall (fun x => PyStr.is_space x = true) ws
    /\ Regex.lit_rep [a; b; c] = true.

(** The first match in [s]: no earlier position has a match. *)
Definition first_pattern (s g : list ascii) : Prop :=
  exists pre suf,
    s = pre ++ suf /\ pattern_at suf g
    /\ forall pre' suf' g',
         s = pre' ++ suf' -> (List.length pre' < List.length pre)%nat -> ~ pattern_at suf' g'.

(** The integer a digit string denotes. *)
Definition decimal (g : list ascii) : Z :=
  fold_left (fun acc c => 10 * acc + PyStr.digit_val c) g 0.

(** The optional text [t] has a first match, and its integer is [n]. *)
Definition text_match (t : option string) (n : Z) : Prop :=
  exists s g, t = Some s /\ first_pattern (list_ascii_of_string s) g /\ n = decimal g.

(** The optional text [t] has a first match, and its digits are [g]. *)
Definition text_group (t : option string) (g : list ascii) : Prop :=
  exists s, t = Some s /\ first_pattern (list_ascii_of_string s) g.

(** The number of characters of an optional text. *)
Definition text_length (t : option string) : Z :=
  match t with
  | Some s => Z.of_nat (String.length s)
  | None => 0
  end.

(** A rep count of 4301 digits: the digit 1 written 4301 times, then " rep". *)
Definition long_reps_text : string :=
  string_of_list_ascii (repeat "1"%char 4301 ++ list_ascii_of_string " rep").

(** The specification's submitted score: its validity flag is the string
    "1" and a value can be extracted from its texts. *)
Definition score_is_submitted (sc : score) : bool :=
  String.eqb (str_or_empty (valid sc)) "1"
  && match _parse_reps (scoreDisplay sc) (breakdown sc) with
     | Ok (Some _) => true
     | _ => false
     end.

(** Row [r] is one that the loop of [_extract_points_from_page] adds to
    [submitted_rows] (app.py:108-120): its rank reads as an integer, so that
    the loop goes on to its first score, and that score is submitted. *)
Definition row_is_submitted (r : row) : bool :=
  match int_or_0 (overallRank r) with
  | Ok _ => score_is_submitted (first_score_lenient r)
  | Err _ => false
  end.

(** The rows of some pages, and those among them that are submitted. *)
Definition total_rows_seen (bodies : list page_json) : Z :=
  fold_right (fun body n => Z.of_nat (List.length (rows_of body)) + n) 0 bodies.

Definition submitted_rows_seen (bodies : list page_json) : Z :=
  fold_right
    (fun body n => Z.of_nat (List.length (filter row_is_submitted (rows_of body))) + n)
    0 bodies.




(** [q] is no obstacle to writing [p] into [by_rank]: it has another rank,
    or strictly fewer reps. *)
Definition same_rank_smaller (p q : point) : bool :=
  negb (rank q =? rank p) || (reps q <? reps p).

(** The order of the curve: [a] stands before [b] when its percentile is not
    above that of [b]. *)
Definition percentile_le (a b : point) : Prop :=
  F64.leb (percentile a) (percentile b) = true.

(** The states [_CACHE] can be in: empty at start, then whatever the calls
    of [api_curve] leave. *)
Inductive reachable : cache -> Prop :=
| reachable_empty : reachable []
| reachable_call remote now req c :
    reachable c -> reachable (snd (api_curve remote now req c)).

(** A point whose percentile is a number. *)
Definition point_ok (p : point) : Prop := F64.is_nan (percentile p) = false.

(** The accumulators of the loops over rows and pages: points with numeric
    percentiles, and no more submitted rows than rows. *)
Definition acc_ok (acc : list point * Z * Z) : Prop :=
  let '(pts, sub, tot) := acc in Forall point_ok pts /\ 0 <= sub <= tot.

(** The submission rate of a payload, against its two row counts. *)
Definition rate_ok (m : meta) : Prop :=
  0 <= sampledSubmittedRows m <= sampledRows m
  /\ (sampledRows m = 0 -> estimatedSubmissionRate m = None)
  /\ (0 < sampledRows m ->
      exists q, estimatedSubmissionRate m = Some (F64.Fin q)
                /\ F64.truediv (sampledSubmittedRows m) (sampledRows m) = Ok (F64.Fin q)
                /\ (0 <= q <= 1)%Q).

(** What every computed payload satisfies. *)
Definition curve_ok (pl : payload) : Prop :=
  NoDup (map rank (points pl))
  /\ StronglySorted percentile_le (points pl)
  /\ Forall point_ok (points pl)
  /\ rate_ok (p_meta pl).

(** What every cache entry satisfies: its payload was computed, under a key
    with a non-zero bucket count. *)
Definition entry_ok (kv : string * cache_entry) : Prop :=
  curve_ok (entry_payload (snd kv))
  /\ exists bp b, fst kv = _cache_key bp b /\ b <> 0.

Definition cache_inv (c : cache) : Prop := Forall entry_ok c.

(* ================================================================== *)
(** * Vocabulary of the further properties *)

(** Row [r] counts for [_max_submitted_rank] with rank [n]: its first score
    can be read, has a non-empty display, and its rank reads as [n]. *)
Definition row_submitted_rank (r : row) (n : Z) : Prop :=
  exists s, first_score_strict r = Ok s
            /\ str_truthy (scoreDisplay s) = true
            /\ int_or_0 (overallRank r) = Ok n.

(** The first score of [r], if it has one, has a non-empty display. *)
Definition row_has_display (r : row) : bool :=
  str_truthy (scoreDisplay (first_score_lenient r)).

(** [row.get("scores", [{}])[0]] can be evaluated: the key is missing, or its
    value is a non-empty list. *)
Definition row_indexable (r : row) : Prop :=
  match scores r with
  | ScoresNull | ScoresList [] => False
  | _ => True
  end.

(** [total_submitted or total_competitors] of [_extract_points_from_page],
    where [tc] is the page's own [totalCompetitors]. *)
Definition pct_base_of (tc fallback_total total_submitted : Z) : Z :=
  if total_submitted =? 0
  then (if tc =? 0 then fallback_total else tc)
  else total_submitted.

(** A point as [_extract_points_from_page] makes it against [base]. *)
Definition point_from (base : Z) (p : point) : Prop :=
  1 <= rank p /\ 0 <= reps p /\ 0 < base
  /\ _percentile_from_rank (rank p) base = Ok (percentile p).

(** The points of page 4 of the synthetic leaderboard, against 11 submitted
    athletes. *)
Definition demo_boundary_points : list point :=
  Eval vm_compute in
    match _extract_points_from_page (demo_page 4) 30 11 with
    | Ok (pts, _, _) => pts
    | Err _ => []
    end.

(** The exceptions the locator can end with. *)
Definition locator_error (e : exn) : Prop :=
  e = HTTPError \/ e = TypeError \/ e = IndexError.

(** Lines 193-194 of [api_curve]: page 1 is always sampled. *)
Definition with_page_1 (sample_pages : list Z) : list Z :=
  if existsb (Z.eqb 1) sample_pages then sample_pages
  else py_sort Z.ltb (1 :: sample_pages).

(** The sampled pages the loop of lines 201-208 fetches: all but page 1 and
    the boundary page. *)
Definition to_fetch (last_sub_page : Z) (pages : list Z) : list Z :=
  filter (fun p => negb (p =? 1) && negb (p =? last_sub_page)) pages.

(** The string has the separator of the cache key in it. *)
Fixpoint has_ampersand (s : string) : bool :=
  match s with
  | EmptyString => false
  | String c r => Ascii.eqb c "&" || has_ampersand r
  end.

(** A point computed against some positive base, which is [total_submitted]
    when that is not 0. *)
Definition point_sound (total_submitted : Z) (p : point) : Prop :=
  exists base, point_from base p /\ (total_submitted <> 0 -> base = total_submitted).

(** What the numbers of a computed payload satisfy. *)
Definition payload_sound (pl : payload) : Prop :=
  let m := p_meta pl in
  1 <= lastSubmissionPage m <= Z.max 1 (m_totalPages m)
  /\ 0 <= totalSubmitted m
  /\ 1 <= sampledPages m <= lastSubmissionPage m
  /\ 0 <= sampledRows m
  /\ Forall (point_sound (totalSubmitted m)) (points pl).

Definition cache_sound (c : cache) : Prop :=
  Forall (fun kv => payload_sound (entry_payload (snd kv))) c.

(** A page the program can read through: its [totalCompetitors] reads as an
    integer; the first score of every row can be indexed and its two texts
    have at most 4300 characters; and the ranks that read as integers are at
    most 2^53. *)
Definition well_formed_row (r : row) : Prop :=
  row_indexable r
  /\ text_length (scoreDisplay (first_score_lenient r)) <= PyStr.int_max_str_digits
  /\ text_length (breakdown (first_score_lenient r)) <= PyStr.int_max_str_digits
  /\ forall rk, int_or_0 (overallRank r) = Ok rk -> rk <= 2 ^ 53.

Definition well_formed_page (page : page_json) : Prop :=
  (exists tc, int_or_0 (totalCompetitors (pagination_of page)) = Ok tc)
  /\ Forall well_formed_row (rows_of page).

(* ================================================================== *)
(** * Properties *)

(** ** Checks of the primitives on concrete inputs *)

(** The rounding of [F64] against the kernel's binary64 arithmetic. *)
Example kernel_div_1_3 :
  F64Check.value (PrimFloat.div (F64Check.of_int 1) (F64Check.of_int 3)) = F64.round (1 # 3).
Proof. vm_compute. reflexivity. Qed.
Example kernel_div_8_11 :
  Ok (F64Check.value (PrimFloat.div (F64Check.of_int 8) (F64Check.of_int 11))) = F64.truediv 8 11.
Proof. vm_compute. reflexivity. Qed.
Example kernel_percentile_2_3 :
  Ok (F64Check.value
        (PrimFloat.mul (F64Check.of_int 100)
           (PrimFloat.sub (F64Check.of_int 1)
              (PrimFloat.div (F64Check.of_int 1) (F64Check.of_int 3)))))
  = _percentile_from_rank 2 3.
Proof. vm_compute. reflexivity. Qed.
Example kernel_percentile_2_base_2_60 :
  Ok (F64Check.value
        (PrimFloat.mul (F64Check.of_int 100)
           (PrimFloat.sub (F64Check.of_int 1)
              (PrimFloat.div (F64Check.of_int 1) (F64Check.of_int (2 ^ 60))))))
  = _percentile_from_rank 2 (2 ^ 60).
Proof. vm_compute. reflexivity. Qed.
Example kernel_float_of_2_53_plus_1 :
  F64Check.value (F64Check.of_int (2 ^ 53 + 1)) = F64.round (inject_Z (2 ^ 53 + 1)).
Proof. vm_compute. reflexivity. Qed.
Example kernel_div_subnormal :
  F64Check.value (PrimFloat.div (FloatOps.SF2Prim (SpecFloat.S754_finite false 3 (-1074))) (F64Check.of_int 2))
  = F64.round ((3 # 2) * F64.pow2 (-1074)).
Proof. vm_compute. reflexivity. Qed.
Example kernel_mul_overflow :
  F64Check.value (PrimFloat.mul (F64Check.of_int 100) (FloatOps.SF2Prim (SpecFloat.S754_finite false 1 1020)))
  = F64.mul (F64.Fin 100) (F64.Fin (F64.pow2 1020)).
Proof. vm_compute. reflexivity. Qed.

Example int_of_string_ex1 : PyStr.int_of_string " 1_000 " = Ok 1000.
Proof. reflexivity. Qed.
Example int_of_string_ex2 : PyStr.int_of_string "-42" = Ok (-42).
Proof. reflexivity. Qed.
Example int_of_string_ex3 : PyStr.int_of_string "abc" = Err ValueError.
Proof. reflexivity. Qed.
Example int_of_string_ex4 : PyStr.int_of_string "1__0" = Err ValueError.
Proof. reflexivity. Qed.
Example string_of_int_ex1 : PyStr.string_of_int 2026 = "2026"%string.
Proof. reflexivity. Qed.
Example string_of_int_ex2 : PyStr.string_of_int (-7) = "-7"%string.
Proof. reflexivity. Qed.
Example string_of_int_ex3 : PyStr.string_of_int 0 = "0"%string.
Proof. reflexivity. Qed.
Example parse_reps_time_with_breakdown :
  _parse_reps (Some "11:16"%string) (Some "354 reps, 3 rounds"%string) = Ok (Some 354).
Proof. reflexivity. Qed.
Example parse_reps_display_only :
  _parse_reps (Some "221 reps"%string) None = Ok (Some 221).
Proof. reflexivity. Qed.
Example parse_reps_dnf : _parse_reps (Some "DNF"%string) None = Ok None.
Proof. reflexivity. Qed.

(** White space beyond ASCII: [\s] matches U+00A0 and U+0085, and [int]
    skips them; [\s] matches U+001C, which [int] does not skip. *)
Example parse_reps_no_break_space :
  _parse_reps (Some ("354" ++ String (ascii_of_nat 160) "reps")%string) None = Ok (Some 354).
Proof. reflexivity. Qed.

Example parse_reps_next_line :
  _parse_reps (Some ("354" ++ String (ascii_of_nat 133) "reps")%string) None = Ok (Some 354).
Proof. reflexivity. Qed.

Example parse_reps_file_separator :
  _parse_reps (Some ("354" ++ String (ascii_of_nat 28) "reps")%string) None = Ok (Some 354).
Proof. reflexivity. Qed.

Example int_of_string_no_break_space :
  PyStr.int_of_string (String (ascii_of_nat 160) ("12" ++ String (ascii_of_nat 133) " ")) = Ok 12.
Proof. reflexivity. Qed.

Example int_of_string_file_separator :
  PyStr.int_of_string (String (ascii_of_nat 28) "12") = Err ValueError.
Proof. reflexivity. Qed.

Example parse_reps_second_number :
  _parse_reps (Some "3 rounds + 20 REPS"%string) None = Ok (Some 20).
Proof. reflexivity. Qed.

(* ================================================================== *)
(** ** Rounding to binary64 *)

Module F64Facts.
Import F64.
Local Open Scope Q_scope.

Lemma pow2_pos e : 0 < pow2 e.
Proof. apply Qpower_0_lt. reflexivity. Qed.

Lemma pow2_add a b : pow2 (a + b) == pow2 a * pow2 b.
Proof. apply Qpower_plus. discriminate. Qed.

Lemma pow2_le a b : (a <= b)%Z -> pow2 a <= pow2 b.
Proof. intros H. apply Qpower_le_compat_l; [exact H | discriminate]. Qed.

Lemma pow2_lt a b : (a < b)%Z -> pow2 a < pow2 b.
Proof. intros H. apply Qpower_lt_compat_l; [exact H | reflexivity]. Qed.

Lemma pow2_lt_inv a b : pow2 a < pow2 b -> (a < b)%Z.
Proof. intros H. apply (Qpower_lt_compat_l_inv 2); [exact H | reflexivity]. Qed.

Lemma pow2_Z n : (0 <= n)%Z -> pow2 n == inject_Z (2 ^ n).
Proof. intros H. unfold pow2. rewrite Zpower_Qpower by exact H. reflexivity. Qed.

Lemma pow2_succ a : pow2 (a + 1) == 2 * pow2 a.
Proof. rewrite pow2_add. unfold pow2 at 2. simpl. ring. Qed.

Lemma pow2_pred a : pow2 (a - 1) == pow2 a / 2.
Proof.
  assert (H := pow2_succ (a - 1)). replace (a - 1 + 1)%Z with a in H by lia.
  rewrite H. field.
Qed.

Lemma ilog2_spec x : 0 < x -> pow2 (ilog2 x) <= x /\ x < pow2 (ilog2 x + 1).
Proof.
  intros Hx. unfold ilog2.
  destruct x as [n d]. unfold Qlt in Hx. simpl in Hx. rewrite Z.mul_1_r in Hx.
  cbn [Qnum Qden].
  set (a := Z.log2 n). set (b := Z.log2 (Zpos d)).
  assert (Ha : (0 <= a)%Z) by apply Z.log2_nonneg.
  assert (Hb : (0 <= b)%Z) by apply Z.log2_nonneg.
  destruct (Z.log2_spec n Hx) as [Hn1 Hn2]. fold a in Hn1, Hn2.
  destruct (Z.log2_spec (Zpos d) eq_refl) as [Hd1 Hd2]. fold b in Hd1, Hd2.
  assert (Hlow : pow2 (a - b - 1) <= n # d /\ (n # d) < pow2 (a - b + 1)).
  { assert (E1 : pow2 (a - b - 1) * pow2 (b + 1) == pow2 a).
    { rewrite <- pow2_add. replace (a - b - 1 + (b + 1))%Z with a by lia. reflexivity. }
    assert (E2 : pow2 (a - b + 1) * pow2 b == pow2 (a + 1)).
    { rewrite <- pow2_add. replace (a - b + 1 + b)%Z with (a + 1)%Z by lia. reflexivity. }
    rewrite (pow2_Z a) in E1 by lia. rewrite (pow2_Z (b + 1)) in E1 by lia.
    rewrite (pow2_Z b) in E2 by lia. rewrite (pow2_Z (a + 1)) in E2 by lia.
    assert (P1 := pow2_pos (a - b - 1)). assert (P2 := pow2_pos (a - b + 1)).
    revert E1 E2 P1 P2.
    generalize (pow2 (a - b - 1)) (pow2 (a - b + 1)). intros p q E1 E2 P1 P2.
    unfold Z.succ in *.
    assert (Q1 : inject_Z (2 ^ a) <= inject_Z n) by (rewrite <- Zle_Qle; lia).
    assert (Q2 : inject_Z n < inject_Z (2 ^ (a + 1))) by (rewrite <- Zlt_Qlt; lia).
    assert (Q3 : inject_Z (2 ^ b) <= inject_Z (Zpos d)) by (rewrite <- Zle_Qle; lia).
    assert (Q4 : inject_Z (Zpos d) < inject_Z (2 ^ (b + 1))) by (rewrite <- Zlt_Qlt; lia).
    assert (Q5 : 0 < inject_Z (Zpos d)) by (rewrite <- (Zlt_Qlt 0); lia).
    assert (E : (n # d) * inject_Z (Zpos d) == inject_Z n).
    { rewrite (Qmake_Qdiv n d). field. intro K. rewrite K in Q5. inversion Q5. }
    revert Q1 Q2 Q3 Q4 Q5 E E1 E2.
    generalize (inject_Z (2 ^ a)) (inject_Z (2 ^ (a + 1))) (inject_Z (2 ^ b))
      (inject_Z (2 ^ (b + 1))) (inject_Z n) (inject_Z (Zpos d)) (n # d).
    intros A A' B B' N D X. intros.
    split.
    - apply Qnot_lt_le. intro K.
      assert (X * D < p * B') by (apply Qle_lt_trans with (p * D); [ apply Qmult_le_compat_r; lra | apply Qmult_lt_l; lra]).
      lra.
    - apply Qnot_le_lt. intro K.
      assert (q * B <= X * D).
      { apply Qle_trans with (q * D). apply Qmult_le_l; lra. apply Qmult_le_compat_r; lra. }
      lra. }
  destruct Hlow as [L1 L2].
  destruct (Qle_bool (pow2 (a - b)) (n # d)) eqn:E.
  - apply Qle_bool_iff in E. split; assumption.
  - assert (~ pow2 (a - b) <= n # d) by (rewrite <- Qle_bool_iff; congruence).
    replace (a - b - 1 + 1)%Z with (a - b)%Z by lia. split; [assumption | lra].
Qed.

Lemma ilog2_mono x y : 0 < x -> x <= y -> (ilog2 x <= ilog2 y)%Z.
Proof.
  intros Hx Hxy.
  destruct (ilog2_spec x Hx) as [A _].
  destruct (ilog2_spec y) as [_ B]; [lra|].
  assert (K : pow2 (ilog2 x) < pow2 (ilog2 y + 1)) by lra.
  apply pow2_lt_inv in K. lia.
Qed.

Lemma rne_bounds x : inject_Z (Qfloor x) <= inject_Z (rne x) /\ inject_Z (rne x) <= inject_Z (Qfloor x) + 1.
Proof.
  assert (E : inject_Z (Qfloor x + 1) == inject_Z (Qfloor x) + 1) by (rewrite inject_Z_plus; reflexivity).
  unfold rne. destruct (Qcompare _ _); try destruct (Z.even _);
  rewrite ?E; split; lra.
Qed.

Lemma rne_Z n : rne (inject_Z n) = n.
Proof.
  unfold rne. rewrite Qfloor_Z.
  destruct (Qcompare_spec (inject_Z n - inject_Z n) (1 # 2)) as [H|H|H]; try lra.
  reflexivity.
Qed.

Lemma rne_comp x y : x == y -> rne x = rne y.
Proof.
  intros H. unfold rne. rewrite (Qfloor_comp _ _ H).
  assert (E : Qcompare (x - inject_Z (Qfloor y)) (1 # 2) = Qcompare (y - inject_Z (Qfloor y)) (1 # 2)).
  { apply Qcompare_comp; [rewrite H|]; reflexivity. }
  rewrite E. reflexivity.
Qed.

Lemma rne_le x y : x <= y -> (rne x <= rne y)%Z.
Proof.
  intros H. assert (F := Qfloor_resp_le _ _ H).
  assert (Fx := Qfloor_le x). assert (Fy := Qfloor_le y).
  assert (Gx := Qlt_floor x). assert (Gy := Qlt_floor y).
  unfold rne.
  destruct (Z.eq_dec (Qfloor x) (Qfloor y)) as [E|E].
  - rewrite E in *.
    destruct (Qcompare_spec (x - inject_Z (Qfloor y)) (1 # 2)) as [H1|H1|H1];
    destruct (Qcompare_spec (y - inject_Z (Qfloor y)) (1 # 2)) as [H2|H2|H2];
    try destruct (Z.even (Qfloor y)); try lia; try lra.
  - assert (Qfloor x + 1 <= Qfloor y)%Z by lia.
    destruct (Qcompare _ _); destruct (Qcompare _ _);
    repeat match goal with |- context [Z.even ?a] => destruct (Z.even a) end; lia.
Qed.

Lemma rne_above_half n x : inject_Z n + (1 # 2) < x -> (n + 1 <= rne x)%Z.
Proof.
  intros H.
  assert (F : (n <= Qfloor x)%Z).
  { rewrite <- (Qfloor_Z n). apply Qfloor_resp_le. lra. }
  unfold rne.
  destruct (Z.eq_dec n (Qfloor x)) as [E|E].
  - subst n. destruct (Qcompare_spec (x - inject_Z (Qfloor x)) (1 # 2)) as [H1|H1|H1]; try lra. lia.
  - destruct (Qcompare _ _); try destruct (Z.even _); lia.
Qed.

Lemma rne_nonneg x : 0 <= x -> (0 <= rne x)%Z.
Proof. intros H. rewrite <- (rne_Z 0). apply rne_le. exact H. Qed.

Lemma rnd_abs_pos x : 0 < x -> rnd_abs x == inject_Z (rne (x / pow2 (ulp_exp x))) * pow2 (ulp_exp x).
Proof.
  intros H. unfold rnd_abs.
  destruct (Qle_bool x 0) eqn:E.
  - apply Qle_bool_iff in E. lra.
  - reflexivity.
Qed.

Lemma rnd_abs_nonneg x : 0 <= rnd_abs x.
Proof.
  unfold rnd_abs. destruct (Qle_bool x 0) eqn:E; [lra|].
  assert (0 < x). { apply Qnot_le_lt. intro K. apply Qle_bool_iff in K. congruence. }
  apply Qmult_le_0_compat.
  - rewrite <- (Zle_Qle 0). apply rne_nonneg. apply Qle_shift_div_l. apply pow2_pos. lra.
  - apply Qlt_le_weak, pow2_pos.
Qed.

(** scaling by a power of two: x <= m * 2^e gives rnd-part <= *)
Lemma scaled_le_Z x e m : x <= inject_Z m * pow2 e -> inject_Z (rne (x / pow2 e)) * pow2 e <= inject_Z m * pow2 e.
Proof.
  intros H. assert (P := pow2_pos e).
  apply Qmult_le_compat_r; [|lra].
  rewrite <- Zle_Qle. rewrite <- (rne_Z m). apply rne_le.
  apply Qle_shift_div_r; assumption.
Qed.

Lemma scaled_ge_Z x e m : inject_Z m * pow2 e <= x -> inject_Z m * pow2 e <= inject_Z (rne (x / pow2 e)) * pow2 e.
Proof.
  intros H. assert (P := pow2_pos e).
  apply Qmult_le_compat_r; [|lra].
  rewrite <- Zle_Qle. rewrite <- (rne_Z m) at 1. apply rne_le.
  apply Qle_shift_div_l; assumption.
Qed.

Lemma pow2_split k e : (e <= k)%Z -> pow2 k == inject_Z (2 ^ (k - e)) * pow2 e.
Proof.
  intros H. rewrite <- pow2_Z by lia. rewrite <- pow2_add.
  replace (k - e + e)%Z with k by lia. reflexivity.
Qed.

Lemma rnd_abs_le x y : x <= y -> rnd_abs x <= rnd_abs y.
Proof.
  intros H.
  destruct (Qlt_le_dec 0 x) as [Hx|Hx].
  2:{ unfold rnd_abs at 1. destruct (Qle_bool x 0) eqn:E.
      - apply rnd_abs_nonneg.
      - exfalso. apply Qle_bool_iff in Hx. congruence. }
  assert (Hy : 0 < y) by lra.
  rewrite (rnd_abs_pos x Hx), (rnd_abs_pos y Hy).
  assert (M := ilog2_mono x y Hx H).
  destruct (ilog2_spec x Hx) as [X1 X2]. destruct (ilog2_spec y Hy) as [Y1 Y2].
  destruct (Z.eq_dec (ulp_exp x) (ulp_exp y)) as [E|E].
  - rewrite E. apply Qmult_le_compat_r; [|apply Qlt_le_weak, pow2_pos].
    rewrite <- Zle_Qle. apply rne_le.
    apply Qmult_le_compat_r; [exact H|]. apply Qlt_le_weak, Qinv_lt_0_compat, pow2_pos.
  - assert (L : (ulp_exp x < ulp_exp y)%Z) by (unfold ulp_exp in *; lia).
    assert (Ey : ulp_exp y = (ilog2 y - 52)%Z) by (unfold ulp_exp in *; lia).
    assert (Kxy : (ilog2 x < ilog2 y)%Z) by (unfold ulp_exp in *; lia).
    apply Qle_trans with (pow2 (ilog2 y)).
    + rewrite (pow2_split (ilog2 y) (ulp_exp x)) by lia.
      apply scaled_le_Z. rewrite <- pow2_split by lia.
      apply Qle_trans with (pow2 (ilog2 x + 1)); [lra|]. apply pow2_le. lia.
    + rewrite (pow2_split (ilog2 y) (ulp_exp y)) by lia.
      apply scaled_ge_Z. rewrite <- pow2_split by lia. exact Y1.
Qed.

Lemma rnd_nonneg_eq x : 0 <= x -> rnd x == rnd_abs x.
Proof.
  intros H. unfold rnd. rewrite Qred_correct.
  destruct (Qle_bool 0 x) eqn:E; [reflexivity|].
  apply Qle_bool_iff in H. congruence.
Qed.

Lemma rnd_neg_eq x : x < 0 -> rnd x == - rnd_abs (- x).
Proof.
  intros H. unfold rnd. rewrite Qred_correct.
  destruct (Qle_bool 0 x) eqn:E; [|reflexivity].
  apply Qle_bool_iff in E. lra.
Qed.

Lemma rnd_le x y : x <= y -> rnd x <= rnd y.
Proof.
  intros H.
  destruct (Qlt_le_dec x 0) as [Hx|Hx]; destruct (Qlt_le_dec y 0) as [Hy|Hy].
  - rewrite (rnd_neg_eq x Hx), (rnd_neg_eq y Hy).
    assert (rnd_abs (- y) <= rnd_abs (- x)) by (apply rnd_abs_le; lra). lra.
  - rewrite (rnd_neg_eq x Hx), (rnd_nonneg_eq y Hy).
    assert (A := rnd_abs_nonneg (- x)). assert (B := rnd_abs_nonneg y). lra.
  - lra.
  - rewrite (rnd_nonneg_eq x Hx), (rnd_nonneg_eq y Hy). apply rnd_abs_le, H.
Qed.

Lemma rnd_comp x y : x == y -> rnd x = rnd y.
Proof.
  intros H. unfold rnd. apply Qred_complete.
  assert (A : forall u v, u == v -> rnd_abs u == rnd_abs v).
  { intros u v E. apply Qle_antisym; apply rnd_abs_le; lra. }
  assert (B : Qle_bool 0 x = Qle_bool 0 y).
  { destruct (Qle_bool 0 x) eqn:E1; destruct (Qle_bool 0 y) eqn:E2; try reflexivity.
    - apply Qle_bool_iff in E1. assert (0 <= y) by lra. apply Qle_bool_iff in H0. congruence.
    - apply Qle_bool_iff in E2. assert (0 <= x) by lra. apply Qle_bool_iff in H0. congruence. }
  rewrite B. destruct (Qle_bool 0 y).
  - apply A, H.
  - rewrite (A (- x) (- y)); [reflexivity | lra].
Qed.

(** A value on the grid of its own binade is not changed by rounding. *)
Lemma rnd_abs_exact x m e : 0 < x -> x == inject_Z m * pow2 e -> (ulp_exp x <= e)%Z -> rnd_abs x == x.
Proof.
  intros Hx E L. rewrite (rnd_abs_pos x Hx).
  revert L. generalize (ulp_exp x). intros u L.
  assert (P := pow2_pos u).
  assert (X : x == inject_Z (m * 2 ^ (e - u)) * pow2 u).
  { rewrite E, inject_Z_mult, <- Qmult_assoc, <- (pow2_split e u L). reflexivity. }
  assert (S : x / pow2 u == inject_Z (m * 2 ^ (e - u))).
  { rewrite X at 1. field. lra. }
  rewrite (rne_comp _ _ S), rne_Z. apply Qeq_sym, X.
Qed.

Lemma ilog2_lt x k : 0 < x -> x < pow2 k -> (ilog2 x < k)%Z.
Proof.
  intros Hx H. destruct (ilog2_spec x Hx) as [A _].
  apply pow2_lt_inv. lra.
Qed.

Lemma ilog2_ge x k : pow2 k <= x -> (k <= ilog2 x)%Z.
Proof.
  intros H. assert (Hx : 0 < x) by (assert (P := pow2_pos k); lra).
  destruct (ilog2_spec x Hx) as [_ B].
  assert (K : pow2 k < pow2 (ilog2 x + 1)) by lra. apply pow2_lt_inv in K. lia.
Qed.

Lemma pow2_0 : pow2 0 == 1.
Proof. reflexivity. Qed.

(** Integers of magnitude at most 2^53 are binary64 numbers. *)
Lemma rnd_Z n : (Z.abs n <= 2 ^ 53)%Z -> rnd (inject_Z n) == inject_Z n.
Proof.
  assert (Pos : forall p, (0 < p <= 2 ^ 53)%Z -> rnd_abs (inject_Z p) == inject_Z p).
  { intros p Hp. assert (Hq : 0 < inject_Z p) by (rewrite <- (Zlt_Qlt 0); lia).
    destruct (Z.eq_dec p (2 ^ 53)) as [->|Ne].
    - apply (rnd_abs_exact _ (2 ^ 52) 1); [exact Hq | reflexivity |].
      assert (ilog2 (inject_Z (2 ^ 53)) < 54)%Z.
      { apply ilog2_lt; [exact Hq|]. reflexivity. }
      unfold ulp_exp, emin. lia.
    - apply (rnd_abs_exact _ p 0); [exact Hq | rewrite pow2_0; ring |].
      assert (ilog2 (inject_Z p) < 53)%Z.
      { apply ilog2_lt; [exact Hq|]. rewrite pow2_Z by lia. rewrite <- Zlt_Qlt. lia. }
      unfold ulp_exp, emin. lia. }
  intros H. destruct (Z.lt_trichotomy n 0) as [L|[->|L]].
  - assert (N : inject_Z n < 0) by (unfold Qlt; simpl; lia).
    rewrite (rnd_neg_eq _ N), <- inject_Z_opp, (Pos (- n)%Z) by lia.
    rewrite inject_Z_opp. ring.
  - reflexivity.
  - assert (N : 0 <= inject_Z n) by (unfold Qle; simpl; lia).
    rewrite (rnd_nonneg_eq _ N). apply Pos. lia.
Qed.

(** The quotient of two integers up to 2^53 never rounds down to an integer
    it exceeds. *)
Lemma rnd_div_above a b n :
  (1 <= n)%Z -> (1 <= b)%Z -> (n * b < a)%Z -> (a <= 2 ^ 53)%Z ->
  inject_Z n < rnd (inject_Z a / inject_Z b).
Proof.
  intros Hn Hb Hnb Ha.
  set (x := inject_Z a / inject_Z b).
  assert (Qb : 0 < inject_Z b) by (rewrite <- (Zlt_Qlt 0); lia).
  assert (Qn : 1 <= inject_Z n) by (rewrite <- (Zle_Qle 1); lia).
  assert (Xb : x * inject_Z b == inject_Z a) by (unfold x; field; lra).
  assert (Xn : inject_Z n * inject_Z b + 1 <= x * inject_Z b).
  { rewrite Xb. rewrite <- inject_Z_mult. rewrite <- (inject_Z_plus _ 1). rewrite <- Zle_Qle. lia. }
  assert (Xa : x * inject_Z b <= pow2 53).
  { rewrite Xb. rewrite pow2_Z by lia. rewrite <- Zle_Qle. exact Ha. }
  assert (Hx : inject_Z n < x).
  { apply Qnot_le_lt. intro K. assert (x * inject_Z b <= inject_Z n * inject_Z b) by (apply Qmult_le_compat_r; lra). lra. }
  assert (Hx0 : 0 < x) by lra.
  destruct (ilog2_spec x Hx0) as [L1 L2].
  assert (K0 : (0 <= ilog2 x)%Z) by (apply ilog2_ge; rewrite pow2_0; lra).
  assert (Qb1 : 1 <= inject_Z b) by (rewrite <- (Zle_Qle 1); lia).
  assert (Xx : x <= x * inject_Z b).
  { rewrite <- (Qmult_1_r x) at 1. apply Qmult_le_l; lra. }
  (* a power of two is its own rounding *)
  destruct (Qlt_le_dec (pow2 (ilog2 x)) x) as [Lx|Lx].
  2:{ assert (Ex : x == inject_Z (2 ^ ilog2 x)) by (rewrite <- pow2_Z by lia; lra).
      rewrite (rnd_comp _ _ Ex), rnd_Z; [lra|].
      assert (I : inject_Z (2 ^ ilog2 x) <= inject_Z (2 ^ 53)).
      { rewrite <- (pow2_Z 53) by lia. lra. }
      rewrite <- Zle_Qle in I.
      assert (0 < 2 ^ ilog2 x)%Z by (apply Z.pow_pos_nonneg; lia). lia. }
  assert (K1 : (ilog2 x < 53)%Z).
  { apply pow2_lt_inv. lra. }
  assert (E : ulp_exp x = (ilog2 x - 52)%Z) by (unfold ulp_exp, emin; lia).
  rewrite (rnd_nonneg_eq x) by lra. rewrite (rnd_abs_pos x Hx0), E.
  set (k := ilog2 x) in *. set (e := (k - 52)%Z).
  assert (P := pow2_pos e).
  (* the integer n on the grid *)
  assert (N : inject_Z n == inject_Z (n * 2 ^ (- e)) * pow2 e).
  { rewrite inject_Z_mult. rewrite <- pow2_Z by lia. rewrite <- Qmult_assoc, <- pow2_add.
    replace (- e + e)%Z with 0%Z by lia. rewrite pow2_0. ring. }
  assert (G : (n * 2 ^ (- e) + 1 <= rne (x / pow2 e))%Z).
  { apply rne_above_half.
    apply Qlt_shift_div_l; [exact P|].
    rewrite Qmult_plus_distr_l. rewrite <- N.
    (* (1/2) * 2^e < x - n, as b * 2^k < b * x = a <= 2^53 *)
    assert (B : inject_Z b * pow2 k < pow2 53).
    { apply Qlt_le_trans with (x * inject_Z b); [|exact Xa]. rewrite (Qmult_comm x). apply Qmult_lt_l; lra. }
    assert (S53 : pow2 53 == pow2 (- e + 1) * pow2 k).
    { rewrite <- pow2_add. replace (- e + 1 + k)%Z with 53%Z by lia. reflexivity. }
    assert (Pk := pow2_pos k).
    assert (B' : inject_Z b < pow2 (- e + 1)).
    { apply Qnot_le_lt. intro C. assert (pow2 (- e + 1) * pow2 k <= inject_Z b * pow2 k) by (apply Qmult_le_compat_r; lra). lra. }
    assert (I : pow2 (- e + 1) * ((1 # 2) * pow2 e) == 1).
    { rewrite pow2_succ. setoid_replace (2 * pow2 (- e) * ((1 # 2) * pow2 e)) with (pow2 (- e) * pow2 e) by ring.
      rewrite <- pow2_add. replace (- e + e)%Z with 0%Z by lia. reflexivity. }
    (* (x - n) * b >= 1 *)
    set (h := (1 # 2) * pow2 e) in *. assert (Hh : 0 < h) by (unfold h; lra).
    apply Qnot_le_lt. intro C.
    assert (C1 : (x - inject_Z n) * inject_Z b <= h * inject_Z b) by (apply Qmult_le_compat_r; lra).
    assert (C2 : h * inject_Z b < h * pow2 (- e + 1)) by (apply Qmult_lt_l; lra).
    lra. }
  apply Qlt_le_trans with (inject_Z (n * 2 ^ (- e) + 1) * pow2 e).
  - rewrite (inject_Z_plus _ 1), Qmult_plus_distr_l, <- N. change (inject_Z 1) with 1. lra.
  - apply Qmult_le_compat_r; [|lra]. rewrite <- Zle_Qle. exact G.
Qed.

End F64Facts.

(* ================================================================== *)
(** ** Order and arithmetic of floats *)

Module F64Order.
Import F64 F64Facts.
Local Open Scope Q_scope.

Lemma Qle_bool_false a b : Qle_bool a b = false -> b < a.
Proof.
  intros H. apply Qnot_le_lt. intro K. apply Qle_bool_iff in K. congruence.
Qed.

Ltac qbool :=
  repeat match goal with
  | H : Qle_bool _ _ = true |- _ => apply Qle_bool_iff in H
  | H : Qle_bool _ _ = false |- _ => apply Qle_bool_false in H
  | |- Qle_bool _ _ = true => apply Qle_bool_iff
  end.

Lemma round_not_nan x : is_nan (round x) = false.
Proof. unfold round. repeat destruct (Qle_bool _ _); reflexivity. Qed.

Lemma huge_pos : 0 < huge.
Proof. apply pow2_pos. Qed.

Lemma round_mono x y : x <= y -> leb (round x) (round y) = true.
Proof.
  intros H. assert (R := rnd_le x y H). assert (P := huge_pos).
  unfold round.
  destruct (Qle_bool huge (rnd x)) eqn:A; destruct (Qle_bool huge (rnd y)) eqn:B;
  destruct (Qle_bool (rnd x) (- huge)) eqn:C; destruct (Qle_bool (rnd y) (- huge)) eqn:D;
  simpl; try reflexivity; qbool; lra.
Qed.

Lemma leb_refl a : is_nan a = false -> leb a a = true.
Proof. destruct a; simpl; try congruence; intros _. qbool. lra. Qed.

Lemma leb_trans a b c : leb a b = true -> leb b c = true -> leb a c = true.
Proof.
  destruct a, b, c; simpl; try congruence; intros; qbool. lra.
Qed.

Lemma ltb_false_leb a b :
  is_nan a = false -> is_nan b = false -> ltb a b = false -> leb b a = true.
Proof.
  destruct a, b; simpl; try congruence; intros _ _ H.
  apply negb_false_iff in H. exact H.
Qed.

Lemma ltb_leb a b : ltb a b = true -> leb a b = true.
Proof.
  destruct a, b; simpl; try congruence. intros H. apply negb_true_iff in H. qbool. lra.
Qed.

Lemma ltb_irrefl_leb a b : leb a b = true -> ltb b a = false.
Proof.
  destruct a, b; simpl; try congruence. intros H. rewrite H. reflexivity.
Qed.

(** [100.0 * x] is monotone. *)
Lemma mul_100_mono a b : leb a b = true -> leb (mul (Fin 100) a) (mul (Fin 100) b) = true.
Proof.
  assert (T : forall x, leb (round x) PInf = true).
  { intros x. assert (N := round_not_nan x). destruct (round x); simpl in *; congruence. }
  assert (B : forall x, leb NInf (round x) = true).
  { intros x. assert (N := round_not_nan x). destruct (round x); simpl in *; congruence. }
  destruct a, b; simpl; try congruence; intros H;
    try exact (T _); try exact (B _); try reflexivity.
  apply round_mono. qbool. lra.
Qed.

Lemma mul_100_not_nan a : is_nan a = false -> is_nan (mul (Fin 100) a) = false.
Proof. destruct a; simpl; try congruence; intros _. apply round_not_nan. Qed.

(** [1.0 - x] is antitone on finite floats. *)
Lemma sub_1_anti x y : x <= y -> leb (sub (Fin 1) (Fin y)) (sub (Fin 1) (Fin x)) = true.
Proof. intros H. simpl. apply round_mono. lra. Qed.

Lemma truediv_inv a b f :
  truediv a b = Ok f ->
  b <> 0%Z /\ f = Fin (rnd (inject_Z a / inject_Z b)) /\
  - huge < rnd (inject_Z a / inject_Z b) < huge.
Proof.
  unfold truediv. destruct (Z.eqb_spec b 0) as [|N]; [discriminate|].
  unfold round.
  destruct (Qle_bool huge _) eqn:A; [discriminate|].
  destruct (Qle_bool _ (- huge)) eqn:B; [discriminate|].
  intros E. inversion E. qbool. repeat split; auto.
Qed.

Lemma div_mono a a' b : (0 < b)%Z -> (a <= a')%Z -> inject_Z a / inject_Z b <= inject_Z a' / inject_Z b.
Proof.
  intros Hb H. apply Qmult_le_compat_r.
  - rewrite <- Zle_Qle. exact H.
  - apply Qlt_le_weak, Qinv_lt_0_compat. unfold Qlt; simpl; lia.
Qed.

Lemma rne_error y : inject_Z (rne y) - (1 # 2) <= y /\ y <= inject_Z (rne y) + (1 # 2).
Proof.
  assert (F := Qfloor_le y). assert (G := Qlt_floor y).
  assert (E : inject_Z (Qfloor y + 1) == inject_Z (Qfloor y) + 1) by (rewrite inject_Z_plus; reflexivity).
  rewrite E in G. unfold rne.
  destruct (Qcompare_spec (y - inject_Z (Qfloor y)) (1 # 2)) as [H|H|H];
    try destruct (Z.even (Qfloor y)); rewrite ?E; split; lra.
Qed.

Lemma rnd_abs_error x k :
  0 < x -> x < pow2 k -> (emin <= k - 53)%Z ->
  x - pow2 (k - 54) <= rnd_abs x /\ rnd_abs x <= x + pow2 (k - 54).
Proof.
  intros Hx Hk Hm. rewrite (rnd_abs_pos x Hx).
  assert (L : (ulp_exp x <= k - 53)%Z).
  { assert (ilog2 x < k)%Z by (apply ilog2_lt; assumption). unfold ulp_exp. lia. }
  revert L. generalize (ulp_exp x). intros e L.
  assert (P := pow2_pos e).
  destruct (rne_error (x / pow2 e)) as [A B].
  assert (X : x == x / pow2 e * pow2 e) by (field; lra).
  assert (H : pow2 e * (1 # 2) <= pow2 (k - 54)).
  { assert (S := pow2_succ (e - 1)). replace (e - 1 + 1)%Z with e in S by lia.
    assert (pow2 (e - 1) <= pow2 (k - 54)) by (apply pow2_le; lia). lra. }
  revert A B X. generalize (x / pow2 e) (inject_Z (rne (x / pow2 e))). intros y m A B X.
  assert (A' : (m - (1 # 2)) * pow2 e <= y * pow2 e) by (apply Qmult_le_compat_r; lra).
  assert (B' : y * pow2 e <= (m + (1 # 2)) * pow2 e) by (apply Qmult_le_compat_r; lra).
  split; lra.
Qed.

Lemma rnd_error x k :
  - pow2 k < x -> x < pow2 k -> (emin <= k - 53)%Z ->
  x - pow2 (k - 54) <= rnd x /\ rnd x <= x + pow2 (k - 54).
Proof.
  intros H1 H2 Hm. assert (P := pow2_pos (k - 54)).
  destruct (Qlt_le_dec x 0) as [N|N].
  - rewrite (rnd_neg_eq x N).
    destruct (rnd_abs_error (- x) k) as [A B]; [lra | lra | exact Hm |]. split; lra.
  - rewrite (rnd_nonneg_eq x N).
    destruct (Qlt_le_dec 0 x) as [Z|Z].
    + apply rnd_abs_error; assumption.
    + assert (E : rnd_abs x == 0).
      { unfold rnd_abs. destruct (Qle_bool x 0) eqn:T; [reflexivity|]. apply Qle_bool_false in T. lra. }
      rewrite E. split; lra.
Qed.

Lemma rnd_0 : rnd 0 == 0.
Proof. reflexivity. Qed.
Lemma rnd_1 : rnd 1 == 1.
Proof. reflexivity. Qed.
Lemma rnd_100 : rnd 100 == 100.
Proof. reflexivity. Qed.

Lemma rnd_ge_0 x : 0 <= x -> 0 <= rnd x.
Proof. intros H. apply Qle_trans with (rnd 0); [rewrite rnd_0; lra | apply rnd_le, H]. Qed.
Lemma rnd_le_1 x : x <= 1 -> rnd x <= 1.
Proof. intros H. apply Qle_trans with (rnd 1); [apply rnd_le, H | rewrite rnd_1; lra]. Qed.
Lemma rnd_le_100 x : x <= 100 -> rnd x <= 100.
Proof. intros H. apply Qle_trans with (rnd 100); [apply rnd_le, H | rewrite rnd_100; lra]. Qed.

Lemma round_fin x : - huge < rnd x -> rnd x < huge -> round x = Fin (rnd x).
Proof.
  intros A B. unfold round.
  destruct (Qle_bool huge (rnd x)) eqn:E; qbool; [lra|].
  destruct (Qle_bool (rnd x) (- huge)) eqn:E'; qbool; [lra|]. reflexivity.
Qed.

Lemma huge_gt_100 : 100 < huge.
Proof. reflexivity. Qed.

End F64Order.

(* ================================================================== *)
(** ** [_percentile_from_rank] *)

Import F64 F64Facts F64Order.

Lemma percentile_not_nan r b f : _percentile_from_rank r b = Ok f -> is_nan f = false.
Proof.
  unfold _percentile_from_rank. destruct (truediv (r - 1) b) as [q|] eqn:E; simpl; [|discriminate].
  apply truediv_inv in E. destruct E as (_ & -> & _). intros H. inversion H.
  apply mul_100_not_nan. apply round_not_nan.
Qed.

Lemma percentile_mono r1 r2 b f1 f2 :
  (0 < b)%Z -> (r1 <= r2)%Z ->
  _percentile_from_rank r1 b = Ok f1 -> _percentile_from_rank r2 b = Ok f2 ->
  leb f2 f1 = true.
Proof.
  intros Hb Hr. unfold _percentile_from_rank.
  destruct (truediv (r1 - 1) b) as [q1|] eqn:E1; simpl; [|discriminate].
  destruct (truediv (r2 - 1) b) as [q2|] eqn:E2; simpl; [|discriminate].
  apply truediv_inv in E1, E2. destruct E1 as (_ & -> & _). destruct E2 as (_ & -> & _).
  intros H1 H2. inversion H1. inversion H2.
  apply mul_100_mono. apply sub_1_anti. apply rnd_le. apply div_mono; lia.
Qed.

Lemma percentile_rank_1 n : (1 <= n)%Z -> _percentile_from_rank 1 n = Ok (Fin 100).
Proof.
  intros H. unfold _percentile_from_rank, truediv.
  destruct (Z.eqb_spec n 0); [lia|].
  assert (E : rnd (inject_Z (1 - 1) / inject_Z n) = 0%Q).
  { rewrite (rnd_comp _ 0%Q); [reflexivity|]. simpl. unfold Qdiv. ring. }
  unfold round. rewrite E. reflexivity.
Qed.

Section PercentileStrict.
Local Open Scope Q_scope.

(** For bases up to 2^50 and ranks within the base, the computed percentiles of two
    ranks differ. *)
Lemma percentile_strict r1 r2 b :
  (1 <= r1)%Z -> (r1 < r2)%Z -> (r2 <= b)%Z -> (b <= 2 ^ 50)%Z ->
  exists f1 f2, _percentile_from_rank r1 b = Ok (Fin f1) /\ _percentile_from_rank r2 b = Ok (Fin f2) /\ f2 < f1.
Proof.
  intros H1 H12 H2 Hb.
  assert (G := huge_gt_100).
  assert (Qb : 0 < inject_Z b) by (unfold Qlt; simpl; lia).
  assert (Qb' : inject_Z b <= inject_Z (2 ^ 50)) by (rewrite <- Zle_Qle; exact Hb).
  (* the three roundings of one rank *)
  assert (Step : forall r, (1 <= r <= b)%Z ->
     exists q t p, _percentile_from_rank r b = Ok (Fin p) /\
       (let x := inject_Z (r - 1) / inject_Z b in
        x - pow2 (-54) <= q <= x + pow2 (-54)) /\
       1 - q - pow2 (-53) <= t <= 1 - q + pow2 (-53) /\
       100 * t - pow2 (-47) <= p <= 100 * t + pow2 (-47)).
  { intros r Hr. set (x := inject_Z (r - 1) / inject_Z b).
    assert (X0 : 0 <= x).
    { unfold x. apply Qle_shift_div_l; [exact Qb|]. rewrite Qmult_0_l. unfold Qle; simpl; lia. }
    assert (X1 : x < 1).
    { unfold x. apply Qlt_shift_div_r; [exact Qb|]. rewrite Qmult_1_l. rewrite <- Zlt_Qlt. lia. }
    assert (Q0 : 0 <= rnd x) by (apply rnd_ge_0; exact X0).
    assert (Q1 : rnd x <= 1) by (apply rnd_le_1; lra).
    assert (T0 : 0 <= rnd (1 - rnd x)) by (apply rnd_ge_0; lra).
    assert (T1 : rnd (1 - rnd x) <= 1) by (apply rnd_le_1; lra).
    assert (P0 : 0 <= rnd (100 * rnd (1 - rnd x))) by (apply rnd_ge_0; lra).
    assert (P1 : rnd (100 * rnd (1 - rnd x)) <= 100) by (apply rnd_le_100; lra).
    exists (rnd x), (rnd (1 - rnd x)), (rnd (100 * rnd (1 - rnd x))).
    split; [|split; [|split]].
    - unfold _percentile_from_rank, truediv. destruct (Z.eqb_spec b 0); [lia|].
      fold x. rewrite (round_fin x) by lra. simpl.
      rewrite (round_fin (1 - rnd x)) by lra.
      rewrite (round_fin (100 * rnd (1 - rnd x))) by lra. reflexivity.
    - cbv zeta. fold x. apply (rnd_error x 0); [change (pow2 0) with 1; lra | change (pow2 0) with 1; lra | unfold emin; lia].
    - apply (rnd_error (1 - rnd x) 1); [change (pow2 1) with 2; lra | change (pow2 1) with 2; lra | unfold emin; lia].
    - apply (rnd_error (100 * rnd (1 - rnd x)) 7); [change (pow2 7) with 128; lra | change (pow2 7) with 128; lra | unfold emin; lia]. }
  destruct (Step r1) as (q1 & t1 & p1 & E1 & A1 & B1 & C1); [lia|].
  destruct (Step r2) as (q2 & t2 & p2 & E2 & A2 & B2 & C2); [lia|].
  exists p1, p2. split; [exact E1|]. split; [exact E2|].
  cbv zeta in A1, A2.
  (* the exact quotients are 1/b apart *)
  assert (D : inject_Z (r1 - 1) / inject_Z b + pow2 (-50) <= inject_Z (r2 - 1) / inject_Z b).
  { assert (I : pow2 (-50) * inject_Z b <= 1).
    { setoid_replace 1 with (pow2 (-50) * inject_Z (2 ^ 50)) by reflexivity.
      apply Qmult_le_l; [reflexivity | exact Qb']. }
    apply Qle_shift_div_l; [exact Qb|].
    rewrite Qmult_plus_distr_l.
    setoid_replace (inject_Z (r1 - 1) / inject_Z b * inject_Z b) with (inject_Z (r1 - 1)) by (field; lra).
    assert (inject_Z (r1 - 1) + 1 <= inject_Z (r2 - 1)).
    { rewrite <- (inject_Z_plus _ 1). rewrite <- Zle_Qle. lia. }
    lra. }
  revert A1 A2 D. generalize (inject_Z (r1 - 1) / inject_Z b) (inject_Z (r2 - 1) / inject_Z b).
  intros x1 x2 A1 A2 D.
  change (pow2 (-54)) with (1 # 18014398509481984) in *.
  change (pow2 (-53)) with (1 # 9007199254740992) in *.
  change (pow2 (-47)) with (1 # 140737488355328) in *.
  change (pow2 (-50)) with (1 # 1125899906842624) in *.
  lra.
Qed.

End PercentileStrict.

(** C4, as the code has it.  [_percentile_from_rank] evaluates
    [100.0 * (1.0 - (rank - 1) / base)] in binary64 arithmetic: the quotient,
    the difference and the product are each rounded.  For every base [b > 0]
    and ranks [r1 < r2]:
    - whatever the function returns is that rounded expression;
    - the percentile of [r2] is never above the percentile of [r1];
    - it is strictly below when [1 <= r1], [r2 <= b] and [b <= 2^50];
    - the percentile of rank 1 is exactly [100.0]. *)
Theorem percentile_from_rank_monotone (b r1 r2 : Z) :
  0 < b -> r1 < r2 ->
  (forall r f, _percentile_from_rank r b = Ok f ->
     f = mul (Fin 100) (sub (Fin 1) (round (inject_Z (r - 1) / inject_Z b))))
  /\ (forall f1 f2,
        _percentile_from_rank r1 b = Ok f1 -> _percentile_from_rank r2 b = Ok f2 ->
        leb f2 f1 = true)
  /\ (1 <= r1 -> r2 <= b -> b <= 2 ^ 50 ->
      exists p1 p2,
        _percentile_from_rank r1 b = Ok (Fin p1)
        /\ _percentile_from_rank r2 b = Ok (Fin p2) /\ (p2 < p1)%Q)
  /\ _percentile_from_rank 1 b = Ok (Fin 100).
Proof.
  intros Hb Hr. repeat split.
  - intros r f. unfold _percentile_from_rank.
    destruct (truediv (r - 1) b) as [q|] eqn:E; cbn [rbind]; [|discriminate].
    apply truediv_inv in E. destruct E as (_ & -> & Lo & Hi).
    intros H. inversion H. rewrite (round_fin _ Lo Hi). reflexivity.
  - intros f1 f2. apply percentile_mono; lia.
  - intros A B C. apply percentile_strict; assumption.
  - apply percentile_rank_1. lia.
Qed.

Lemma percentile_from_rank_monotone_witness :
  (forall r f, _percentile_from_rank r 3 = Ok f ->
     f = mul (Fin 100) (sub (Fin 1) (round (inject_Z (r - 1) / inject_Z 3))))
  /\ (forall f1 f2,
        _percentile_from_rank 1 3 = Ok f1 -> _percentile_from_rank 2 3 = Ok f2 ->
        leb f2 f1 = true)
  /\ (1 <= 1 -> 2 <= 3 -> 3 <= 2 ^ 50 ->
      exists p1 p2,
        _percentile_from_rank 1 3 = Ok (Fin p1)
        /\ _percentile_from_rank 2 3 = Ok (Fin p2) /\ (p2 < p1)%Q)
  /\ _percentile_from_rank 1 3 = Ok (Fin 100).
Proof. apply (percentile_from_rank_monotone 3 1 2); lia. Defined.

(** C4 as stated fails on the code: with base [2^60] the quotient [1 / 2^60]
    is absorbed by [1.0 - _], so ranks 1 and 2 both get [100.0]. *)
Lemma percentile_not_strict_at_base_2_60 :
  _percentile_from_rank 1 (2 ^ 60) = Ok (Fin 100)
  /\ _percentile_from_rank 2 (2 ^ 60) = Ok (Fin 100)
  /\ ltb (Fin 100) (Fin 100) = false.
Proof. repeat split; vm_compute; reflexivity. Qed.

(* ================================================================== *)
(** ** [_make_page_samples] *)

(** ** Sorting *)

Lemma py_sort_sorted_id (l : list Z) : StronglySorted Z.lt l -> py_sort Z.ltb l = l.
Proof.
  induction 1 as [|x l S IH F]; [reflexivity|].
  unfold py_sort in *. simpl. rewrite IH.
  destruct l as [|y r]; [reflexivity|]. simpl.
  inversion F as [|? ? Hxy _]; subst.
  destruct (Z.ltb_spec y x); [lia | reflexivity].
Qed.

Lemma strictly_sorted_NoDup (l : list Z) : StronglySorted Z.lt l -> NoDup l.
Proof.
  induction 1 as [|x l S IH F]; constructor; [|exact IH].
  intro I. rewrite Forall_forall in F. specialize (F x I). lia.
Qed.

Lemma sorted_set_sorted_id (l : list Z) : StronglySorted Z.lt l -> sorted_set l = l.
Proof.
  intros S. unfold sorted_set.
  rewrite (nodup_fixed_point Z.eq_dec (strictly_sorted_NoDup l S)).
  apply py_sort_sorted_id, S.
Qed.

Lemma sorted_map_seq (h : nat -> Z) (n a : nat) :
  (forall i, (a <= i)%nat -> (S i < a + n)%nat -> h i < h (S i)) ->
  Sorted Z.lt (map h (seq a n)).
Proof.
  revert a. induction n as [|n IH]; intros a H; simpl; [constructor|].
  constructor.
  - apply IH. intros i Hi Hj. apply H; lia.
  - destruct n; simpl; constructor. apply H; lia.
Qed.

(** ** The buckets of [_make_page_samples] *)

Lemma half_between s e : s <= e -> s <= (s + e) / 2 <= e.
Proof.
  intros H. assert (A := Z.mul_div_le (s + e) 2). assert (B := Z.mul_succ_div_gt (s + e) 2). lia.
Qed.

Lemma range_len_pages total step :
  1 <= total -> 1 <= step -> range_len 1 (total + 1) step = (total - 1) / step + 1.
Proof.
  intros Ht Hs. unfold range_len. destruct (Z.ltb_spec 1 (total + 1)); [|lia].
  f_equal. f_equal. lia.
Qed.

Lemma start_in_range total step i :
  1 <= total -> 1 <= step -> Z.of_nat i < (total - 1) / step + 1 ->
  1 <= 1 + Z.of_nat i * step <= total.
Proof.
  intros Ht Hs Hi.
  assert (A := Z.mul_div_le (total - 1) step). 
  assert (Z.of_nat i * step <= (total - 1) / step * step) by (apply Z.mul_le_mono_nonneg_r; lia).
  nia.
Qed.

Lemma bucket_mid_bounds total step s :
  1 <= step -> 1 <= s <= total ->
  s <= bucket_mid total step s <= Z.min total (s + step - 1).
Proof.
  intros Hs H. unfold bucket_mid. apply half_between. lia.
Qed.

Lemma bucket_mids_seq total step :
  bucket_mids total step =
  map (fun i => bucket_mid total step (1 + Z.of_nat i * step))
      (seq 0 (Z.to_nat (range_len 1 (total + 1) step))).
Proof. unfold bucket_mids, py_range. rewrite map_map. reflexivity. Qed.

Lemma bucket_mids_sorted total step :
  1 <= total -> 1 <= step -> StronglySorted Z.lt (bucket_mids total step).
Proof.
  intros Ht Hs. apply Sorted_StronglySorted; [intros x y z; lia|].
  rewrite bucket_mids_seq. apply sorted_map_seq. intros i _ Hi.
  rewrite range_len_pages in Hi by assumption.
  assert (N : 0 <= (total - 1) / step) by (apply Z.div_pos; lia).
  assert (A := start_in_range total step i Ht Hs ltac:(lia)).
  assert (B := start_in_range total step (S i) Ht Hs ltac:(lia)).
  assert (C := bucket_mid_bounds total step _ Hs A).
  assert (D := bucket_mid_bounds total step _ Hs B).
  lia.
Qed.

Lemma bucket_mids_in_range total step :
  1 <= total -> 1 <= step -> Forall (fun p => 1 <= p <= total) (bucket_mids total step).
Proof.
  intros Ht Hs. rewrite bucket_mids_seq. apply Forall_forall. intros p Hp.
  apply in_map_iff in Hp. destruct Hp as (i & <- & Hi). apply in_seq in Hi.
  rewrite range_len_pages in Hi by assumption.
  assert (N : 0 <= (total - 1) / step) by (apply Z.div_pos; lia).
  assert (A := start_in_range total step i Ht Hs ltac:(lia)).
  assert (C := bucket_mid_bounds total step _ Hs A). lia.
Qed.

Lemma bucket_mids_length total step :
  1 <= total -> 1 <= step ->
  Z.of_nat (List.length (bucket_mids total step)) = (total - 1) / step + 1.
Proof.
  intros Ht Hs. rewrite bucket_mids_seq, length_map, length_seq.
  rewrite range_len_pages by assumption.
  assert (N : 0 <= (total - 1) / step) by (apply Z.div_pos; lia). lia.
Qed.

Lemma bucket_mids_nonempty total step : 1 <= total -> 1 <= step -> bucket_mids total step <> [].
Proof.
  intros Ht Hs E. assert (L := bucket_mids_length total step Ht Hs). rewrite E in L. simpl in L.
  assert (N : 0 <= (total - 1) / step) by (apply Z.div_pos; lia). lia.
Qed.

Lemma bucket_mids_count total step target :
  1 <= total -> 1 <= step -> total <= step * target ->
  Z.of_nat (List.length (bucket_mids total step)) <= target.
Proof.
  intros Ht Hs H. rewrite bucket_mids_length by assumption.
  assert ((total - 1) / step < target) by (apply Z.div_lt_upper_bound; lia). lia.
Qed.

(** What [_make_page_samples] returns for [total_pages >= 1]. *)
Lemma make_page_samples_inv total target l :
  1 <= total -> _make_page_samples total target = Ok l ->
  exists q, truediv total target = Ok (Fin q) /\
            l = bucket_mids total (Z.max 1 (Qceiling q)).
Proof.
  intros Ht. unfold _make_page_samples.
  destruct (Z.leb_spec total 0) as [L|L]; [lia|].
  destruct (truediv total target) as [f|] eqn:E; cbn [rbind]; [|discriminate].
  destruct (truediv_inv _ _ _ E) as (_ & -> & _). cbn [ceil rbind].
  intros [= <-]. eexists. split; [reflexivity|].
  apply sorted_set_sorted_id. apply bucket_mids_sorted; lia.
Qed.

Lemma Qceiling_comp' x y : (x == y)%Q -> Qceiling x = Qceiling y.
Proof. intros H. unfold Qceiling. f_equal. apply Qfloor_comp. rewrite H. reflexivity. Qed.

Lemma Qceiling_le_Z x n : (x <= inject_Z n)%Q -> Qceiling x <= n.
Proof. intros H. rewrite <- (Qceiling_Z n). apply Qceiling_resp_le, H. Qed.

Lemma Qceiling_gt_Z x n : (inject_Z n < x)%Q -> n + 1 <= Qceiling x.
Proof.
  intros H. assert (A := Qle_ceiling x).
  assert (B : (inject_Z n < inject_Z (Qceiling x))%Q) by lra.
  rewrite <- Zlt_Qlt in B. lia.
Qed.

(** The exact quotient and its ceiling, in integers. *)
Lemma quotient_ceiling a b :
  1 <= a -> 1 <= b ->
  let c := Qceiling (inject_Z a / inject_Z b) in
  1 <= c <= a /\ a <= c * b /\ (c - 1) * b < a.
Proof.
  intros Ha Hb c.
  assert (Qb : (0 < inject_Z b)%Q) by (unfold Qlt; simpl; lia).
  assert (U := Qle_ceiling (inject_Z a / inject_Z b)).
  assert (L := Qceiling_lt (inject_Z a / inject_Z b)). fold c in U, L.
  assert (U' : (inject_Z a <= inject_Z c * inject_Z b)%Q).
  { setoid_replace (inject_Z a) with (inject_Z a / inject_Z b * inject_Z b)%Q by (field; lra).
    apply Qmult_le_compat_r; lra. }
  assert (L' : (inject_Z (c - 1) * inject_Z b < inject_Z a)%Q).
  { setoid_replace (inject_Z a) with (inject_Z a / inject_Z b * inject_Z b)%Q by (field; lra).
    apply Qmult_lt_compat_r; lra. }
  rewrite <- inject_Z_mult, <- Zle_Qle in U'.
  rewrite <- inject_Z_mult, <- Zlt_Qlt in L'.
  repeat split; try assumption; nia.
Qed.

(** Up to 2^53 the float quotient has the ceiling of the exact quotient,
    up to the [max(1, _)] that follows. *)
Lemma truediv_ceiling a b :
  1 <= a <= 2 ^ 53 -> 1 <= b ->
  exists q, truediv a b = Ok (Fin q) /\
            Z.max 1 (Qceiling q) = Z.max 1 (Qceiling (inject_Z a / inject_Z b)).
Proof.
  intros Ha Hb.
  set (x := (inject_Z a / inject_Z b)%Q).
  destruct (quotient_ceiling a b) as (C1 & C2 & C3); [lia | lia |]. fold x in C1, C2, C3.
  set (c := Qceiling x) in *.
  assert (U := Qle_ceiling x). assert (L := Qceiling_lt x). fold c in U, L.
  assert (Qb : (0 < inject_Z b)%Q) by (unfold Qlt; simpl; lia).
  assert (X0 : (0 < x)%Q).
  { unfold x. apply Qlt_shift_div_l; [exact Qb|]. rewrite Qmult_0_l. unfold Qlt; simpl; lia. }
  assert (R0 : (0 <= rnd x)%Q) by (apply rnd_ge_0; lra).
  assert (R1 : (rnd x <= inject_Z c)%Q).
  { apply Qle_trans with (rnd (inject_Z c)); [apply rnd_le; exact U|].
    rewrite rnd_Z; [lra | lia]. }
  assert (Hc : (inject_Z c < huge)%Q).
  { apply Qle_lt_trans with (inject_Z (2 ^ 53)); [rewrite <- Zle_Qle; lia | reflexivity]. }
  assert (P := huge_pos).
  exists (rnd x). split.
  - unfold truediv. destruct (Z.eqb_spec b 0); [lia|]. fold x.
    rewrite round_fin by lra. reflexivity.
  - assert (A : Qceiling (rnd x) <= c) by (apply Qceiling_le_Z, R1).
    destruct (Z.eq_dec c 1) as [E|E]; [lia|].
    assert (B : c <= Qceiling (rnd x)).
    { replace c with (c - 1 + 1) by lia. apply Qceiling_gt_Z.
      apply rnd_div_above; lia. }
    lia.
Qed.

(** C3, as the code has it.  For [boundary_page <= 0] the sampler returns
    the single page 1.  For [boundary_page >= 1], whatever it returns is a
    non-empty, strictly ascending list of distinct pages in
    [1, boundary_page].  For [1 <= boundary_page <= 2^53] and
    [target_bucket_count >= 1] it returns the middle pages of the buckets of
    width [step], the least integer with [boundary_page <= step * target]
    (that is [max(1, ceil(boundary_page / target))]), and these are at most
    [target_bucket_count] pages. *)
Theorem make_page_samples_bounds (total target : Z) :
  (total <= 0 -> _make_page_samples total target = Ok [1])
  /\ (1 <= total -> forall l, _make_page_samples total target = Ok l ->
        l <> [] /\ StronglySorted Z.lt l /\ NoDup l
        /\ Forall (fun p => 1 <= p <= total) l)
  /\ (1 <= total <= 2 ^ 53 -> 1 <= target ->
        exists step l,
          _make_page_samples total target = Ok l
          /\ 1 <= step /\ (step - 1) * target < total <= step * target
          /\ l = bucket_mids total step
          /\ Z.of_nat (List.length l) <= target).
Proof.
  split; [|split].
  - intros H. unfold _make_page_samples. destruct (Z.leb_spec total 0); [reflexivity | lia].
  - intros Ht l E. destruct (make_page_samples_inv _ _ _ Ht E) as (q & _ & ->).
    assert (Hs : 1 <= Z.max 1 (Qceiling q)) by lia.
    repeat split.
    + apply bucket_mids_nonempty; assumption.
    + apply bucket_mids_sorted; assumption.
    + apply strictly_sorted_NoDup, bucket_mids_sorted; assumption.
    + apply bucket_mids_in_range; assumption.
  - intros Ht Hb.
    destruct (truediv_ceiling total target Ht Hb) as (q & E & S).
    destruct (quotient_ceiling total target) as (C1 & C2 & C3); [lia | lia |].
    set (c := Qceiling (inject_Z total / inject_Z target)) in *.
    exists c, (bucket_mids total c).
    assert (L : _make_page_samples total target = Ok (bucket_mids total c)).
    { unfold _make_page_samples. destruct (Z.leb_spec total 0); [lia|].
      rewrite E. cbn [rbind ceil]. rewrite S.
      replace (Z.max 1 c) with c by lia.
      rewrite sorted_set_sorted_id; [reflexivity|]. apply bucket_mids_sorted; lia. }
    repeat split; try lia; try assumption.
    apply bucket_mids_count; lia.
Qed.

(** C3 as stated fails on the code: [(2^53 + 1) / 1] rounds to [2^53], so
    the step is one short and one bucket becomes two. *)
Lemma make_page_samples_two_pages_for_one_bucket :
  _make_page_samples (2 ^ 53 + 1) 1 = Ok [2 ^ 52; 2 ^ 53 + 1]
  /\ 1 < Z.of_nat (List.length [2 ^ 52; 2 ^ 53 + 1]).
Proof. split; vm_compute; reflexivity. Qed.

(* ================================================================== *)
(** ** [_parse_reps] *)

Section ParseReps.
Import PyStr Regex.

Lemma digit_not_space c : is_digit c = true -> is_space c = false.
Proof.
  unfold is_digit, is_space. intros H.
  apply andb_true_iff in H. destruct H as [A B].
  apply Nat.leb_le in A, B.
  destruct (Nat.leb_spec 9 (code c)), (Nat.leb_spec (code c) 13),
           (Nat.leb_spec 28 (code c)), (Nat.leb_spec (code c) 32),
           (Nat.eqb_spec (code c) 133), (Nat.eqb_spec (code c) 160);
    simpl; try reflexivity; exfalso; lia.
Qed.

Lemma digit_not_blank c : is_digit c = true -> is_blank c = false.
Proof.
  unfold is_digit, is_blank. intros H.
  apply andb_true_iff in H. destruct H as [A B].
  apply Nat.leb_le in A, B.
  destruct (Nat.leb_spec 9 (code c)), (Nat.leb_spec (code c) 13),
           (Nat.eqb_spec (code c) 32),
           (Nat.eqb_spec (code c) 133), (Nat.eqb_spec (code c) 160);
    simpl; try reflexivity; exfalso; lia.
Qed.

Lemma digit_not_r c : is_digit c = true -> Ascii.eqb (lower c) "r" = false.
Proof.
  unfold is_digit, lower. intros H.
  apply andb_true_iff in H. destruct H as [A B].
  apply Nat.leb_le in A, B.
  destruct (Nat.leb_spec 65 (code c)); [lia|]. simpl.
  apply Ascii.eqb_neq. intros ->. vm_compute in B. lia.
Qed.

Lemma lit_rep_head s : lit_rep s = true ->
  exists a b c rest, s = a :: b :: c :: rest /\ lit_rep [a; b; c] = true.
Proof.
  destruct s as [|a [|b [|c rest]]]; simpl; try discriminate.
  intros H. exists a, b, c, rest. split; [reflexivity | exact H].
Qed.

Lemma lit_rep_ext a b c rest : lit_rep (a :: b :: c :: rest) = lit_rep [a; b; c].
Proof. reflexivity. Qed.

Lemma lit_rep_not_digit c r : is_digit c = true -> lit_rep (c :: r) = false.
Proof.
  intros H. destruct r as [|b [|d r]]; try reflexivity.
  simpl. rewrite (digit_not_r c H). reflexivity.
Qed.

Lemma spaces_rep_iff s :
  spaces_rep s = true <->
  exists ws a b c rest, s = ws ++ a :: b :: c :: rest
    /\ Forall (fun x => is_space x = true) ws /\ lit_rep [a; b; c] = true.
Proof.
  induction s as [|x s IH].
  - simpl. split; [discriminate|]. intros (ws & a & b & c & rest & E & _).
    destruct ws; discriminate.
  - assert (R : spaces_rep (x :: s) = (is_space x && spaces_rep s) || lit_rep (x :: s)).
    { cbn [spaces_rep]. destruct (is_space x), (spaces_rep s); reflexivity. }
    rewrite R, orb_true_iff, andb_true_iff, IH. split.
    + intros [[Hx (ws & a & b & c & rest & -> & F & L)] | L].
      * exists (x :: ws), a, b, c, rest. repeat split; auto.
      * destruct (lit_rep_head _ L) as (a & b & c & rest & E & L').
        exists [], a, b, c, rest. repeat split; auto.
    + intros (ws & a & b & c & rest & E & F & L).
      destruct ws as [|w ws]; simpl in E.
      * right. rewrite E. exact L.
      * left. inversion E; subst. inversion F; subst. split; [assumption|].
        exists ws, a, b, c, rest. repeat split; auto.
Qed.

Lemma spaces_rep_not_digit c r : is_digit c = true -> spaces_rep (c :: r) = false.
Proof.
  intros H. cbn [spaces_rep]. rewrite (digit_not_space c H), (lit_rep_not_digit c r H). reflexivity.
Qed.

Lemma digits_rest_iff s : forall g m,
  digits_rest g s = Some m <->
  exists d s', s = d ++ s' /\ Forall (fun x => is_digit x = true) d
    /\ spaces_rep s' = true /\ m = rev g ++ d.
Proof.
  induction s as [|x s IH]; intros g m.
  - cbn [digits_rest]. simpl. split; [discriminate|].
    intros (d & s' & E & _ & S & _). destruct d; [|discriminate].
    simpl in E. subst s'. discriminate.
  - cbn [digits_rest]. destruct (is_digit x) eqn:Dx.
    + rewrite (spaces_rep_not_digit x s Dx).
      assert (R : match digits_rest (x :: g) s with Some m0 => Some m0 | None => None end
                  = digits_rest (x :: g) s) by (destruct (digits_rest (x :: g) s); reflexivity).
      rewrite R, IH. split.
      * intros (d & s' & -> & F & S & ->). exists (x :: d), s'.
        repeat split; auto. simpl. rewrite <- app_assoc. reflexivity.
      * intros (d & s' & E & F & S & ->). destruct d as [|y d].
        -- simpl in E. subst s'. rewrite (spaces_rep_not_digit x s Dx) in S. discriminate.
        -- inversion E; subst. inversion F; subst. exists d, s'.
           repeat split; auto. simpl. rewrite <- app_assoc. reflexivity.
    + split.
      * destruct (spaces_rep (x :: s)) eqn:S; [|discriminate].
        intros [= <-]. exists [], (x :: s). repeat split; auto. rewrite app_nil_r. reflexivity.
      * intros (d & s' & E & F & S & ->). destruct d as [|y d].
        -- simpl in E. subst s'. rewrite S, app_nil_r. reflexivity.
        -- inversion E; subst. inversion F; subst. congruence.
Qed.

Lemma match_here_iff s g : match_here s = Some g <-> pattern_at s g.
Proof.
  unfold match_here, pattern_at. destruct s as [|x s].
  - split; [discriminate|]. intros (ws & a & b & c & rest & E & N & _).
    destruct g; [congruence | discriminate].
  - destruct (is_digit x) eqn:Dx.
    + rewrite digits_rest_iff. split.
      * intros (d & s' & -> & F & S & ->). apply spaces_rep_iff in S.
        destruct S as (ws & a & b & c & rest & -> & Fw & L).
        exists ws, a, b, c, rest. repeat split; auto; [discriminate|].
        simpl. constructor; assumption.
      * intros (ws & a & b & c & rest & E & N & F & Fw & L).
        destruct g as [|y d]; [congruence|]. inversion E; subst. inversion F; subst.
        exists d, (ws ++ a :: b :: c :: rest). repeat split; auto.
        apply spaces_rep_iff. exists ws, a, b, c, rest. repeat split; auto.
    + split; [discriminate|]. intros (ws & a & b & c & rest & E & N & F & _).
      destruct g as [|y d]; [congruence|]. inversion E; subst. inversion F; subst. congruence.
Qed.

Lemma search_some s g : search s = Some g <-> first_pattern s g.
Proof.
  induction s as [|x s IH].
  - cbn [search]. simpl. split; [discriminate|].
    intros (pre & suf & E & P & _). symmetry in E. apply app_eq_nil in E. destruct E; subst.
    apply match_here_iff in P. discriminate.
  - cbn [search]. destruct (match_here (x :: s)) as [m|] eqn:M.
    + split.
      * intros [= <-]. exists [], (x :: s). repeat split; auto.
        -- apply match_here_iff, M.
        -- intros pre' suf' g' _ L. simpl in L. lia.
      * intros (pre & suf & E & P & Min). destruct pre as [|y pre].
        -- simpl in E. subst suf. apply match_here_iff in P. congruence.
        -- exfalso. apply (Min [] (x :: s) m); [reflexivity | simpl; lia | apply match_here_iff, M].
    + rewrite IH. split.
      * intros (pre & suf & -> & P & Min). exists (x :: pre), suf. repeat split; auto.
        intros pre' suf' g' E L. destruct pre' as [|y pre'].
        -- simpl in E. subst suf'. intro P'. apply match_here_iff in P'. congruence.
        -- inversion E; subst. apply (Min pre' suf' g'); [assumption | simpl in L; lia].
      * intros (pre & suf & E & P & Min). destruct pre as [|y pre].
        -- simpl in E. subst suf. apply match_here_iff in P. congruence.
        -- inversion E; subst. exists pre, suf. repeat split; auto.
           intros pre' suf' g' E' L. apply (Min (y :: pre') suf' g'); [simpl; congruence | simpl; lia].
Qed.

Lemma search_none s : search s = None -> forall g, ~ first_pattern s g.
Proof. intros H g P. apply search_some in P. congruence. Qed.

Lemma drop_space_digit c r : is_digit c = true -> drop_space (c :: r) = c :: r.
Proof. intros H. simpl. rewrite (digit_not_blank c H). reflexivity. Qed.

Lemma strip_digits g :
  g <> [] -> Forall (fun x => is_digit x = true) g -> strip g = g.
Proof.
  intros N F. unfold strip.
  destruct g as [|c r]; [congruence|].
  rewrite drop_space_digit by (inversion F; assumption).
  assert (R : exists d l, rev (c :: r) = d :: l /\ is_digit d = true).
  { destruct (rev (c :: r)) as [|d l] eqn:E.
    - apply (f_equal (@List.length ascii)) in E. rewrite length_rev in E. discriminate.
    - exists d, l. split; [reflexivity|].
      rewrite Forall_forall in F. apply F. apply in_rev. rewrite E. left. reflexivity. }
  destruct R as (d & l & E & D). rewrite E, (drop_space_digit d l D), <- E.
  apply rev_involutive.
Qed.

Lemma digits_value_digits g : forall acc,
  Forall (fun x => is_digit x = true) g ->
  digits_value acc false g = Some (fold_left (fun a c => 10 * a + digit_val c) g acc).
Proof.
  induction g as [|c r IH]; intros acc F; [reflexivity|].
  inversion F; subst. cbn [digits_value fold_left].
  rewrite H1. apply IH. assumption.
Qed.

Lemma count_digits_digits g :
  Forall (fun x => is_digit x = true) g -> count_digits g = Z.of_nat (List.length g).
Proof.
  intros F. unfold count_digits. f_equal. f_equal.
  induction F as [|c r Hc _ IH]; [reflexivity|]. cbn [filter]. rewrite Hc, IH. reflexivity.
Qed.

(** [int] of a run of digits: its value, unless it is too long. *)
Lemma int_of_chars_digits g :
  g <> [] -> Forall (fun x => is_digit x = true) g ->
  int_of_chars g =
  if int_max_str_digits <? Z.of_nat (List.length g) then None else Some (decimal g).
Proof.
  intros N F. unfold int_of_chars. rewrite (strip_digits g N F).
  destruct g as [|c r]; [congruence|].
  assert (D : is_digit c = true) by (inversion F; assumption).
  assert (P : parse_unsigned (c :: r) =
              if int_max_str_digits <? Z.of_nat (List.length (c :: r))
              then None else Some (decimal (c :: r))).
  { unfold parse_unsigned. rewrite D, (count_digits_digits _ F).
    destruct (int_max_str_digits <? _); [reflexivity|]. apply digits_value_digits, F. }
  destruct (Ascii.eqb_spec c "+") as [->|Np]; [discriminate D|].
  destruct (Ascii.eqb_spec c "-") as [->|Nm]; [discriminate D|].
  destruct c as [[] [] [] [] [] [] [] []]; try exact P; congruence.
Qed.

(** The limit of [int]: 4300 digits are read, 4301 are not. *)
Example int_of_chars_digit_limit :
  int_of_chars (repeat "1"%char 4300) = Some (decimal (repeat "1"%char 4300))
  /\ int_of_chars (repeat "1"%char 4301) = None.
Proof.
  assert (F : forall n, Forall (fun x => is_digit x = true) (repeat "1"%char n)).
  { intros n. apply Forall_forall. intros x Hx. apply repeat_spec in Hx. subst x. reflexivity. }
  assert (A : Z.of_nat 4300 = 4300) by (vm_compute; reflexivity).
  assert (B : Z.of_nat 4301 = 4301) by (vm_compute; reflexivity).
  split.
  - rewrite (int_of_chars_digits (repeat "1"%char 4300) ltac:(discriminate) (F 4300%nat)).
    rewrite (repeat_length "1"%char 4300), A. reflexivity.
  - rewrite (int_of_chars_digits (repeat "1"%char 4301) ltac:(discriminate) (F 4301%nat)).
    rewrite (repeat_length "1"%char 4301), B. reflexivity.
Qed.

Lemma first_pattern_group s g :
  first_pattern s g -> g <> [] /\ Forall (fun x => is_digit x = true) g.
Proof.
  intros (pre & suf & _ & (ws & a & b & c & rest & _ & N & F & _) & _). split; assumption.
Qed.

Lemma text_group_functional t g g' : text_group t g -> text_group t g' -> g = g'.
Proof.
  intros (s & E & P) (s' & E' & P').
  rewrite E in E'. inversion E'; subst.
  apply search_some in P, P'. congruence.
Qed.

Lemma text_match_functional t n n' : text_match t n -> text_match t n' -> n = n'.
Proof.
  intros (s & g & E & P & ->) (s' & g' & E' & P' & ->).
  rewrite E in E'. inversion E'; subst.
  apply search_some in P, P'. congruence.
Qed.

Lemma text_match_group t n : text_match t n <-> exists g, text_group t g /\ n = decimal g.
Proof.
  split.
  - intros (s & g & E & P & N). exists g. split; [exists s; auto | exact N].
  - intros (g & (s & E & P) & N). exists s, g. auto.
Qed.

(** What [parse_text] does with a text that has a match. *)
Lemma parse_text_group t g :
  text_group t g ->
  parse_text t =
  if int_max_str_digits <? Z.of_nat (List.length g) then Err ValueError
  else Ok (Some (decimal g)).
Proof.
  intros (s & -> & P).
  destruct (first_pattern_group _ _ P) as [N F].
  apply search_some in P. unfold parse_text.
  destruct s as [|c s]; [discriminate P|].
  rewrite P, (int_of_chars_digits g N F).
  destruct (int_max_str_digits <? _); reflexivity.
Qed.

Lemma parse_text_no_group t : (forall g, ~ text_group t g) -> parse_text t = Ok None.
Proof.
  intros H. unfold parse_text. destruct t as [s|]; [|reflexivity].
  destruct s as [|c s]; [reflexivity|].
  destruct (search _) as [g|] eqn:S; [|reflexivity].
  exfalso. apply (H g). exists (String c s). split; [reflexivity|]. apply search_some, S.
Qed.

Lemma text_group_dec t : (exists g, text_group t g) \/ (forall g, ~ text_group t g).
Proof.
  destruct t as [s|].
  - destruct (search (list_ascii_of_string s)) as [g|] eqn:S.
    + left. exists g, s. split; [reflexivity|]. apply search_some, S.
    + right. intros g (s' & E & P). inversion E; subst.
      apply search_some in P. congruence.
  - right. intros g (s & E & _). discriminate.
Qed.

Lemma parse_text_group_short t g :
  text_group t g -> Z.of_nat (List.length g) <= int_max_str_digits ->
  parse_text t = Ok (Some (decimal g)).
Proof.
  intros G L. rewrite (parse_text_group t g G).
  destruct (Z.ltb_spec int_max_str_digits (Z.of_nat (List.length g))); [lia | reflexivity].
Qed.

Lemma parse_text_group_long t g :
  text_group t g -> int_max_str_digits < Z.of_nat (List.length g) ->
  parse_text t = Err ValueError.
Proof.
  intros G L. rewrite (parse_text_group t g G).
  destruct (Z.ltb_spec int_max_str_digits (Z.of_nat (List.length g))); [reflexivity | lia].
Qed.

(** C2, as the code has it.  [_parse_reps] reads the first match of
    "<integer> rep" (any case) in the breakdown when it has one, otherwise
    the first match in the display, and returns [None] when neither text has
    a match (a missing text has none).  A text has at most one first match.
    When the match that is read has at most 4300 digits, its integer is
    returned; when it has more, [int] raises [ValueError] and so does
    [_parse_reps], without turning to the display.  The two inputs of the
    specification give 354 and 221. *)
Theorem parse_reps_breakdown_first (display breakdown : option string) :
  (forall g, text_group breakdown g ->
     (Z.of_nat (List.length g) <= int_max_str_digits ->
      _parse_reps display breakdown = Ok (Some (decimal g)))
     /\ (int_max_str_digits < Z.of_nat (List.length g) ->
         _parse_reps display breakdown = Err ValueError))
  /\ ((forall g, ~ text_group breakdown g) ->
      forall g, text_group display g ->
        (Z.of_nat (List.length g) <= int_max_str_digits ->
         _parse_reps display breakdown = Ok (Some (decimal g)))
        /\ (int_max_str_digits < Z.of_nat (List.length g) ->
            _parse_reps display breakdown = Err ValueError))
  /\ ((forall g, ~ text_group breakdown g) -> (forall g, ~ text_group display g) ->
      _parse_reps display breakdown = Ok None)
  /\ ((exists g, text_group breakdown g) \/ (forall g, ~ text_group breakdown g))
  /\ ((exists g, text_group display g) \/ (forall g, ~ text_group display g))
  /\ (forall t g g', text_group t g -> text_group t g' -> g = g')
  /\ _parse_reps (Some "11:16"%string) (Some "354 reps, 3 rounds"%string) = Ok (Some 354)
  /\ _parse_reps (Some "221 reps"%string) None = Ok (Some 221).
Proof.
  split; [|split; [|split; [|split; [|split; [|split; [|split]]]]]].
  - intros g G. unfold _parse_reps. split; intros L.
    + rewrite (parse_text_group_short _ _ G L). reflexivity.
    + rewrite (parse_text_group_long _ _ G L). reflexivity.
  - intros Nb g G. unfold _parse_reps. rewrite (parse_text_no_group _ Nb). cbn [rbind].
    split; intros L.
    + apply (parse_text_group_short _ _ G L).
    + apply (parse_text_group_long _ _ G L).
  - intros Nb Nd. unfold _parse_reps. rewrite (parse_text_no_group _ Nb). cbn [rbind].
    apply parse_text_no_group, Nd.
  - apply text_group_dec.
  - apply text_group_dec.
  - apply text_group_functional.
  - reflexivity.
  - reflexivity.
Qed.

(** C2 as stated fails on the code: a breakdown that is a 4301-digit
    integer followed by " rep" has a first match, and [_parse_reps] raises
    [ValueError] on it instead of returning that integer. *)
Lemma parse_reps_refuses_long_integer :
  text_group (Some long_reps_text) (repeat "1"%char 4301)
  /\ Z.of_nat (List.length (repeat "1"%char 4301)) = 4301
  /\ _parse_reps None (Some long_reps_text) = Err ValueError.
Proof.
  assert (L : Z.of_nat (List.length (repeat "1"%char 4301)) = 4301).
  { rewrite repeat_length. vm_compute. reflexivity. }
  assert (G : text_group (Some long_reps_text) (repeat "1"%char 4301)).
  { exists long_reps_text. split; [reflexivity|].
    unfold long_reps_text. rewrite list_ascii_of_string_of_list_ascii.
    exists [], (repeat "1"%char 4301 ++ list_ascii_of_string " rep").
    split; [reflexivity|]. split.
    - exists [" "%char], "r"%char, "e"%char, "p"%char, [].
      split; [reflexivity|]. split; [discriminate|]. split.
      + apply Forall_forall. intros x Hx. apply repeat_spec in Hx. subst x. reflexivity.
      + split; [repeat constructor | reflexivity].
    - intros pre' suf' g' _ Hl. simpl in Hl. lia. }
  split; [exact G|]. split; [exact L|].
  unfold _parse_reps. rewrite (parse_text_group_long _ _ G); [reflexivity|].
  rewrite L. reflexivity.
Qed.

End ParseReps.

(* ================================================================== *)
(** ** [_find_last_submission_page] *)

Lemma log2_up_halve n m :
  2 <= n -> 1 <= m -> 2 * m <= n + 1 -> Z.log2_up m + 1 <= Z.log2_up n.
Proof.
  intros Hn Hm H.
  destruct (Z.log2_up_spec n ltac:(lia)) as [_ U].
  assert (P : 0 < Z.log2_up n) by (apply Z.log2_up_pos; lia).
  set (c := Z.log2_up n) in *.
  assert (E : 2 ^ c = 2 * 2 ^ (c - 1)).
  { replace c with (Z.succ (c - 1)) at 1 by lia. apply Z.pow_succ_r. lia. }
  assert (L : Z.log2_up m <= c - 1).
  { apply Z.log2_up_le_pow2; [lia|]. 
    assert (0 < 2 ^ (c - 1)) by (apply Z.pow_pos_nonneg; lia). lia. }
  lia.
Qed.

Lemma get_json_ok remote p body t :
  remote p = Some body -> _get_json remote p t = (Ok body, t ++ [p]).
Proof. intros H. unfold _get_json. rewrite H. reflexivity. Qed.

Lemma any_display_true_nonempty rows : any_display rows = Ok true -> rows <> [].
Proof. destruct rows; [discriminate | discriminate]. Qed.

Lemma has_submissions_not_empty page :
  _page_has_submissions page = Ok true -> dict_is_empty page = false.
Proof.
  unfold _page_has_submissions, rows_of, dict_is_empty. intros H.
  destruct (leaderboardRows page) as [l|].
  - destruct (pagination page); reflexivity.
  - discriminate.
Qed.

Lemma mid_bounds lo hi : lo < hi -> lo < (lo + hi + 1) / 2 <= hi.
Proof.
  intros H. assert (A := Z.mul_div_le (lo + hi + 1) 2).
  assert (B := Z.mul_succ_div_gt (lo + hi + 1) 2). lia.
Qed.

Section Locate.
Variable remote : oracle.
Variables k total : Z.
Hypothesis pages_with :
  forall p, 1 <= p <= k ->
    exists page, remote (Some p) = Some page /\ _page_has_submissions page = Ok true.
Hypothesis pages_without :
  forall p, k < p <= total ->
    exists page, remote (Some p) = Some page /\ _page_has_submissions page = Ok false.


End Locate.



Lemma any_display_error rows e :
  any_display rows = Err e -> e = TypeError \/ e = IndexError.
Proof.
  induction rows as [|r rows IH]; [discriminate|].
  cbn [any_display]. unfold first_score_strict.
  destruct (scores r) as [| |[|s l]]; cbn [rbind].
  - destruct (str_truthy _); [discriminate | exact IH].
  - intros [= <-]. left. reflexivity.
  - intros [= <-]. right. reflexivity.
  - destruct (str_truthy _); [discriminate | exact IH].
Qed.

(** The loop of the locator never exhausts the iterations the model grants
    it, whatever the remote answers. *)
Lemma find_loop_terminates remote fuel : forall lo hi last t,
  hi - lo <= Z.of_nat fuel ->
  fst (find_loop remote fuel lo hi last t) <> Err OutOfFuel.
Proof.
  induction fuel as [|f IH]; intros lo hi last t Hf; cbn [find_loop].
  - destruct (Z.ltb_spec lo hi); [lia | unfold ret; simpl; intro X; discriminate X].
  - destruct (Z.ltb_spec lo hi) as [L|L]; [|unfold ret; simpl; intro X; discriminate X].
    assert (M := mid_bounds lo hi L).
    unfold bind at 1, _get_json.
    destruct (remote (Some ((lo + hi + 1) / 2))) as [page|]; [|simpl; intro X; discriminate X].
    unfold bind, lift.
    destruct (_page_has_submissions page) as [[|]|e] eqn:S.
    + apply IH. lia.
    + apply IH. lia.
    + simpl. intros [= ->]. destruct (any_display_error _ _ S); discriminate.
Qed.

(* ================================================================== *)
(** ** Dicts and the merge by rank *)

Section DictFacts.
Context {K V : Type} (eqb : K -> K -> bool).
Hypothesis eqb_spec : forall a b, reflect (a = b) (eqb a b).

Lemma dict_get_set_same k v (d : list (K * V)) :
  dict_get eqb k (dict_set eqb k v d) = Some v.
Proof.
  induction d as [|[k' v'] d IH]; simpl.
  - destruct (eqb_spec k k); [reflexivity | congruence].
  - destruct (eqb_spec k k') as [E|N]; simpl.
    + destruct (eqb_spec k k); [reflexivity | congruence].
    + destruct (eqb_spec k k'); [congruence | exact IH].
Qed.

Lemma dict_get_set_other k k' v (d : list (K * V)) :
  k' <> k -> dict_get eqb k' (dict_set eqb k v d) = dict_get eqb k' d.
Proof.
  intros N. induction d as [|[k0 v0] d IH]; simpl.
  - destruct (eqb_spec k' k); [congruence | reflexivity].
  - destruct (eqb_spec k k0) as [E|N0]; simpl.
    + subst k0. destruct (eqb_spec k' k); [congruence | reflexivity].
    + destruct (eqb_spec k' k0); [reflexivity | exact IH].
Qed.

Lemma dict_get_In k v (d : list (K * V)) :
  dict_get eqb k d = Some v -> In (k, v) d.
Proof.
  induction d as [|[k' v'] d IH]; simpl; [discriminate|].
  destruct (eqb_spec k k') as [->|N].
  - intros [= ->]. left. reflexivity.
  - intros H. right. apply IH, H.
Qed.

Lemma dict_get_None k (d : list (K * V)) :
  dict_get eqb k d = None -> ~ In k (dict_keys d).
Proof.
  induction d as [|[k' v'] d IH]; simpl; [tauto|].
  destruct (eqb_spec k k') as [->|N]; [discriminate|].
  intros H [E|I]; [congruence | exact (IH H I)].
Qed.

Lemma dict_get_Some_key k v (d : list (K * V)) :
  dict_get eqb k d = Some v -> In k (dict_keys d).
Proof.
  intros H. apply dict_get_In in H. unfold dict_keys.
  apply (in_map fst) in H. exact H.
Qed.

Lemma dict_keys_set k v (d : list (K * V)) :
  dict_keys (dict_set eqb k v d) =
  match dict_get eqb k d with
  | Some _ => dict_keys d
  | None => dict_keys d ++ [k]
  end.
Proof.
  induction d as [|[k' v'] d IH]; simpl; [reflexivity|].
  destruct (eqb_spec k k') as [->|N]; simpl; [reflexivity|].
  rewrite IH. destruct (dict_get eqb k d); reflexivity.
Qed.

Lemma dict_set_NoDup k v (d : list (K * V)) :
  NoDup (dict_keys d) -> NoDup (dict_keys (dict_set eqb k v d)).
Proof.
  intros H. rewrite dict_keys_set.
  destruct (dict_get eqb k d) eqn:E; [exact H|].
  apply dict_get_None in E.
  apply NoDup_rev in H. rewrite <- (rev_involutive (dict_keys d ++ [k])).
  apply NoDup_rev. rewrite rev_app_distr. simpl. constructor; [|exact H].
  rewrite <- in_rev. exact E.
Qed.

Lemma dict_set_In k v k' v' (d : list (K * V)) :
  In (k', v') (dict_set eqb k v d) -> (k' = k /\ v' = v) \/ In (k', v') d.
Proof.
  induction d as [|[k0 v0] d IH]; simpl.
  - intros [[= <- <-]|[]]. left. auto.
  - destruct (eqb_spec k k0) as [->|N]; simpl.
    + intros [[= <- <-]|I]; [left; auto | right; right; exact I].
    + intros [E|I]; [right; left; exact E|].
      destruct (IH I) as [L|R]; [left; exact L | right; right; exact R].
Qed.

End DictFacts.

(** ** Merge *)

Lemma merge_points_snoc pts p :
  merge_points (pts ++ [p]) = merge_point (merge_points pts) p.
Proof. unfold merge_points. rewrite fold_left_app. reflexivity. Qed.

(** What [by_rank] holds for a rank after the loop. *)
Lemma merge_points_get pts : forall r,
  match dict_get Z.eqb r (merge_points pts) with
  | None => forall p, In p pts -> rank p <> r
  | Some q => In q pts /\ rank q = r /\ forall p, In p pts -> rank p = r -> reps p <= reps q
  end.
Proof.
  induction pts as [|p pts IH] using rev_ind; intros r.
  - simpl. intros p [].
  - rewrite merge_points_snoc. unfold merge_point.
    assert (Hr := IH (rank p)). specialize (IH r).
    destruct (dict_get Z.eqb (rank p) (merge_points pts)) as [old|] eqn:G.
    + destruct Hr as (Io & Ro & Mo).
      destruct (Z.ltb_spec (reps old) (reps p)) as [Lt|Ge].
      * destruct (Z.eq_dec r (rank p)) as [->|N].
        -- rewrite (dict_get_set_same Z.eqb Z.eqb_spec). split; [apply in_or_app; right; left; reflexivity|].
           split; [reflexivity|]. intros q Iq Rq. apply in_app_or in Iq.
           destruct Iq as [Iq|[<-|[]]]; [|lia]. specialize (Mo q Iq Rq). lia.
        -- rewrite (dict_get_set_other Z.eqb Z.eqb_spec) by exact N.
           destruct (dict_get Z.eqb r (merge_points pts)) as [q|].
           ++ destruct IH as (Iq & Rq & Mq). split; [apply in_or_app; left; exact Iq|].
              split; [exact Rq|]. intros x Ix Rx. apply in_app_or in Ix.
              destruct Ix as [Ix|[<-|[]]]; [apply Mq; assumption | congruence].
           ++ intros x Ix. apply in_app_or in Ix.
              destruct Ix as [Ix|[<-|[]]]; [apply IH; assumption | congruence].
      * destruct (dict_get Z.eqb r (merge_points pts)) as [q|] eqn:Gr.
        -- destruct IH as (Iq & Rq & Mq). split; [apply in_or_app; left; exact Iq|].
           split; [exact Rq|]. intros x Ix Rx. apply in_app_or in Ix.
           destruct Ix as [Ix|[<-|[]]]; [apply Mq; assumption|].
           assert (q = old) by congruence. subst q. lia.
        -- intros x Ix. apply in_app_or in Ix.
           destruct Ix as [Ix|[<-|[]]]; [apply IH; assumption|]. congruence.
    + destruct (Z.eq_dec r (rank p)) as [->|N].
      * rewrite (dict_get_set_same Z.eqb Z.eqb_spec). split; [apply in_or_app; right; left; reflexivity|].
        split; [reflexivity|]. intros q Iq Rq. apply in_app_or in Iq.
        destruct Iq as [Iq|[<-|[]]]; [|lia]. exfalso. exact (Hr q Iq Rq).
      * rewrite (dict_get_set_other Z.eqb Z.eqb_spec) by exact N.
        destruct (dict_get Z.eqb r (merge_points pts)) as [q|].
        -- destruct IH as (Iq & Rq & Mq). split; [apply in_or_app; left; exact Iq|].
           split; [exact Rq|]. intros x Ix Rx. apply in_app_or in Ix.
           destruct Ix as [Ix|[<-|[]]]; [apply Mq; assumption | congruence].
        -- intros x Ix. apply in_app_or in Ix.
           destruct Ix as [Ix|[<-|[]]]; [apply IH; assumption | congruence].
Qed.

Lemma merge_points_keys pts :
  NoDup (dict_keys (merge_points pts))
  /\ forall k q, In (k, q) (merge_points pts) -> rank q = k /\ In q pts.
Proof.
  induction pts as [|p pts [ND IH]] using rev_ind.
  - split; [constructor | intros k q []].
  - rewrite merge_points_snoc. unfold merge_point.
    assert (Step : NoDup (dict_keys (dict_set Z.eqb (rank p) p (merge_points pts)))
                   /\ forall k q, In (k, q) (dict_set Z.eqb (rank p) p (merge_points pts)) ->
                                  rank q = k /\ In q (pts ++ [p])).
    { split; [apply (dict_set_NoDup Z.eqb Z.eqb_spec), ND|].
      intros k q I. apply (dict_set_In Z.eqb Z.eqb_spec) in I.
      destruct I as [[-> ->]|I].
      - split; [reflexivity | apply in_or_app; right; left; reflexivity].
      - destruct (IH k q I). split; [assumption | apply in_or_app; left; assumption]. }
    assert (Keep : NoDup (dict_keys (merge_points pts))
                   /\ forall k q, In (k, q) (merge_points pts) -> rank q = k /\ In q (pts ++ [p])).
    { split; [exact ND|]. intros k q I. destruct (IH k q I).
      split; [assumption | apply in_or_app; left; assumption]. }
    destruct (dict_get Z.eqb (rank p) (merge_points pts)) as [old|]; [|exact Step].
    destruct (reps old <? reps p); [exact Step | exact Keep].
Qed.

(** C5.  After the merge every rank is a key of [by_rank] once, and the
    point kept for a rank is one of the emitted points of that rank with the
    most reps: no emitted point of the same rank has more.  Of two points of
    one rank with 5 and 9 reps the 9 is kept, in either order. *)
Theorem merge_keeps_larger_reps (pts : list point) :
  NoDup (dict_keys (merge_points pts))
  /\ (forall p, In p pts ->
        exists q, dict_get Z.eqb (rank p) (merge_points pts) = Some q
                  /\ In q pts /\ rank q = rank p /\ reps p <= reps q)
  /\ (forall r pa pb,
        dict_values (merge_points [mkPoint r 5 pa; mkPoint r 9 pb]) = [mkPoint r 9 pb]
        /\ dict_values (merge_points [mkPoint r 9 pb; mkPoint r 5 pa]) = [mkPoint r 9 pb]).
Proof.
  split; [apply merge_points_keys|]. split.
  - intros p I. assert (G := merge_points_get pts (rank p)).
    destruct (dict_get Z.eqb (rank p) (merge_points pts)) as [q|].
    + destruct G as (Iq & Rq & Mq). exists q. repeat split; auto.
    + exfalso. exact (G p I eq_refl).
  - intros r pa pb. unfold merge_points, merge_point. simpl.
    rewrite !Z.eqb_refl. simpl. rewrite ?Z.eqb_refl. split; reflexivity.
Qed.

(** C9, as the code has it.  A point [p] written after the points [pts]
    replaces what [by_rank] holds for its rank exactly when every earlier
    point of that rank has strictly fewer reps; otherwise [by_rank] is left
    as it was, and the earlier point stays. *)
Theorem merge_later_duplicate (pts : list point) (p : point) :
  merge_points (pts ++ [p]) =
  if forallb (same_rank_smaller p) pts
  then dict_set Z.eqb (rank p) p (merge_points pts)
  else merge_points pts.
Proof.
  rewrite merge_points_snoc. unfold merge_point.
  assert (G := merge_points_get pts (rank p)).
  destruct (dict_get Z.eqb (rank p) (merge_points pts)) as [old|].
  - destruct G as (Io & Ro & Mo).
    destruct (Z.ltb_spec (reps old) (reps p)) as [Lt|Ge].
    + replace (forallb (same_rank_smaller p) pts) with true; [reflexivity|].
      symmetry. apply forallb_forall. intros q Iq. unfold same_rank_smaller.
      destruct (Z.eqb_spec (rank q) (rank p)) as [E|N]; [|reflexivity].
      simpl. apply Z.ltb_lt. specialize (Mo q Iq E). lia.
    + replace (forallb (same_rank_smaller p) pts) with false; [reflexivity|].
      symmetry. apply not_true_is_false. intros F.
      rewrite forallb_forall in F. specialize (F old Io). unfold same_rank_smaller in F.
      rewrite Ro, Z.eqb_refl in F. simpl in F. apply Z.ltb_lt in F. lia.
  - replace (forallb (same_rank_smaller p) pts) with true; [reflexivity|].
    symmetry. apply forallb_forall. intros q Iq. unfold same_rank_smaller.
    destruct (Z.eqb_spec (rank q) (rank p)) as [E|N]; [|reflexivity].
    exfalso. exact (G q Iq E).
Qed.

(** C9 as stated fails on the code: of two points of rank 1 written in the
    order 9 reps, 5 reps, the first is kept, not the last. *)
Lemma merge_first_writer_kept :
  dict_values (merge_points [mkPoint 1 9 (Fin 100); mkPoint 1 5 (Fin 100)])
  = [mkPoint 1 9 (Fin 100)]
  /\ reps (mkPoint 1 5 (Fin 100)) = 5.
Proof. split; reflexivity. Qed.

(* ================================================================== *)
(** ** The curve: sorting, counting, caching *)

(** ** Sorting *)

Section SortFacts.
Context {A : Type} (lt : A -> A -> bool) (le : A -> A -> Prop) (ok : A -> Prop).
Hypothesis le_trans : forall a b c, le a b -> le b c -> le a c.
Hypothesis lt_le : forall a b, lt a b = true -> le a b.
Hypothesis not_lt_le : forall a b, ok a -> ok b -> lt a b = false -> le b a.

Lemma insert_sorted_perm x l : Permutation (x :: l) (insert_sorted lt x l).
Proof.
  induction l as [|y r IH]; simpl; [reflexivity|].
  destruct (lt y x); [|reflexivity].
  rewrite perm_swap. apply perm_skip, IH.
Qed.

Lemma py_sort_perm l : Permutation l (py_sort lt l).
Proof.
  induction l as [|x l IH]; simpl; [reflexivity|].
  rewrite <- insert_sorted_perm. apply perm_skip, IH.
Qed.

Lemma insert_sorted_sorted x l :
  ok x -> Forall ok l -> StronglySorted le l -> StronglySorted le (insert_sorted lt x l).
Proof.
  intros Hx Hl S. induction S as [|y r S IH F]; simpl.
  - constructor; constructor.
  - inversion Hl as [|? ? Hy Hr]; subst.
    destruct (lt y x) eqn:E.
    + constructor; [apply IH, Hr|].
      apply (Permutation_Forall (insert_sorted_perm x r)).
      constructor; [apply lt_le, E | exact F].
    + assert (L : le x y) by (apply not_lt_le; assumption).
      constructor; [constructor; assumption|].
      constructor; [exact L|].
      apply Forall_impl with (P := le y); [|exact F].
      intros z Hz. apply (le_trans _ _ _ L Hz).
Qed.

Lemma py_sort_sorted l : Forall ok l -> StronglySorted le (py_sort lt l).
Proof.
  induction l as [|x l IH]; intros H; simpl; [constructor|].
  inversion H; subst. apply insert_sorted_sorted; [assumption | | apply IH; assumption].
  apply (Permutation_Forall (py_sort_perm l)). assumption.
Qed.

End SortFacts.

Lemma sort_by_percentile_perm pts : Permutation pts (sort_by_percentile pts).
Proof. apply py_sort_perm. Qed.

Lemma sort_by_percentile_sorted pts :
  Forall point_ok pts -> StronglySorted percentile_le (sort_by_percentile pts).
Proof.
  apply (py_sort_sorted _ percentile_le point_ok); unfold percentile_le, point_ok.
  - intros a b c. apply leb_trans.
  - intros a b. apply ltb_leb.
  - intros a b Ha Hb. apply ltb_false_leb; assumption.
Qed.

(** ** The merged, sorted points *)

Lemma merged_values_ranks pts :
  map rank (dict_values (merge_points pts)) = dict_keys (merge_points pts).
Proof.
  destruct (merge_points_keys pts) as [_ H].
  revert H. generalize (merge_points pts). intros d H.
  induction d as [|[k q] d IH]; [reflexivity|]. simpl. f_equal.
  - apply (H k q). left. reflexivity.
  - apply IH. intros k' q' I. apply H. right. exact I.
Qed.

Lemma curve_points_ok all_points :
  Forall point_ok all_points ->
  let pts := sort_by_percentile (dict_values (merge_points all_points)) in
  NoDup (map rank pts) /\ StronglySorted percentile_le pts /\ Forall point_ok pts.
Proof.
  intros H pts.
  assert (V : Forall point_ok (dict_values (merge_points all_points))).
  { apply Forall_forall. intros q I. unfold dict_values in I. apply in_map_iff in I.
    destruct I as ([k q'] & E & I). simpl in E. subst q'.
    destruct (merge_points_keys all_points) as [_ K]. destruct (K k q I) as [_ Iq].
    rewrite Forall_forall in H. apply H, Iq. }
  split; [|split].
  - apply (Permutation_NoDup (l := map rank (dict_values (merge_points all_points)))).
    + apply Permutation_map, sort_by_percentile_perm.
    + rewrite merged_values_ranks. apply merge_points_keys.
  - apply sort_by_percentile_sorted, V.
  - apply (Permutation_Forall (sort_by_percentile_perm _)), V.
Qed.

(** ** Reading a computation backwards *)

Lemma bind_ok_inv {A B} (m : M A) (k : A -> M B) t b t' :
  bind m k t = (Ok b, t') -> exists a t1, m t = (Ok a, t1) /\ k a t1 = (Ok b, t').
Proof.
  unfold bind. destruct (m t) as [[a|e] t1]; [|discriminate].
  intros H. exists a, t1. split; [reflexivity | exact H].
Qed.

Lemma lift_ok_inv {A} (r : result A) t a t' : lift r t = (Ok a, t') -> r = Ok a /\ t' = t.
Proof. unfold lift. intros [= -> ->]. split; reflexivity. Qed.

Lemma ret_ok_inv {A} (x : A) t a t' : ret x t = (Ok a, t') -> a = x /\ t' = t.
Proof. unfold ret. intros [= -> ->]. split; reflexivity. Qed.

Lemma rbind_ok_inv {A B} (r : result A) (k : A -> result B) b :
  rbind r k = Ok b -> exists a, r = Ok a /\ k a = Ok b.
Proof. destruct r as [a|e]; [|discriminate]. intros H. exists a. split; [reflexivity | exact H]. Qed.

(** ** Rows to points and counts *)

Lemma extract_row_inv tc ts pts sub tot r pts' sub' tot' :
  extract_row tc ts (pts, sub, tot) r = Ok (pts', sub', tot') ->
  tot' = tot + 1 /\ sub <= sub' <= sub + 1
  /\ exists new, pts' = pts ++ new /\ Forall point_ok new.
Proof.
  unfold extract_row.
  assert (Keep : forall s, sub <= s <= sub + 1 ->
            Ok (pts, s, tot + 1) = Ok (pts', sub', tot') ->
            tot' = tot + 1 /\ sub <= sub' <= sub + 1
            /\ exists new, pts' = pts ++ new /\ Forall point_ok new).
  { intros s Hs [= <- <- <-]. repeat split; try lia. exists []. rewrite app_nil_r. split; [reflexivity | constructor]. }
  destruct (int_or_0 (overallRank r)) as [rk|[]]; try discriminate; [|apply Keep; lia].
  intros H. apply rbind_ok_inv in H. destruct H as (parsed & _ & H).
  set (s := match parsed with
            | Some _ => if String.eqb (str_or_empty (valid (first_score_lenient r))) "1" then sub + 1 else sub
            | None => sub end) in *.
  assert (Hs : sub <= s <= sub + 1).
  { unfold s. destruct parsed; [destruct (String.eqb _ _)|]; lia. }
  destruct parsed as [n|]; [|apply (Keep s Hs H)].
  destruct ((rk <=? 0) || _); [apply (Keep s Hs H)|].
  apply rbind_ok_inv in H. destruct H as (pc & P & [= <- <- <-]).
  repeat split; try lia. exists [mkPoint rk n pc]. split; [reflexivity|].
  constructor; [|constructor]. unfold point_ok. simpl. apply (percentile_not_nan _ _ _ P).
Qed.

Lemma extract_rows_inv tc ts rows : forall pts sub tot pts' sub' tot',
  extract_rows tc ts rows (pts, sub, tot) = Ok (pts', sub', tot') ->
  tot' = tot + Z.of_nat (List.length rows)
  /\ sub <= sub' <= sub + Z.of_nat (List.length rows)
  /\ exists new, pts' = pts ++ new /\ Forall point_ok new.
Proof.
  induction rows as [|r rows IH]; intros pts sub tot pts' sub' tot' H.
  - simpl in H. inversion H; subst. simpl. repeat split; try lia.
    exists []. rewrite app_nil_r. split; [reflexivity | constructor].
  - cbn [extract_rows] in H. apply rbind_ok_inv in H.
    destruct H as ([[p1 s1] t1] & R & H).
    apply extract_row_inv in R. destruct R as (-> & Hs & new1 & -> & F1).
    apply IH in H. destruct H as (-> & Hs' & new2 & -> & F2).
    cbn [List.length]. rewrite Nat2Z.inj_succ. repeat split; try lia.
    exists (new1 ++ new2). rewrite app_assoc. split; [reflexivity|].
    apply Forall_app. split; assumption.
Qed.

Lemma extract_points_inv page fb ts pts sub tot :
  _extract_points_from_page page fb ts = Ok (pts, sub, tot) ->
  Forall point_ok pts /\ 0 <= sub <= tot /\ tot = Z.of_nat (List.length (rows_of page)).
Proof.
  unfold _extract_points_from_page. intros H.
  apply rbind_ok_inv in H. destruct H as (tc & _ & H).
  apply extract_rows_inv in H. destruct H as (-> & Hs & new & -> & F).
  simpl. repeat split; try lia. exact F.
Qed.

Lemma sample_loop_inv remote fst_page lsp lsj tc ts pages : forall acc t acc' t',
  sample_loop remote fst_page lsp lsj tc ts pages acc t = (Ok acc', t') ->
  acc_ok acc -> acc_ok acc'.
Proof.
  induction pages as [|p pages IH]; intros [[pts sub] tot] t acc' t' H A.
  - cbn [sample_loop] in H. apply ret_ok_inv in H. destruct H as [-> _]. exact A.
  - cbn [sample_loop] in H.
    apply bind_ok_inv in H. destruct H as (page & t1 & _ & H).
    apply bind_ok_inv in H. destruct H as ([[pts1 sub1] tot1] & t2 & E & H).
    apply lift_ok_inv in E. destruct E as [E ->].
    apply extract_points_inv in E. destruct E as (F1 & S1 & _).
    apply IH in H; [exact H|].
    destruct A as [F S]. split; [apply Forall_app; split; assumption | lia].
Qed.

(** ** The submission rate *)

Lemma truediv_fraction sub tot :
  0 <= sub <= tot -> 0 < tot ->
  exists q, truediv sub tot = Ok (Fin q) /\ (0 <= q <= 1)%Q.
Proof.
  intros Hs Ht.
  assert (Qt : (0 < inject_Z tot)%Q) by (unfold Qlt; simpl; lia).
  set (x := (inject_Z sub / inject_Z tot)%Q).
  assert (X0 : (0 <= x)%Q).
  { unfold x. apply Qle_shift_div_l; [exact Qt|]. rewrite Qmult_0_l. unfold Qle; simpl; lia. }
  assert (X1 : (x <= 1)%Q).
  { unfold x. apply Qle_shift_div_r; [exact Qt|]. rewrite Qmult_1_l. rewrite <- Zle_Qle. lia. }
  assert (R0 := rnd_ge_0 x X0). assert (R1 := rnd_le_1 x X1).
  assert (G := huge_gt_100).
  exists (rnd x). split; [|split; assumption].
  unfold truediv. destruct (Z.eqb_spec tot 0); [lia|]. fold x.
  rewrite round_fin by lra. reflexivity.
Qed.

Lemma submission_rate_inv sub tot rate :
  0 <= sub <= tot -> submission_rate sub tot = Ok rate ->
  (tot = 0 -> rate = None)
  /\ (0 < tot -> exists q, rate = Some (Fin q) /\ truediv sub tot = Ok (Fin q) /\ (0 <= q <= 1)%Q).
Proof.
  intros Hs. unfold submission_rate. destruct (Z.eqb_spec tot 0) as [E|N].
  - intros [= <-]. split; [reflexivity | lia].
  - intros H. split; [lia|]. intros Ht.
    destruct (truediv_fraction sub tot Hs Ht) as (q & T & Q).
    rewrite T in H. cbn [rbind] in H. inversion H. exists q. repeat split; auto; apply Q.
Qed.

(** ** The boundary is a page number *)

Lemma find_loop_lower remote fuel : forall lo hi last t l j t',
  find_loop remote fuel lo hi last t = (Ok (l, j), t') -> lo <= l.
Proof.
  induction fuel as [|f IH]; intros lo hi last t l j t' H; cbn [find_loop] in H.
  - destruct (lo <? hi); [discriminate|]. apply ret_ok_inv in H. destruct H as [[= -> ->] _]. lia.
  - destruct (Z.ltb_spec lo hi) as [L|L].
    + assert (M := mid_bounds lo hi L).
      apply bind_ok_inv in H. destruct H as (page & t1 & _ & H).
      apply bind_ok_inv in H. destruct H as (has & t2 & _ & H).
      destruct has; apply IH in H; lia.
    + apply ret_ok_inv in H. destruct H as [[= -> ->] _]. lia.
Qed.

Lemma find_last_submission_page_lower remote total l j t t' :
  _find_last_submission_page remote total t = (Ok (l, j), t') -> 1 <= l.
Proof.
  unfold _find_last_submission_page. intros H.
  apply bind_ok_inv in H. destruct H as ([lo last] & t1 & F & H).
  apply find_loop_lower in F.
  destruct (dict_is_empty last).
  - apply bind_ok_inv in H. destruct H as (page & t2 & _ & H).
    apply ret_ok_inv in H. destruct H as [[= -> ->] _]. exact F.
  - apply ret_ok_inv in H. destruct H as [[= -> ->] _]. exact F.
Qed.

Lemma locate_boundary_lower remote loc t t' :
  locate_boundary remote t = (Ok loc, t') -> 1 <= last_sub_page loc.
Proof.
  unfold locate_boundary. intros H.
  apply bind_ok_inv in H. destruct H as (fst_page & t1 & _ & H).
  apply bind_ok_inv in H. destruct H as (tp & t2 & _ & H).
  apply bind_ok_inv in H. destruct H as (tc & t3 & _ & H).
  apply bind_ok_inv in H. destruct H as ([l j] & t4 & F & H).
  apply bind_ok_inv in H. destruct H as (ts & t5 & _ & H).
  apply ret_ok_inv in H. destruct H as [-> _]. simpl.
  apply (find_last_submission_page_lower _ _ _ _ _ _ F).
Qed.

Lemma make_page_samples_zero_buckets total :
  1 <= total -> _make_page_samples total 0 = Err ZeroDivisionError.
Proof.
  intros H. unfold _make_page_samples. destruct (Z.leb_spec total 0); [lia | reflexivity].
Qed.

(** ** A computed curve *)

Lemma compute_curve_inv remote bp b t pl t' :
  compute_curve remote bp b t = (Ok pl, t') -> curve_ok pl /\ b <> 0.
Proof.
  unfold compute_curve. intros H.
  apply bind_ok_inv in H. destruct H as (loc & t1 & L & H).
  apply locate_boundary_lower in L.
  apply bind_ok_inv in H. destruct H as (sp & t2 & S & H).
  apply lift_ok_inv in S. destruct S as [S ->].
  apply bind_ok_inv in H. destruct H as ([[all sub] tot] & t3 & A & H).
  apply sample_loop_inv in A; [|split; [constructor | lia]]. destruct A as [F C].
  apply bind_ok_inv in H. destruct H as (rate & t4 & R & H).
  apply lift_ok_inv in R. destruct R as [R ->].
  apply ret_ok_inv in H. destruct H as [-> _].
  split.
  - destruct (curve_points_ok all F) as (N & So & Fo).
    unfold curve_ok. cbn [points p_meta]. repeat split; try assumption; cbn;
      try apply (submission_rate_inv sub tot rate C R); lia.
  - intros ->. rewrite (make_page_samples_zero_buckets _ L) in S. discriminate.
Qed.

(** ** The cache key starts with the bucket count *)

Lemma digit_char_nonzero d : 1 <= d <= 9 -> PyStr.digit_char d <> "0"%char.
Proof.
  intros H.
  assert (C : d = 1 \/ d = 2 \/ d = 3 \/ d = 4 \/ d = 5 \/ d = 6 \/ d = 7 \/ d = 8 \/ d = 9) by lia.
  destruct C as [ -> | [ -> | [ -> | [ -> | [ -> | [ -> | [ -> | [ -> | -> ] ] ] ] ] ] ] ]; discriminate.
Qed.

Lemma pos_digits_head fuel : forall n acc,
  0 < n -> n < Z.of_nat fuel ->
  exists c rest, PyStr.pos_digits fuel n acc = c :: rest /\ c <> "0"%char.
Proof.
  induction fuel as [|f IH]; intros n acc Hn Hf; [lia|].
  cbn [PyStr.pos_digits]. destruct (Z.eqb_spec (n / 10) 0) as [E|N].
  - exists (PyStr.digit_char (n mod 10)), acc. split; [reflexivity|].
    apply digit_char_nonzero.
    assert (D := Z.div_mod n 10 ltac:(lia)). assert (B := Z.mod_pos_bound n 10 ltac:(lia)). lia.
  - assert (P : 0 <= n / 10) by (apply Z.div_pos; lia).
    assert (L : n / 10 < n) by (apply Z.div_lt; lia).
    apply IH; lia.
Qed.

Lemma chars_of_int_head b :
  b <> 0 -> exists c rest, PyStr.chars_of_int b = c :: rest /\ c <> "0"%char.
Proof.
  intros H. unfold PyStr.chars_of_int. destruct (Z.ltb_spec b 0) as [L|L].
  - exists "-"%char. eexists. split; [reflexivity | discriminate].
  - apply pos_digits_head; lia.
Qed.

Lemma cache_key_zero_buckets bp bp' b :
  b <> 0 -> _cache_key bp b <> _cache_key bp' 0.
Proof.
  intros H E. unfold _cache_key, PyStr.string_of_int in E.
  destruct (chars_of_int_head b H) as (c & rest & Hc & N).
  rewrite Hc in E. apply (f_equal (String.get 8)) in E. simpl in E.
  apply N. injection E as ->. reflexivity.
Qed.

(** ** What the cache holds *)

Lemma dict_set_Forall {K V} (eqb : K -> K -> bool)
  (eqb_spec : forall a b, reflect (a = b) (eqb a b))
  (P : K * V -> Prop) k v d :
  Forall P d -> P (k, v) -> Forall P (dict_set eqb k v d).
Proof.
  intros F H. apply Forall_forall. intros [k' v'] I.
  apply (dict_set_In eqb eqb_spec) in I. destruct I as [[-> ->]|I]; [exact H|].
  rewrite Forall_forall in F. apply F, I.
Qed.

Lemma cache_get_ok c ck e :
  cache_inv c -> dict_get String.eqb ck c = Some e -> entry_ok (ck, e).
Proof.
  intros F G. apply (dict_get_In String.eqb String.eqb_spec) in G.
  unfold cache_inv in F. rewrite Forall_forall in F. apply F, G.
Qed.

Lemma api_curve_inv remote now req c :
  cache_inv c ->
  cache_inv (snd (api_curve remote now req c))
  /\ forall pl, fst (fst (api_curve remote now req c)) = Ok pl -> curve_ok pl.
Proof.
  intros I. unfold api_curve.
  destruct (PyStr.int_of_string _) as [b|e]; [|split; [exact I | discriminate]].
  set (bp := base_params_of req). set (ck := _cache_key bp b).
  assert (Fresh :
    let fresh := match compute_curve (remote bp) bp b [] with
                 | (Ok pl, t) => (Ok pl, t, dict_set String.eqb ck (mkEntry now pl) c)
                 | (Err e, t) => (Err e, t, c)
                 end in
    cache_inv (snd fresh) /\ forall pl, fst (fst fresh) = Ok pl -> curve_ok pl).
  { destruct (compute_curve (remote bp) bp b []) as [[pl|e] t] eqn:E; cbn.
    - destruct (compute_curve_inv _ _ _ _ _ _ E) as [C N]. split.
      + apply (dict_set_Forall String.eqb String.eqb_spec); [exact I|].
        split; [exact C|]. exists bp, b. split; [reflexivity | exact N].
      + intros pl' [= <-]. exact C.
    - split; [exact I | discriminate]. }
  destruct (dict_get String.eqb ck c) as [cached|] eqn:G; [|exact Fresh].
  destruct (ltb _ _); [|exact Fresh].
  cbn. split; [exact I|]. intros pl [= <-].
  apply (cache_get_ok c ck cached I G).
Qed.

Lemma reachable_inv c : reachable c -> cache_inv c.
Proof.
  induction 1 as [|remote now req c R IH]; [constructor|].
  apply api_curve_inv, IH.
Qed.

Lemma api_curve_curve_ok remote now req c pl t c' :
  reachable c -> api_curve remote now req c = (Ok pl, t, c') -> curve_ok pl.
Proof.
  intros R E. apply reachable_inv in R.
  destruct (api_curve_inv remote now req c R) as [_ H]. apply H. rewrite E. reflexivity.
Qed.

(** C6.  Whatever payload [api_curve] returns, computed or served from the
    cache, its points have pairwise distinct ranks and stand in
    non-decreasing order of percentile. *)
Theorem curve_ranks_distinct_and_sorted remote now req c pl t c' :
  reachable c -> api_curve remote now req c = (Ok pl, t, c') ->
  NoDup (map rank (points pl)) /\ StronglySorted percentile_le (points pl).
Proof.
  intros R E. destruct (api_curve_curve_ok _ _ _ _ _ _ _ R E) as (N & S & _).
  split; assumption.
Qed.

(** ** [buckets=0] *)

Lemma cache_no_zero_buckets c bp :
  cache_inv c -> dict_get String.eqb (_cache_key bp 0) c = None.
Proof.
  intros I. destruct (dict_get String.eqb (_cache_key bp 0) c) as [e|] eqn:G; [|reflexivity].
  destruct (cache_get_ok _ _ _ I G) as [_ (bp' & b & K & N)]. simpl in K.
  exfalso. apply (cache_key_zero_buckets bp' bp b N). symmetry. exact K.
Qed.

Lemma bind_ok {A B} (m : M A) (k : A -> M B) t a t1 :
  m t = (Ok a, t1) -> bind m k t = k a t1.
Proof. intros H. unfold bind. rewrite H. reflexivity. Qed.

Lemma bind_err {A B} (m : M A) (k : A -> M B) t e t1 :
  m t = (Err e, t1) -> bind m k t = (Err e, t1).
Proof. intros H. unfold bind. rewrite H. reflexivity. Qed.

Lemma compute_curve_zero_buckets remote bp :
  (forall loc t, locate_boundary remote [] = (Ok loc, t) ->
                 compute_curve remote bp 0 [] = (Err ZeroDivisionError, t))
  /\ exists e t, compute_curve remote bp 0 [] = (Err e, t).
Proof.
  assert (A : forall loc t, locate_boundary remote [] = (Ok loc, t) ->
                 compute_curve remote bp 0 [] = (Err ZeroDivisionError, t)).
  { intros loc t L. unfold compute_curve. rewrite (bind_ok _ _ _ _ _ L).
    apply bind_err. unfold lift.
    rewrite (make_page_samples_zero_buckets _ (locate_boundary_lower _ _ _ _ L)). reflexivity. }
  split; [exact A|].
  destruct (locate_boundary remote []) as [[loc|e] t] eqn:L.
  - exists ZeroDivisionError, t. apply (A loc t eq_refl).
  - exists e, t. unfold compute_curve. apply bind_err, L.
Qed.

(** C10.  Nothing guards [buckets]: a request with [buckets=0] never gets
    a payload.  The sampler divides by zero for every boundary page of 1 or
    more; the boundary page the locator returns is 1 or more; so once the
    boundary is located the request fails with [ZeroDivisionError] (and it
    fails earlier when a fetch or a conversion before that fails).  The
    cache is left as it was, and holds no entry for such a request. *)
Theorem zero_buckets_fails remote now req c :
  reachable c -> PyStr.int_of_string (arg_or (arg_buckets req) "20") = Ok 0 ->
  (forall boundary_page, 1 <= boundary_page ->
     _make_page_samples boundary_page 0 = Err ZeroDivisionError)
  /\ (exists e t, api_curve remote now req c = (Err e, t, c))
  /\ (forall loc t, locate_boundary (remote (base_params_of req)) [] = (Ok loc, t) ->
        1 <= last_sub_page loc
        /\ api_curve remote now req c = (Err ZeroDivisionError, t, c)).
Proof.
  intros R B. apply reachable_inv in R.
  assert (E : api_curve remote now req c =
              match compute_curve (remote (base_params_of req)) (base_params_of req) 0 [] with
              | (Ok pl, t) => (Ok pl, t, dict_set String.eqb (_cache_key (base_params_of req) 0) (mkEntry now pl) c)
              | (Err e, t) => (Err e, t, c)
              end).
  { unfold api_curve. rewrite B. rewrite (cache_no_zero_buckets c _ R). reflexivity. }
  destruct (compute_curve_zero_buckets (remote (base_params_of req)) (base_params_of req)) as [Z (e & t & F)].
  split; [apply make_page_samples_zero_buckets|]. split.
  - exists e, t. rewrite E, F. reflexivity.
  - intros loc t' L. split; [apply (locate_boundary_lower _ _ _ _ L)|].
    rewrite E, (Z loc t' L). reflexivity.
Qed.

(** ** Missing and malformed pagination fields *)

Lemma rnd_ge_m1 x : (-1 <= x)%Q -> (-1 <= rnd x)%Q.
Proof.
  intros H. apply Qle_trans with (rnd (-1)); [|apply rnd_le, H].
  assert (E : (rnd (-1) == -1)%Q) by reflexivity. rewrite E. lra.
Qed.

Lemma unit_fraction_bounds b : b <> 0 -> (-1 <= inject_Z 1 / inject_Z b <= 1)%Q.
Proof.
  intros Hb.
  assert (Pos : forall p, 0 < p -> (-1 <= inject_Z 1 / inject_Z p <= 1)%Q).
  { intros p Hp. assert (Qp : (0 < inject_Z p)%Q) by (unfold Qlt; simpl; lia).
    assert (Q1 : (1 <= inject_Z p)%Q) by (unfold Qle; simpl; lia).
    split.
    - apply Qle_shift_div_l; [exact Qp|]. change (inject_Z 1) with 1%Q. lra.
    - apply Qle_shift_div_r; [exact Qp|]. change (inject_Z 1) with 1%Q. lra. }
  destruct (Z.lt_trichotomy b 0) as [L|[E|L]]; [|lia|apply Pos, L].
  assert (N : (inject_Z b < 0)%Q) by (unfold Qlt; simpl; lia).
  assert (E : (inject_Z 1 / inject_Z b == - (inject_Z 1 / inject_Z (- b)))%Q).
  { rewrite inject_Z_opp. field. lra. }
  destruct (Pos (- b) ltac:(lia)) as [A B]. rewrite E. split; lra.
Qed.

Lemma make_page_samples_one_page b : b <> 0 -> _make_page_samples 1 b = Ok [1].
Proof.
  intros Hb. unfold _make_page_samples. cbn [Z.leb Z.compare].
  destruct (unit_fraction_bounds b Hb) as [X0 X1].
  set (x := (inject_Z 1 / inject_Z b)%Q) in *.
  assert (R0 := rnd_ge_m1 x X0). assert (R1 := rnd_le_1 x X1).
  assert (G := huge_gt_100).
  unfold truediv. destruct (Z.eqb_spec b 0); [lia|]. fold x.
  rewrite round_fin by lra. cbn [rbind ceil].
  assert (C : Qceiling (rnd x) <= 1) by (apply Qceiling_le_Z; exact R1).
  replace (Z.max 1 (Qceiling (rnd x))) with 1 by lia. reflexivity.
Qed.

Lemma submission_rate_total sub tot :
  0 <= sub <= tot -> exists r, submission_rate sub tot = Ok r.
Proof.
  intros H. unfold submission_rate. destruct (Z.eqb_spec tot 0); [eexists; reflexivity|].
  destruct (truediv_fraction sub tot H ltac:(lia)) as (q & T & _). rewrite T.
  eexists. reflexivity.
Qed.

Lemma locate_boundary_fields remote loc t page0 :
  remote None = Some page0 ->
  locate_boundary remote [] = (Ok loc, t) ->
  first loc = page0
  /\ int_or_0 (totalPages (pagination_of page0)) = Ok (total_pages loc)
  /\ int_or_0 (totalCompetitors (pagination_of page0)) = Ok (total_competitors loc).
Proof.
  intros R H. unfold locate_boundary in H.
  rewrite (bind_ok _ _ _ _ _ (get_json_ok _ _ _ _ R)) in H.
  apply bind_ok_inv in H. destruct H as (tp & t2 & E1 & H).
  apply lift_ok_inv in E1. destruct E1 as [E1 ->].
  apply bind_ok_inv in H. destruct H as (tc & t3 & E2 & H).
  apply lift_ok_inv in E2. destruct E2 as [E2 ->].
  apply bind_ok_inv in H. destruct H as ([l j] & t4 & F & H).
  apply bind_ok_inv in H. destruct H as (ts & t5 & _ & H).
  apply ret_ok_inv in H. destruct H as [-> _]. simpl. auto.
Qed.

Lemma find_last_submission_page_no_pages remote page1 t :
  remote (Some 1) = Some page1 ->
  _find_last_submission_page remote 0 t = (Ok (1, page1), t ++ [Some 1]).
Proof.
  intros R1. unfold _find_last_submission_page.
  cbn [Z.to_nat find_loop Z.ltb Z.compare].
  unfold bind, ret, _get_json. cbn [dict_is_empty empty_json pagination leaderboardRows].
  rewrite R1. reflexivity.
Qed.

Lemma locate_boundary_no_pages remote page0 tc page1 ts :
  remote None = Some page0 ->
  int_or_0 (totalPages (pagination_of page0)) = Ok 0 ->
  int_or_0 (totalCompetitors (pagination_of page0)) = Ok tc ->
  remote (Some 1) = Some page1 ->
  _max_submitted_rank page1 = Ok ts ->
  locate_boundary remote [] = (Ok (mkLocated page0 0 tc 1 page1 ts), [None; Some 1]).
Proof.
  intros R0 TP TC R1 MR. unfold locate_boundary.
  rewrite (bind_ok _ _ _ _ _ (get_json_ok _ _ _ _ R0)).
  rewrite TP, TC, !(bind_ok (lift (Ok _)) _ _ _ _ eq_refl).
  rewrite (bind_ok _ _ _ _ _ (find_last_submission_page_no_pages _ _ _ R1)).
  rewrite MR, (bind_ok (lift (Ok _)) _ _ _ _ eq_refl). reflexivity.
Qed.

Lemma compute_curve_no_pages remote bp buckets page0 tc page1 ts pts sub tot :
  remote None = Some page0 ->
  int_or_0 (totalPages (pagination_of page0)) = Ok 0 ->
  int_or_0 (totalCompetitors (pagination_of page0)) = Ok tc ->
  remote (Some 1) = Some page1 ->
  _max_submitted_rank page1 = Ok ts ->
  buckets <> 0 ->
  _extract_points_from_page page0 tc ts = Ok (pts, sub, tot) ->
  exists pl,
    compute_curve remote bp buckets [] = (Ok pl, [None; Some 1])
    /\ m_totalPages (p_meta pl) = 0
    /\ m_totalCompetitors (p_meta pl) = tc
    /\ lastSubmissionPage (p_meta pl) = 1
    /\ sampledPages (p_meta pl) = 1
    /\ sampledRows (p_meta pl) = tot.
Proof.
  intros R0 TP TC R1 MR Hb EX.
  assert (L := locate_boundary_no_pages remote page0 tc page1 ts R0 TP TC R1 MR).
  destruct (extract_points_inv _ _ _ _ _ _ EX) as (_ & C & _).
  destruct (submission_rate_total sub tot C) as (rate & SR).
  unfold compute_curve. rewrite (bind_ok _ _ _ _ _ L).
  cbn [last_sub_page first last_sub_json total_competitors total_submitted total_pages].
  rewrite (make_page_samples_one_page buckets Hb), (bind_ok (lift (Ok _)) _ _ _ _ eq_refl).
  cbn [existsb Z.eqb Pos.eqb orb sample_loop].
  unfold bind at 2. unfold ret at 1. unfold lift at 1. unfold bind at 2. rewrite EX.
  unfold ret at 1. unfold bind at 1. cbn [Z.add app].
  rewrite SR, (bind_ok (lift (Ok _)) _ _ _ _ eq_refl). unfold ret.
  eexists. split; [reflexivity|]. cbn. repeat split.
Qed.

(** C8, as the code has it.  A pagination field that is missing, [null] or
    the empty string reads as 0, and 0 pages degrade to a single page: the
    locator fetches page 1 and returns it as the boundary, one page is
    sampled, and the payload reports [totalPages = 0] and
    [lastSubmissionPage = 1].  A field that is a non-numeric string is not
    read as 0: [int] raises [ValueError] and the computation fails right
    after the first fetch. *)
Theorem pagination_fields_missing_or_malformed
  (remote : oracle) (bp : params) (buckets : Z) (page0 : page_json) :
  remote None = Some page0 ->
  (int_or_0 JAbsent = Ok 0 /\ int_or_0 (JStr EmptyString) = Ok 0)
  /\ (forall loc t, locate_boundary remote [] = (Ok loc, t) ->
        int_or_0 (totalPages (pagination_of page0)) = Ok (total_pages loc)
        /\ int_or_0 (totalCompetitors (pagination_of page0)) = Ok (total_competitors loc))
  /\ (int_or_0 (totalPages (pagination_of page0)) = Ok 0 ->
      forall tc page1 ts pts sub tot,
        int_or_0 (totalCompetitors (pagination_of page0)) = Ok tc ->
        remote (Some 1) = Some page1 ->
        _max_submitted_rank page1 = Ok ts ->
        buckets <> 0 ->
        _extract_points_from_page page0 tc ts = Ok (pts, sub, tot) ->
        exists pl,
          compute_curve remote bp buckets [] = (Ok pl, [None; Some 1])
          /\ m_totalPages (p_meta pl) = 0
          /\ m_totalCompetitors (p_meta pl) = tc
          /\ lastSubmissionPage (p_meta pl) = 1
          /\ sampledPages (p_meta pl) = 1
          /\ sampledRows (p_meta pl) = tot)
  /\ (int_or_0 (totalPages (pagination_of page0)) = Err ValueError ->
      compute_curve remote bp buckets [] = (Err ValueError, [None]))
  /\ (forall tp, int_or_0 (totalPages (pagination_of page0)) = Ok tp ->
      int_or_0 (totalCompetitors (pagination_of page0)) = Err ValueError ->
      compute_curve remote bp buckets [] = (Err ValueError, [None])).
Proof.
  intros R0. split; [split; reflexivity|]. split; [|split; [|split]].
  - intros loc t L. apply (locate_boundary_fields _ _ _ _ R0 L).
  - intros TP tc page1 ts pts sub tot TC R1 MR Hb EX.
    apply (compute_curve_no_pages remote bp buckets page0 tc page1 ts pts sub tot); assumption.
  - intros E. unfold compute_curve. apply bind_err. unfold locate_boundary.
    rewrite (bind_ok _ _ _ _ _ (get_json_ok _ _ _ _ R0)). apply bind_err.
    unfold lift. rewrite E. reflexivity.
  - intros tp E1 E2. unfold compute_curve. apply bind_err. unfold locate_boundary.
    rewrite (bind_ok _ _ _ _ _ (get_json_ok _ _ _ _ R0)).
    rewrite E1, (bind_ok (lift (Ok _)) _ _ _ _ eq_refl). apply bind_err.
    unfold lift. rewrite E2. reflexivity.
Qed.

Lemma pagination_fields_missing_or_malformed_witness :
  exists pl,
    compute_curve demo_oracle_without_pagination demo_params 3 [] = (Ok pl, [None; Some 1])
    /\ m_totalPages (p_meta pl) = 0
    /\ m_totalCompetitors (p_meta pl) = 0
    /\ lastSubmissionPage (p_meta pl) = 1
    /\ sampledPages (p_meta pl) = 1
    /\ sampledRows (p_meta pl) = 3.
Proof.
  pose proof (pagination_fields_missing_or_malformed
                demo_oracle_without_pagination demo_params 3
                demo_page_without_pagination eq_refl) as P.
  apply proj2, proj2, proj1 in P.
  eapply P.
  - reflexivity.
  - reflexivity.
  - reflexivity.
  - vm_compute. reflexivity.
  - discriminate.
  - vm_compute. reflexivity.
Defined.

(** C8 as stated fails on the code: with [totalPages] sent as "ten" the
    computation raises [ValueError] after the first fetch. *)
Lemma non_numeric_total_pages_is_an_error :
  totalPages (pagination_of (mkPage (Some (mkPagination (JStr "ten") (JNum 30)))
                                    (leaderboardRows (demo_page 1))))
  = JStr "ten"
  /\ compute_curve demo_oracle_malformed_pages demo_params 3 []
     = (Err ValueError, [None]).
Proof. split; reflexivity. Qed.

(** ** The synthetic leaderboard, end to end *)

Lemma curve_ranks_distinct_and_sorted_witness :
  exists pl t c',
    api_curve (fun _ => demo_oracle) (Fin 0) (demo_request "3") [] = (Ok pl, t, c')
    /\ NoDup (map rank (points pl)) /\ StronglySorted percentile_le (points pl).
Proof.
  destruct (api_curve (fun _ => demo_oracle) (Fin 0) (demo_request "3") [])
    as [[[pl|e] t] c'] eqn:E; [|vm_compute in E; discriminate E].
  exists pl, t, c'. split; [reflexivity|].
  apply (curve_ranks_distinct_and_sorted
           (fun _ => demo_oracle) (Fin 0) (demo_request "3") [] pl t c'
           reachable_empty E).
Defined.

Lemma zero_buckets_fails_witness :
  (forall boundary_page, 1 <= boundary_page ->
     _make_page_samples boundary_page 0 = Err ZeroDivisionError)
  /\ (exists e t,
        api_curve (fun _ => demo_oracle) (Fin 0) (demo_request "0") [] = (Err e, t, []))
  /\ (forall loc t,
        locate_boundary demo_oracle [] = (Ok loc, t) ->
        1 <= last_sub_page loc
        /\ api_curve (fun _ => demo_oracle) (Fin 0) (demo_request "0") []
           = (Err ZeroDivisionError, t, [])).
Proof.
  apply (zero_buckets_fails (fun _ => demo_oracle) (Fin 0) (demo_request "0") []
           reachable_empty eq_refl).
Defined.

Example demo_curve_meta :
  exists pl c',
    api_curve (fun _ => demo_oracle) (Fin 0) (demo_request "3") []
    = (Ok pl, [None; Some 6; Some 3; Some 4; Some 5; Some 3], c')
    /\ lastSubmissionPage (p_meta pl) = 4
    /\ totalSubmitted (p_meta pl) = 11
    /\ sampledPages (p_meta pl) = 2
    /\ estimatedSubmissionRate (p_meta pl) = Some (Fin 1)
    /\ map rank (points pl) = [9; 8; 7; 3; 2; 1].
Proof. eexists. eexists. split; [vm_compute; reflexivity|]. repeat split. Qed.

Example demo_zero_buckets :
  api_curve (fun _ => demo_oracle) (Fin 0) (demo_request "0") []
  = (Err ZeroDivisionError, [None; Some 6; Some 3; Some 4; Some 5], []).
Proof. vm_compute. reflexivity. Qed.

Example demo_cache_hit :
  let first_call := api_curve (fun _ => demo_oracle) (Fin 0) (demo_request "3") [] in
  let second_call :=
    api_curve (fun _ => demo_oracle) (Fin 30) (demo_request "3") (snd first_call) in
  fst (fst second_call) = fst (fst first_call)
  /\ snd (fst second_call) = []
  /\ snd second_call = snd first_call.
Proof. vm_compute. repeat split. Qed.

(* ================================================================== *)
(** * Further properties of the code *)

(** ** [_parse_reps] *)

Lemma digit_val_range c : PyStr.is_digit c = true -> 0 <= PyStr.digit_val c <= 9.
Proof.
  unfold PyStr.is_digit, PyStr.digit_val. intros H.
  apply andb_true_iff in H. destruct H as [A B]. apply Nat.leb_le in A, B. lia.
Qed.

Lemma decimal_from_nonneg g : forall acc,
  0 <= acc -> Forall (fun x => PyStr.is_digit x = true) g ->
  0 <= fold_left (fun a c => 10 * a + PyStr.digit_val c) g acc.
Proof.
  induction g as [|c g IH]; intros acc Ha F; cbn [fold_left]; [exact Ha|].
  inversion F as [|? ? Hc Hg]; subst. apply IH; [|assumption].
  assert (D := digit_val_range c Hc). lia.
Qed.

Lemma text_group_nonneg t g : text_group t g -> 0 <= decimal g.
Proof.
  intros (s & _ & P). destruct (first_pattern_group _ _ P) as [_ F].
  apply decimal_from_nonneg; [lia | exact F].
Qed.

Lemma list_ascii_of_string_length s :
  List.length (list_ascii_of_string s) = String.length s.
Proof. induction s as [|c s IH]; [reflexivity|]. simpl. rewrite IH. reflexivity. Qed.

(** The digits of a match are characters of the text. *)
Lemma text_group_length t g : text_group t g -> Z.of_nat (List.length g) <= text_length t.
Proof.
  intros (s & -> & pre & suf & E & (ws & a & b & c & rest & -> & _) & _).
  unfold text_length. rewrite <- list_ascii_of_string_length, E, !length_app. lia.
Qed.

(** The three things [parse_text] can do. *)
Lemma parse_text_cases t :
  (parse_text t = Ok None /\ forall g, ~ text_group t g)
  \/ exists g, text_group t g
       /\ ((Z.of_nat (List.length g) <= PyStr.int_max_str_digits
            /\ parse_text t = Ok (Some (decimal g)))
           \/ (PyStr.int_max_str_digits < Z.of_nat (List.length g)
               /\ parse_text t = Err ValueError)).
Proof.
  destruct (text_group_dec t) as [[g G]|N].
  - right. exists g. split; [exact G|].
    destruct (Z_le_gt_dec (Z.of_nat (List.length g)) PyStr.int_max_str_digits) as [L|L].
    + left. split; [exact L | apply (parse_text_group_short _ _ G L)].
    + right. split; [lia | apply (parse_text_group_long _ _ G); lia].
  - left. split; [apply parse_text_no_group, N | exact N].
Qed.

Lemma parse_reps_nonneg display breakdown n :
  _parse_reps display breakdown = Ok (Some n) -> 0 <= n.
Proof.
  unfold _parse_reps.
  destruct (parse_text_cases breakdown) as [[Eb _]|(g & G & [[_ Eb]|[_ Eb]])];
    rewrite Eb; cbn [rbind]; try discriminate.
  - destruct (parse_text_cases display) as [[Ed _]|(g & G & [[_ Ed]|[_ Ed]])];
      rewrite Ed; try discriminate.
    intros [= <-]. apply (text_group_nonneg _ _ G).
  - intros [= <-]. apply (text_group_nonneg _ _ G).
Qed.

Lemma parse_reps_error display breakdown e :
  _parse_reps display breakdown = Err e ->
  e = ValueError
  /\ exists t g, (t = breakdown \/ t = display) /\ text_group t g
                 /\ PyStr.int_max_str_digits < Z.of_nat (List.length g).
Proof.
  unfold _parse_reps.
  destruct (parse_text_cases breakdown) as [[Eb _]|(g & G & [[_ Eb]|[L Eb]])];
    rewrite Eb; cbn [rbind]; try discriminate.
  - destruct (parse_text_cases display) as [[Ed _]|(g & G & [[_ Ed]|[L Ed]])];
      rewrite Ed; try discriminate.
    intros [= <-]. split; [reflexivity|]. exists display, g. auto.
  - intros [= <-]. split; [reflexivity|]. exists breakdown, g. auto.
Qed.

Lemma parse_reps_returns display breakdown :
  text_length breakdown <= PyStr.int_max_str_digits ->
  text_length display <= PyStr.int_max_str_digits ->
  exists r, _parse_reps display breakdown = Ok r.
Proof.
  intros Lb Ld.
  destruct (_parse_reps display breakdown) as [r|e] eqn:E; [exists r; reflexivity|].
  destruct (parse_reps_error _ _ _ E) as (_ & t & g & [ -> | -> ] & G & L);
    apply text_group_length in G; lia.
Qed.

(** X1.  [_parse_reps] raises nothing but [ValueError], and that only when
    the first match of one of its two texts has more than 4300 digits, which
    [int] refuses.  With texts of at most 4300 characters it never raises.
    The count it returns is never negative. *)
Theorem parse_reps_raises_only_past_digit_limit (display breakdown : option string) :
  (forall e, _parse_reps display breakdown = Err e ->
     e = ValueError
     /\ exists t g, (t = breakdown \/ t = display) /\ text_group t g
                    /\ PyStr.int_max_str_digits < Z.of_nat (List.length g))
  /\ (text_length breakdown <= PyStr.int_max_str_digits ->
      text_length display <= PyStr.int_max_str_digits ->
      exists r, _parse_reps display breakdown = Ok r)
  /\ (forall n, _parse_reps display breakdown = Ok (Some n) -> 0 <= n).
Proof.
  split; [|split].
  - intros e E. apply (parse_reps_error _ _ _ E).
  - apply parse_reps_returns.
  - intros n E. apply (parse_reps_nonneg _ _ _ E).
Qed.

(** ** [_max_submitted_rank] *)

Lemma int_or_0_error v e : int_or_0 v = Err e -> e = ValueError.
Proof.
  destruct v as [|n|[|c s]]; simpl; try discriminate.
  unfold PyStr.int_of_string. destruct (PyStr.int_of_chars _); [discriminate|].
  intros [= <-]. reflexivity.
Qed.

Lemma max_rank_loop_spec rows : forall m0 m,
  max_rank_loop rows m0 = Ok m ->
  m0 <= m
  /\ (m = m0 \/ exists r, In r rows /\ row_submitted_rank r m)
  /\ forall r n, In r rows -> row_submitted_rank r n -> n <= m.
Proof.
  induction rows as [|r rows IH]; intros m0 m H.
  - simpl in H. inversion H; subst. split; [lia|]. split; [left; reflexivity|]. intros r n [].
  - cbn [max_rank_loop] in H.
    destruct (first_score_strict r) as [s|e] eqn:Fs; cbn [rbind] in H; [|discriminate].
    destruct (str_truthy (scoreDisplay s)) eqn:T.
    + destruct (int_or_0 (overallRank r)) as [n|e] eqn:I.
      * apply IH in H. destruct H as (A & B & C). split; [lia|]. split.
        -- destruct B as [->|(r' & Ir & Sr)].
           ++ destruct (Z.max_spec m0 n) as [[_ E]|[_ E]]; rewrite E.
              ** right. exists r. split; [left; reflexivity|]. exists s. auto.
              ** left. reflexivity.
           ++ right. exists r'. split; [right; exact Ir | exact Sr].
        -- intros r' n' [<-|Ir] Sr.
           ++ destruct Sr as (s' & Fs' & _ & I'). rewrite I in I'. inversion I'; subst. lia.
           ++ apply (C r' n' Ir Sr).
      * assert (e = ValueError) by (apply (int_or_0_error _ _ I)). subst e.
        apply IH in H. destruct H as (A & B & C). split; [exact A|]. split.
        -- destruct B as [->|(r' & Ir & Sr)]; [left; reflexivity|].
           right. exists r'. split; [right; exact Ir | exact Sr].
        -- intros r' n' [<-|Ir] Sr.
           ++ destruct Sr as (s' & _ & _ & I'). rewrite I in I'. discriminate.
           ++ apply (C r' n' Ir Sr).
    + apply IH in H. destruct H as (A & B & C). split; [exact A|]. split.
      * destruct B as [->|(r' & Ir & Sr)]; [left; reflexivity|].
        right. exists r'. split; [right; exact Ir | exact Sr].
      * intros r' n' [<-|Ir] Sr.
        -- destruct Sr as (s' & Fs' & T' & _). rewrite Fs in Fs'. inversion Fs'; subst. congruence.
        -- apply (C r' n' Ir Sr).
Qed.

(** X2.  When [_max_submitted_rank] returns [m], then [m >= 0]; [m] is 0 or
    the rank of a row of the page whose first score has a non-empty display;
    and no such row of the page has a larger rank.  Rows whose rank does not
    read as an integer are passed over. *)
Theorem max_submitted_rank_is_maximum (page : page_json) (m : Z) :
  _max_submitted_rank page = Ok m ->
  0 <= m
  /\ (m = 0 \/ exists r, In r (rows_of page) /\ row_submitted_rank r m)
  /\ forall r n, In r (rows_of page) -> row_submitted_rank r n -> n <= m.
Proof. intros H. apply (max_rank_loop_spec _ _ _ H). Qed.

Lemma max_submitted_rank_is_maximum_witness :
  0 <= 11
  /\ (11 = 0 \/ exists r, In r (rows_of (demo_page 4)) /\ row_submitted_rank r 11)
  /\ forall r n, In r (rows_of (demo_page 4)) -> row_submitted_rank r n -> n <= 11.
Proof. apply (max_submitted_rank_is_maximum (demo_page 4) 11). reflexivity. Defined.

(** ** [_page_has_submissions] *)

Lemma first_score_strict_indexable r :
  row_indexable r -> first_score_strict r = Ok (first_score_lenient r).
Proof.
  unfold row_indexable, first_score_strict, first_score_lenient.
  destruct (scores r) as [| |[|s l]]; intros H; try contradiction; reflexivity.
Qed.

(** X3.  [_page_has_submissions] reads the rows in order and stops at the
    first one with a display.  Over rows whose first score can be read it is
    the disjunction of their displays.  A later row with a display makes it
    true even when rows after that one cannot be read, and the first row that
    cannot be read ([scores] is [null] or an empty list), when no row before
    it has a display, makes it raise [TypeError] or [IndexError]. *)
Theorem page_has_submissions_short_circuit
  (before after : list row) (r : row) (pg : option pagination_json) :
  Forall row_indexable before ->
  (_page_has_submissions (mkPage pg (Some before)) = Ok (existsb row_has_display before))
  /\ (existsb row_has_display before = false -> row_indexable r -> row_has_display r = true ->
      _page_has_submissions (mkPage pg (Some (before ++ r :: after))) = Ok true)
  /\ (existsb row_has_display before = false -> ~ row_indexable r ->
      exists e, _page_has_submissions (mkPage pg (Some (before ++ r :: after))) = Err e
                /\ (e = IndexError \/ e = TypeError)).
Proof.
  intros W. unfold _page_has_submissions, rows_of. cbn [leaderboardRows].
  induction W as [|b before Hb W IH].
  - split; [reflexivity|]. split.
    + intros _ Hr D. cbn [app any_display]. rewrite (first_score_strict_indexable r Hr).
      cbn [rbind]. unfold row_has_display in D. rewrite D. reflexivity.
    + intros _ Hr. cbn [app any_display]. unfold row_indexable in Hr. unfold first_score_strict.
      destruct (scores r) as [| |[|s l]]; try (exfalso; apply Hr; exact I).
      * exists TypeError. split; [reflexivity | right; reflexivity].
      * exists IndexError. split; [reflexivity | left; reflexivity].
  - destruct IH as (A & B & C).
    cbn [app any_display existsb]. rewrite (first_score_strict_indexable b Hb). cbn [rbind].
    fold (row_has_display b). destruct (row_has_display b); cbn [orb].
    + split; [reflexivity|]. split; intros; discriminate.
    + split; [exact A|]. split; [exact B | exact C].
Qed.

Lemma page_has_submissions_short_circuit_witness :
  (_page_has_submissions (mkPage None (Some [demo_row 13 false]))
   = Ok (existsb row_has_display [demo_row 13 false]))
  /\ (existsb row_has_display [demo_row 13 false] = false ->
      row_indexable (demo_row 14 true) ->
      row_has_display (demo_row 14 true) = true ->
      _page_has_submissions
        (mkPage None (Some ([demo_row 13 false] ++ demo_row 14 true :: [mkRow JAbsent ScoresNull])))
      = Ok true)
  /\ (existsb row_has_display [demo_row 13 false] = false ->
      ~ row_indexable (demo_row 14 true) ->
      exists e,
        _page_has_submissions
          (mkPage None (Some ([demo_row 13 false] ++ demo_row 14 true :: [mkRow JAbsent ScoresNull])))
        = Err e
        /\ (e = IndexError \/ e = TypeError)).
Proof.
  apply (page_has_submissions_short_circuit
           [demo_row 13 false] [mkRow JAbsent ScoresNull] (demo_row 14 true) None).
  repeat constructor.
Defined.

(** ** The range of [_percentile_from_rank] *)

Lemma percentile_past_base b : 0 < b -> _percentile_from_rank (b + 1) b = Ok (Fin 0).
Proof.
  intros H. unfold _percentile_from_rank, truediv.
  destruct (Z.eqb_spec b 0); [lia|].
  assert (E : rnd (inject_Z (b + 1 - 1) / inject_Z b) = 1%Q).
  { rewrite (rnd_comp _ 1%Q); [reflexivity|].
    replace (b + 1 - 1) with b by lia. field. unfold Qeq; simpl; lia. }
  unfold round. rewrite E. reflexivity.
Qed.

Lemma percentile_le_100 rk base f :
  0 < base -> 1 <= rk -> _percentile_from_rank rk base = Ok f -> leb f (Fin 100) = true.
Proof.
  intros Hb Hr E. apply (percentile_mono 1 rk base (Fin 100) f Hb Hr); [|exact E].
  apply percentile_rank_1. lia.
Qed.

(** X4.  For a positive base: every rank of 1 or more has a percentile of at
    most 100.0; every rank beyond the base has a percentile of at most 0.0;
    and every rank from 1 to the base has a percentile, a number from 0.0 to
    100.0 (the division cannot fail or overflow there). *)
Theorem percentile_range (rk base : Z) :
  0 < base ->
  (1 <= rk -> forall f, _percentile_from_rank rk base = Ok f -> leb f (Fin 100) = true)
  /\ (base < rk -> forall f, _percentile_from_rank rk base = Ok f -> leb f (Fin 0) = true)
  /\ (1 <= rk <= base ->
      exists p, _percentile_from_rank rk base = Ok (Fin p) /\ (0 <= p <= 100)%Q).
Proof.
  intros Hb. split; [|split].
  - intros Hr f E. apply (percentile_le_100 rk base f Hb Hr E).
  - intros Hr f E. apply (percentile_mono (base + 1) rk base (Fin 0) f Hb); [lia| |exact E].
    apply percentile_past_base, Hb.
  - intros Hr.
    assert (Qb : (0 < inject_Z base)%Q) by (unfold Qlt; simpl; lia).
    set (x := (inject_Z (rk - 1) / inject_Z base)%Q).
    assert (X0 : (0 <= x)%Q).
    { unfold x. apply Qle_shift_div_l; [exact Qb|]. rewrite Qmult_0_l. unfold Qle; simpl; lia. }
    assert (X1 : (x <= 1)%Q).
    { unfold x. apply Qle_shift_div_r; [exact Qb|]. rewrite Qmult_1_l. rewrite <- Zle_Qle. lia. }
    assert (Q0 := rnd_ge_0 x X0). assert (Q1 := rnd_le_1 x X1).
    assert (T0 : (0 <= rnd (1 - rnd x))%Q) by (apply rnd_ge_0; lra).
    assert (T1 : (rnd (1 - rnd x) <= 1)%Q) by (apply rnd_le_1; lra).
    assert (P0 : (0 <= rnd (100 * rnd (1 - rnd x)))%Q) by (apply rnd_ge_0; lra).
    assert (P1 : (rnd (100 * rnd (1 - rnd x)) <= 100)%Q) by (apply rnd_le_100; lra).
    assert (G := huge_gt_100).
    exists (rnd (100 * rnd (1 - rnd x))). split; [|split; assumption].
    unfold _percentile_from_rank, truediv. destruct (Z.eqb_spec base 0); [lia|].
    fold x. rewrite (round_fin x) by lra. cbn [rbind sub mul].
    rewrite (round_fin (1 - rnd x)) by lra.
    rewrite (round_fin (100 * rnd (1 - rnd x))) by lra. reflexivity.
Qed.

Lemma percentile_range_witness :
  (1 <= 2 -> forall f, _percentile_from_rank 2 3 = Ok f -> leb f (Fin 100) = true)
  /\ (3 < 2 -> forall f, _percentile_from_rank 2 3 = Ok f -> leb f (Fin 0) = true)
  /\ (1 <= 2 <= 3 ->
      exists p, _percentile_from_rank 2 3 = Ok (Fin p) /\ (0 <= p <= 100)%Q).
Proof. apply (percentile_range 2 3). lia. Defined.

(** ** [_extract_points_from_page] *)

Lemma extract_row_cases tc ts pts sub tot r pts' sub' tot' :
  extract_row tc ts (pts, sub, tot) r = Ok (pts', sub', tot') ->
  tot' = tot + 1
  /\ ((int_or_0 (overallRank r) = Err ValueError /\ pts' = pts /\ sub' = sub)
      \/ ((exists rk, int_or_0 (overallRank r) = Ok rk)
          /\ sub <= sub' <= sub + 1
          /\ (pts' = pts
              \/ exists p, pts' = pts ++ [p] /\ point_from (if ts =? 0 then tc else ts) p))).
Proof.
  unfold extract_row.
  destruct (int_or_0 (overallRank r)) as [rk|e] eqn:I.
  - intros H. apply rbind_ok_inv in H. destruct H as (parsed & Pr & H).
    set (s := match parsed with
              | Some _ => if String.eqb (str_or_empty (valid (first_score_lenient r))) "1" then sub + 1 else sub
              | None => sub end) in *.
    assert (Hs : sub <= s <= sub + 1).
    { unfold s. destruct parsed; [destruct (String.eqb _ _)|]; lia. }
    assert (Hk : exists rk0, Ok rk = Ok rk0 :> result Z) by (exists rk; reflexivity).
    destruct parsed as [n|].
    + destruct (Z.leb_spec rk 0) as [Lr|Lr]; cbn [orb] in H.
      * inversion H; subst. split; [reflexivity|]. right. split; [exact Hk|]. split; [exact Hs | left; reflexivity].
      * destruct (Z.leb_spec (if ts =? 0 then tc else ts) 0) as [Lb|Lb].
        -- inversion H; subst. split; [reflexivity|]. right. split; [exact Hk|]. split; [exact Hs | left; reflexivity].
        -- apply rbind_ok_inv in H. destruct H as (pc & Pc & H). inversion H; subst.
           split; [reflexivity|]. right. split; [exact Hk|]. split; [exact Hs|]. right.
           exists (mkPoint rk n pc). split; [reflexivity|].
           unfold point_from. cbn [rank reps percentile]. repeat split; try lia; try exact Pc.
           apply (parse_reps_nonneg _ _ _ Pr).
    + inversion H; subst. split; [reflexivity|]. right. split; [exact Hk|]. split; [exact Hs | left; reflexivity].
  - assert (e = ValueError) by (apply (int_or_0_error _ _ I)). subst e.
    intros H. inversion H; subst. split; [reflexivity|]. left. auto.
Qed.

Lemma extract_rows_shape tc ts rows : forall pts sub tot pts' sub' tot',
  extract_rows tc ts rows (pts, sub, tot) = Ok (pts', sub', tot') ->
  tot' = tot + Z.of_nat (List.length rows)
  /\ sub <= sub' <= sub + Z.of_nat (List.length rows)
  /\ exists new, pts' = pts ++ new
       /\ Z.of_nat (List.length new) <= Z.of_nat (List.length rows)
       /\ Forall (point_from (if ts =? 0 then tc else ts)) new
       /\ ((forall r, In r rows -> int_or_0 (overallRank r) = Err ValueError) ->
           new = [] /\ sub' = sub).
Proof.
  induction rows as [|r rows IH]; intros pts sub tot pts' sub' tot' H.
  - simpl in H. inversion H; subst. simpl. repeat split; try lia.
    exists []. rewrite app_nil_r. repeat split; auto. simpl; lia.
  - cbn [extract_rows] in H. apply rbind_ok_inv in H.
    destruct H as ([[p1 s1] t1] & R & H).
    apply extract_row_cases in R. destruct R as (-> & C).
    apply IH in H. destruct H as (-> & Hs' & new2 & -> & L2 & F2 & M2).
    cbn [List.length]. rewrite Nat2Z.inj_succ.
    assert (Bad : (exists rk, int_or_0 (overallRank r) = Ok rk) ->
                  (forall r0, In r0 (r :: rows) -> int_or_0 (overallRank r0) = Err ValueError) -> False).
    { intros (rk & E) A. rewrite (A r (or_introl eq_refl)) in E. discriminate. }
    destruct C as [(Ir & -> & ->)|(Hk & Hs & [ -> |(p & -> & Pp)])].
    + split; [lia|]. split; [lia|]. exists new2.
      split; [reflexivity|]. split; [lia|]. split; [exact F2|].
      intros A. apply M2. intros r' Ir'. apply A. right. exact Ir'.
    + split; [lia|]. split; [lia|]. exists new2.
      split; [reflexivity|]. split; [lia|]. split; [exact F2|].
      intros A. exfalso. exact (Bad Hk A).
    + split; [lia|]. split; [lia|]. exists (p :: new2).
      split; [rewrite <- app_assoc; reflexivity|].
      split; [cbn [List.length]; lia|]. split; [constructor; assumption|].
      intros A. exfalso. exact (Bad Hk A).
Qed.

(** X5.  When [_extract_points_from_page] returns: [total_rows] is the number
    of rows of the page; [submitted_rows] is between 0 and [total_rows]; there
    are at most [total_rows] points; every point has a rank of 1 or more, a
    non-negative rep count, and the percentile of its rank against the base,
    which is [total_submitted] if that is not 0, else the page's own
    [totalCompetitors] if that is not 0, else [fallback_total], and is
    positive; with a base of 0 or less there are no points; and rows whose
    rank does not read as an integer are counted as rows and nothing else. *)
Theorem extract_points_shape (page : page_json) (fallback_total total_submitted : Z)
  (pts : list point) (sub tot : Z) :
  _extract_points_from_page page fallback_total total_submitted = Ok (pts, sub, tot) ->
  exists tc,
    int_or_0 (totalCompetitors (pagination_of page)) = Ok tc
    /\ tot = Z.of_nat (List.length (rows_of page))
    /\ 0 <= sub <= tot
    /\ Z.of_nat (List.length pts) <= tot
    /\ Forall (point_from (pct_base_of tc fallback_total total_submitted)) pts
    /\ (pct_base_of tc fallback_total total_submitted <= 0 -> pts = [])
    /\ ((forall r, In r (rows_of page) -> int_or_0 (overallRank r) = Err ValueError) ->
        pts = [] /\ sub = 0).
Proof.
  unfold _extract_points_from_page. intros H.
  apply rbind_ok_inv in H. destruct H as (tc & Tc & H).
  exists tc. split; [exact Tc|].
  apply extract_rows_shape in H.
  destruct H as (-> & Hs & new & -> & L & F & Mal).
  cbn [app]. unfold pct_base_of.
  split; [lia|]. split; [lia|]. split; [lia|]. split; [exact F|].
  split; [|exact Mal].
  intros Le. destruct new as [|p new]; [reflexivity|].
  inversion F as [|? ? (_ & _ & Pos & _) _]; subst. lia.
Qed.

Lemma extract_points_shape_witness :
  exists tc,
    int_or_0 (totalCompetitors (pagination_of (demo_page 4))) = Ok tc
    /\ 3 = Z.of_nat (List.length (rows_of (demo_page 4)))
    /\ 0 <= 2 <= 3
    /\ Z.of_nat (List.length demo_boundary_points) <= 3
    /\ Forall (point_from (pct_base_of tc 30 11)) demo_boundary_points
    /\ (pct_base_of tc 30 11 <= 0 -> demo_boundary_points = [])
    /\ ((forall r, In r (rows_of (demo_page 4)) -> int_or_0 (overallRank r) = Err ValueError) ->
        demo_boundary_points = [] /\ 2 = 0).
Proof.
  apply (extract_points_shape (demo_page 4) 30 11). vm_compute. reflexivity.
Defined.

(** ** [_find_last_submission_page] against any remote *)

Lemma find_loop_step remote f lo hi last t :
  find_loop remote (S f) lo hi last t =
  if lo <? hi then
    let mid := (lo + hi + 1) / 2 in
    match remote (Some mid) with
    | None => (Err HTTPError, t ++ [Some mid])
    | Some page =>
        match _page_has_submissions page with
        | Ok true => find_loop remote f mid hi page (t ++ [Some mid])
        | Ok false => find_loop remote f lo (mid - 1) last (t ++ [Some mid])
        | Err e => (Err e, t ++ [Some mid])
        end
    end
  else (Ok (lo, last), t).
Proof.
  cbn [find_loop]. destruct (lo <? hi); [|reflexivity].
  cbv zeta. unfold bind, _get_json, lift.
  destruct (remote (Some ((lo + hi + 1) / 2))) as [page|]; [|reflexivity].
  destruct (_page_has_submissions page) as [[|]|e]; reflexivity.
Qed.

Lemma find_loop_any remote fuel : forall lo hi last t,
  hi - lo <= Z.of_nat fuel ->
  (forall l j t', find_loop remote fuel lo hi last t = (Ok (l, j), t') ->
     exists mids,
       t' = t ++ map Some mids
       /\ lo <= l <= Z.max lo hi
       /\ Z.of_nat (List.length mids) <= Z.log2_up (hi - lo + 1)
       /\ Forall (fun p => lo < p <= hi) mids
       /\ ((j = last /\ l = lo)
           \/ (remote (Some l) = Some j /\ _page_has_submissions j = Ok true /\ In l mids)))
  /\ (forall e t', find_loop remote fuel lo hi last t = (Err e, t') -> locator_error e).
Proof.
  assert (Base : forall lo hi last t (r : result (Z * page_json) * trace),
            hi <= lo -> r = (Ok (lo, last), t) ->
    (forall l j t', r = (Ok (l, j), t') ->
     exists mids,
       t' = t ++ map Some mids
       /\ lo <= l <= Z.max lo hi
       /\ Z.of_nat (List.length mids) <= Z.log2_up (hi - lo + 1)
       /\ Forall (fun p => lo < p <= hi) mids
       /\ ((j = last /\ l = lo)
           \/ (remote (Some l) = Some j /\ _page_has_submissions j = Ok true /\ In l mids)))
    /\ (forall e t', r = (Err e, t') -> locator_error e)).
  { intros lo hi last t r L ->. split.
    - intros l j t' [= <- <- <-].
      exists []. cbn [map List.length]. rewrite app_nil_r.
      repeat split; try lia; [apply Z.log2_up_nonneg | constructor | left; auto].
    - intros e t' H. discriminate H. }
  induction fuel as [|f IH]; intros lo hi last t Hf.
  - apply Base; [lia|]. cbn [find_loop]. destruct (Z.ltb_spec lo hi) as [L|L]; [lia | reflexivity].
  - rewrite find_loop_step. destruct (Z.ltb_spec lo hi) as [L|L]; [|apply Base; [lia | reflexivity]].
    cbv zeta.
    assert (M := mid_bounds lo hi L). set (mid := (lo + hi + 1) / 2) in *.
    assert (Bm := Z.mul_succ_div_gt (lo + hi + 1) 2 ltac:(lia)). fold mid in Bm.
    assert (Am := Z.mul_div_le (lo + hi + 1) 2 ltac:(lia)). fold mid in Am.
    destruct (remote (Some mid)) as [page|] eqn:R.
    2:{ split; [intros l j t' H; discriminate H|].
        intros e t' [= <- _]. left. reflexivity. }
    destruct (_page_has_submissions page) as [[|]|e0] eqn:Sb.
    + destruct (IH mid hi page (t ++ [Some mid]) ltac:(lia)) as [IHo IHe]. split; [|exact IHe].
      intros l j t' H. destruct (IHo l j t' H) as (mids & -> & Hl & Len & Fm & D).
      exists (mid :: mids). cbn [map List.length]. rewrite Nat2Z.inj_succ, <- app_assoc.
      split; [reflexivity|]. split; [lia|]. split.
      { assert (X := log2_up_halve (hi - lo + 1) (hi - mid + 1) ltac:(lia) ltac:(lia) ltac:(lia)). lia. }
      split.
      { constructor; [lia|]. eapply Forall_impl; [|exact Fm]. cbv beta. intros; lia. }
      right. destruct D as [[-> ->]|(Rl & Sl & Il)].
      * split; [exact R|]. split; [exact Sb | left; reflexivity].
      * split; [exact Rl|]. split; [exact Sl | right; exact Il].
    + destruct (IH lo (mid - 1) last (t ++ [Some mid]) ltac:(lia)) as [IHo IHe]. split; [|exact IHe].
      intros l j t' H. destruct (IHo l j t' H) as (mids & -> & Hl & Len & Fm & D).
      exists (mid :: mids). cbn [map List.length]. rewrite Nat2Z.inj_succ, <- app_assoc.
      split; [reflexivity|]. split; [lia|]. split.
      { destruct (Z.eq_dec mid (lo + 1)) as [E1|N1].
        - assert (Z.log2_up (mid - 1 - lo + 1) = 0) by (replace (mid - 1 - lo + 1) with 1 by lia; reflexivity).
          assert (0 < Z.log2_up (hi - lo + 1)) by (apply Z.log2_up_pos; lia). lia.
        - assert (X := log2_up_halve (hi - lo + 1) (mid - 1 - lo + 1) ltac:(lia) ltac:(lia) ltac:(lia)). lia. }
      split.
      { constructor; [lia|]. eapply Forall_impl; [|exact Fm]. cbv beta. intros; lia. }
      destruct D as [[-> ->]|(Rl & Sl & Il)]; [left; auto|].
      right. split; [exact Rl|]. split; [exact Sl | right; exact Il].
    + split; [intros l j t' H; discriminate H|].
      intros e t' [= <- _]. destruct (any_display_error _ _ Sb) as [ -> | -> ];
        [right; left; reflexivity | right; right; reflexivity].
Qed.

Lemma find_last_submission_page_eq remote total t :
  _find_last_submission_page remote total t =
  match find_loop remote (Z.to_nat total) 1 total empty_json t with
  | (Ok (lo, last), t1) =>
      if dict_is_empty last then
        match remote (Some lo) with
        | Some page => (Ok (lo, page), t1 ++ [Some lo])
        | None => (Err HTTPError, t1 ++ [Some lo])
        end
      else (Ok (lo, last), t1)
  | (Err e, t1) => (Err e, t1)
  end.
Proof.
  unfold _find_last_submission_page, bind at 1.
  destruct (find_loop remote (Z.to_nat total) 1 total empty_json t) as [[[lo last]|e] t1];
    [|reflexivity].
  destruct (dict_is_empty last); [|reflexivity].
  unfold bind, _get_json, ret. destruct (remote (Some lo)); reflexivity.
Qed.

Lemma locator_any (remote : oracle) (total : Z) (t : trace) :
  (forall l j t', _find_last_submission_page remote total t = (Ok (l, j), t') ->
     exists fetched,
       t' = t ++ map Some fetched
       /\ 1 <= l <= Z.max 1 total
       /\ remote (Some l) = Some j
       /\ In l fetched
       /\ Forall (fun p => 1 <= p <= Z.max 1 total) fetched
       /\ Z.of_nat (List.length fetched) <= Z.log2_up total + 1
       /\ (l = 1 \/ _page_has_submissions j = Ok true))
  /\ (forall e t', _find_last_submission_page remote total t = (Err e, t') -> locator_error e).
Proof.
  rewrite find_last_submission_page_eq.
  destruct (find_loop_any remote (Z.to_nat total) 1 total empty_json t ltac:(lia)) as [Ho He].
  destruct (find_loop remote (Z.to_nat total) 1 total empty_json t) as [[[lo last]|e0] t1] eqn:F.
  2:{ split; [intros l j t' H; discriminate H|]. intros e t' [= <- _]. apply (He _ _ eq_refl). }
  destruct (Ho lo last t1 eq_refl) as (mids & -> & Hl & Len & Fm & D).
  replace (total - 1 + 1) with total in Len by lia.
  assert (Fm' : Forall (fun p => 1 <= p <= Z.max 1 total) mids).
  { eapply Forall_impl; [|exact Fm]. cbv beta. intros; lia. }
  destruct D as [[-> ->]|(Rl & Sl & Il)].
  - cbn [dict_is_empty empty_json pagination leaderboardRows].
    destruct (remote (Some 1)) as [page|] eqn:R1.
    + split; [|intros e t' H; discriminate H].
      intros l j t' H. inversion H; subst. exists (mids ++ [1]).
      rewrite map_app, app_assoc, length_app. cbn [map List.length].
      split; [reflexivity|]. split; [lia|]. split; [exact R1|].
      split; [apply in_or_app; right; left; reflexivity|].
      split; [apply Forall_app; split; [exact Fm' | constructor; [lia | constructor]]|].
      split; [lia | left; reflexivity].
    + split; [intros l j t' H; discriminate H|].
      intros e t' [= <- _]. left. reflexivity.
  - rewrite (has_submissions_not_empty _ Sl).
    split; [|intros e t' H; discriminate H].
    intros l j t' H. inversion H; subst. exists mids.
    split; [reflexivity|]. split; [lia|]. split; [exact Rl|]. split; [exact Il|].
    split; [exact Fm'|]. split; [lia | right; exact Sl].
Qed.

(** X6.  The locator against any remote, monotone or not.  When it returns
    page [l] with body [j]: its fetches are pages of [1 .. max(1, total_pages)],
    at most [ceil(log2 total_pages) + 1] of them, page [l] among them; [l] is
    in that range; [j] is what the remote serves for page [l]; and [l] is 1 or
    [j] has a submission.  When it fails, a fetch failed or a page had a row
    whose [scores] could not be indexed: the loop itself always ends. *)
Theorem find_last_submission_page_any_remote (remote : oracle) (total : Z) (t : trace) :
  (forall l j t', _find_last_submission_page remote total t = (Ok (l, j), t') ->
     exists fetched,
       t' = t ++ map Some fetched
       /\ 1 <= l <= Z.max 1 total
       /\ remote (Some l) = Some j
       /\ In l fetched
       /\ Forall (fun p => 1 <= p <= Z.max 1 total) fetched
       /\ Z.of_nat (List.length fetched) <= Z.log2_up total + 1
       /\ (l = 1 \/ _page_has_submissions j = Ok true))
  /\ (forall e t', _find_last_submission_page remote total t = (Err e, t') -> locator_error e).
Proof. apply locator_any. Qed.

(** ** The sampler with a negative bucket count *)

Lemma bucket_mids_step_1 total :
  1 <= total -> bucket_mids total 1 = map Z.of_nat (seq 1 (Z.to_nat total)).
Proof.
  intros Ht. rewrite bucket_mids_seq, range_len_pages by lia.
  rewrite Z.div_1_r. replace (total - 1 + 1) with total by lia.
  rewrite <- seq_shift, map_map. apply map_ext_in. intros i Hi. apply in_seq in Hi.
  unfold bucket_mid. rewrite Z.mul_1_r.
  replace (Z.min total (1 + Z.of_nat i + 1 - 1)) with (1 + Z.of_nat i) by lia.
  replace (1 + Z.of_nat i + (1 + Z.of_nat i)) with ((1 + Z.of_nat i) * 2) by lia.
  rewrite Z.div_mul by lia. lia.
Qed.

Lemma negative_quotient_bounds a b :
  1 <= a -> b < 0 -> (- inject_Z a <= inject_Z a / inject_Z b /\ inject_Z a / inject_Z b < 0)%Q.
Proof.
  intros Ha Hb.
  assert (Qa : (1 <= inject_Z a)%Q) by (unfold Qle; simpl; lia).
  assert (Qb : (1 <= inject_Z (- b))%Q) by (unfold Qle; simpl; lia).
  assert (E : (inject_Z a / inject_Z b == - (inject_Z a / inject_Z (- b)))%Q).
  { rewrite inject_Z_opp in *. field. lra. }
  rewrite E.
  assert (P : (0 < inject_Z a / inject_Z (- b))%Q).
  { apply Qlt_shift_div_l; lra. }
  assert (U : (inject_Z a / inject_Z (- b) <= inject_Z a)%Q).
  { apply Qle_shift_div_r; [lra|]. 
    setoid_replace (inject_Z a) with (inject_Z a * 1)%Q at 1 by ring.
    apply Qmult_le_l; lra. }
  split; lra.
Qed.

(** X7.  Nothing guards a negative [buckets] either: for a boundary page
    from 1 to 2^53 and a negative bucket count the quotient is negative, the
    step is [max(1, _) = 1], and the sampler returns every page
    [1 .. boundary_page]. *)
Theorem make_page_samples_negative_buckets (total target : Z) :
  1 <= total <= 2 ^ 53 -> target < 0 ->
  _make_page_samples total target = Ok (map Z.of_nat (seq 1 (Z.to_nat total)))
  /\ Z.of_nat (List.length (map Z.of_nat (seq 1 (Z.to_nat total)))) = total.
Proof.
  intros Ht Hb. split; [|rewrite length_map, length_seq; lia].
  unfold _make_page_samples. destruct (Z.leb_spec total 0) as [L|L]; [lia|].
  destruct (negative_quotient_bounds total target ltac:(lia) Hb) as [X0 X1].
  set (x := (inject_Z total / inject_Z target)%Q) in *.
  assert (R1 : (rnd x <= 0)%Q).
  { apply Qle_trans with (rnd 0); [apply rnd_le; lra | rewrite rnd_0; lra]. }
  assert (R0 : (- inject_Z total <= rnd x)%Q).
  { apply Qle_trans with (rnd (inject_Z (- total))).
    - rewrite rnd_Z by lia. rewrite inject_Z_opp. lra.
    - apply rnd_le. rewrite inject_Z_opp. exact X0. }
  assert (H53 : (inject_Z total <= inject_Z (2 ^ 53))%Q) by (rewrite <- Zle_Qle; lia).
  assert (G : (inject_Z (2 ^ 53) < huge)%Q) by reflexivity.
  unfold truediv. destruct (Z.eqb_spec target 0); [lia|]. fold x.
  rewrite round_fin by lra. cbn [rbind ceil].
  assert (C : Qceiling (rnd x) <= 0) by (apply Qceiling_le_Z; exact R1).
  replace (Z.max 1 (Qceiling (rnd x))) with 1 by lia.
  rewrite sorted_set_sorted_id by (apply bucket_mids_sorted; lia).
  rewrite bucket_mids_step_1 by lia. reflexivity.
Qed.

Lemma make_page_samples_negative_buckets_witness :
  _make_page_samples 4 (-3) = Ok (map Z.of_nat (seq 1 (Z.to_nat 4)))
  /\ Z.of_nat (List.length (map Z.of_nat (seq 1 (Z.to_nat 4)))) = 4.
Proof. apply (make_page_samples_negative_buckets 4 (-3)); lia. Defined.

(** ** The fetches of a request *)

Lemma sample_loop_trace remote fst_page lsp lsj tc ts pages : forall acc t acc' t',
  sample_loop remote fst_page lsp lsj tc ts pages acc t = (Ok acc', t') ->
  t' = t ++ map Some (to_fetch lsp pages).
Proof.
  induction pages as [|p pages IH]; intros [[pts sub] tot] t acc' t' H.
  - cbn [sample_loop] in H. apply ret_ok_inv in H. destruct H as [_ ->].
    cbn. rewrite app_nil_r. reflexivity.
  - cbn [sample_loop] in H.
    apply bind_ok_inv in H. destruct H as (page & t1 & G & H).
    apply bind_ok_inv in H. destruct H as ([[pts1 sub1] tot1] & t2 & E & H).
    apply lift_ok_inv in E. destruct E as [_ ->].
    apply IH in H. subst t'. unfold to_fetch. cbn [filter].
    destruct (p =? 1).
    + apply ret_ok_inv in G. destruct G as [_ ->]. reflexivity.
    + destruct (p =? lsp).
      * apply ret_ok_inv in G. destruct G as [_ ->]. reflexivity.
      * unfold _get_json in G. inversion G; subst. cbn [negb andb map].
        rewrite <- app_assoc. reflexivity.
Qed.

Lemma with_page_1_sorted l :
  StronglySorted Z.lt l -> Forall (fun p => 1 <= p) l ->
  StronglySorted Z.lt (with_page_1 l) /\ In 1 (with_page_1 l)
  /\ (forall p, In p (with_page_1 l) -> p = 1 \/ In p l)
  /\ (List.length (with_page_1 l) <= S (List.length l))%nat
  /\ (List.length l <= List.length (with_page_1 l))%nat.
Proof.
  intros S F. unfold with_page_1.
  destruct (existsb (Z.eqb 1) l) eqn:E.
  - apply existsb_exists in E. destruct E as (x & I & Ex). apply Z.eqb_eq in Ex. subst x.
    repeat split; auto.
  - assert (N : Forall (fun p => 1 < p) l).
    { rewrite Forall_forall in *. intros p Ip.
      assert (A := F p Ip).
      destruct (Z.eq_dec p 1) as [->|Ne]; [|lia].
      exfalso. assert (X : existsb (Z.eqb 1) l = true) by (apply existsb_exists; exists 1; split; [exact Ip | reflexivity]).
      congruence. }
    assert (S1 : StronglySorted Z.lt (1 :: l)) by (constructor; assumption).
    rewrite (py_sort_sorted_id _ S1).
    repeat split; auto.
    + left; reflexivity.
    + intros p [<-|I]; auto.
    + simpl. lia.
Qed.

Lemma filter_length_le {A} (f : A -> bool) l : (List.length (filter f l) <= List.length l)%nat.
Proof. induction l as [|x l IH]; simpl; [lia|]. destruct (f x); simpl; lia. Qed.

Lemma to_fetch_without_1 lsp l :
  NoDup l -> In 1 l -> (S (List.length (to_fetch lsp l)) <= List.length l)%nat.
Proof.
  induction 1 as [|x l Nx N IH]; intros I; [destruct I|].
  unfold to_fetch in *. cbn [filter List.length]. destruct I as [->|I].
  - cbn. assert (L := filter_length_le (fun p => negb (p =? 1) && negb (p =? lsp)) l). lia.
  - specialize (IH I). destruct (negb (x =? 1) && negb (x =? lsp)); cbn [List.length]; lia.
Qed.

Lemma to_fetch_spec lsp l p :
  In p (to_fetch lsp l) <-> In p l /\ p <> 1 /\ p <> lsp.
Proof.
  unfold to_fetch. rewrite filter_In.
  destruct (Z.eqb_spec p 1), (Z.eqb_spec p lsp); cbn; intuition (try discriminate; try lia).
Qed.

Lemma make_page_samples_pages total target l :
  _make_page_samples total target = Ok l ->
  StronglySorted Z.lt l /\ Forall (fun p => 1 <= p <= Z.max 1 total) l.
Proof.
  intros E. destruct (Z_le_gt_dec total 0) as [L|L].
  - unfold _make_page_samples in E. destruct (Z.leb_spec total 0); [|lia].
    inversion E; subst. split; [repeat constructor|]. repeat constructor; lia.
  - destruct (make_page_samples_inv total target l ltac:(lia) E) as (q & _ & ->).
    split; [apply bucket_mids_sorted; lia|].
    eapply Forall_impl; [|apply bucket_mids_in_range; lia]. cbv beta. intros; lia.
Qed.

Lemma make_page_samples_count total target l :
  total <= 2 ^ 53 -> 1 <= target ->
  _make_page_samples total target = Ok l -> Z.of_nat (List.length l) <= target.
Proof.
  intros Ht Hb E. destruct (Z_le_gt_dec total 0) as [L|L].
  - unfold _make_page_samples in E. destruct (Z.leb_spec total 0); [|lia].
    inversion E; subst. simpl. lia.
  - destruct (make_page_samples_inv total target l ltac:(lia) E) as (q & T & ->).
    destruct (truediv_ceiling total target ltac:(lia) Hb) as (q' & T' & C).
    rewrite T in T'. inversion T'; subst q'. rewrite C.
    destruct (quotient_ceiling total target ltac:(lia) ltac:(lia)) as (C1 & C2 & C3).
    set (c := Qceiling (inject_Z total / inject_Z target)) in *.
    replace (Z.max 1 c) with c by lia.
    apply bucket_mids_count; lia.
Qed.

Lemma compute_curve_ok_inv remote bp b t pl t' :
  compute_curve remote bp b t = (Ok pl, t') ->
  exists page0 tp tc l j ts t1 sp all sub tot rate,
    remote None = Some page0
    /\ int_or_0 (totalPages (pagination_of page0)) = Ok tp
    /\ int_or_0 (totalCompetitors (pagination_of page0)) = Ok tc
    /\ _find_last_submission_page remote tp (t ++ [None]) = (Ok (l, j), t1)
    /\ _max_submitted_rank j = Ok ts
    /\ _make_page_samples l b = Ok sp
    /\ sample_loop remote page0 l j tc ts (with_page_1 sp) ([], 0, 0) t1 = (Ok (all, sub, tot), t')
    /\ submission_rate sub tot = Ok rate
    /\ pl = mkPayload
              (mkMeta 2026 "open" (p_division bp) (p_region bp) (p_scaled bp)
                      (p_view bp) (p_sort bp) tp tc l ts
                      (Z.of_nat (List.length (with_page_1 sp))) tot sub rate the_note)
              (sort_by_percentile (dict_values (merge_points all))).
Proof.
  unfold compute_curve, locate_boundary. intros H.
  apply bind_ok_inv in H. destruct H as (loc & t1 & L & H).
  apply bind_ok_inv in L. destruct L as (page0 & u1 & G & L).
  unfold _get_json in G. destruct (remote None) as [body|] eqn:R0; [|discriminate].
  inversion G; subst body u1. clear G.
  apply bind_ok_inv in L. destruct L as (tp & u2 & E1 & L).
  apply lift_ok_inv in E1. destruct E1 as [E1 ->].
  apply bind_ok_inv in L. destruct L as (tc & u3 & E2 & L).
  apply lift_ok_inv in E2. destruct E2 as [E2 ->].
  apply bind_ok_inv in L. destruct L as ([l j] & u4 & F & L).
  apply bind_ok_inv in L. destruct L as (ts & u5 & E3 & L).
  apply lift_ok_inv in E3. destruct E3 as [E3 ->].
  apply ret_ok_inv in L. destruct L as [-> ->].
  cbn [last_sub_page first last_sub_json total_competitors total_submitted total_pages] in H.
  apply bind_ok_inv in H. destruct H as (sp & t2 & S & H).
  apply lift_ok_inv in S. destruct S as [S ->].
  apply bind_ok_inv in H. destruct H as ([[all sub] tot] & t3 & A & H).
  apply bind_ok_inv in H. destruct H as (rate & t4 & R & H).
  apply lift_ok_inv in R. destruct R as [R ->].
  apply ret_ok_inv in H. destruct H as [-> ->].
  exists page0, tp, tc, l, j, ts, u4, sp, all, sub, tot, rate.
  repeat split; assumption.
Qed.

Lemma sorted_count_le (l : list Z) (lo hi : Z) :
  StronglySorted Z.lt l -> (forall p, In p l -> lo <= p <= hi) ->
  Z.of_nat (List.length l) <= Z.max 0 (hi - lo + 1).
Proof.
  revert lo. induction l as [|x r IH]; intros lo S B; [simpl; lia|].
  inversion S as [|? ? Sr Fx]; subst. cbn [List.length]. rewrite Nat2Z.inj_succ.
  assert (Bx := B x (or_introl eq_refl)).
  assert (Z.of_nat (List.length r) <= Z.max 0 (hi - (x + 1) + 1)).
  { apply IH; [exact Sr|]. intros p Ip. rewrite Forall_forall in Fx. specialize (Fx p Ip).
    specialize (B p (or_intror Ip)). lia. }
  lia.
Qed.

Lemma to_fetch_sorted lsp l : StronglySorted Z.lt l -> StronglySorted Z.lt (to_fetch lsp l).
Proof.
  unfold to_fetch. induction 1 as [|x r Sr IH Fx]; cbn [filter]; [constructor|].
  destruct (negb (x =? 1) && negb (x =? lsp)); [|exact IH].
  constructor; [exact IH|]. rewrite Forall_forall in *. intros y Iy.
  apply filter_In in Iy. apply Fx, Iy.
Qed.

(** The pages sampled for a boundary page [l], page 1 included. *)
Lemma sampled_pages_facts l b sp :
  1 <= l -> _make_page_samples l b = Ok sp ->
  StronglySorted Z.lt (with_page_1 sp)
  /\ In 1 (with_page_1 sp)
  /\ (forall p, In p (with_page_1 sp) -> 1 <= p <= l)
  /\ 1 <= Z.of_nat (List.length (with_page_1 sp)) <= l
  /\ Z.of_nat (List.length (to_fetch l (with_page_1 sp))) < Z.of_nat (List.length (with_page_1 sp))
  /\ (1 <= b -> l <= 2 ^ 53 ->
      Z.of_nat (List.length (to_fetch l (with_page_1 sp))) <= b
      /\ Z.of_nat (List.length (with_page_1 sp)) <= b + 1).
Proof.
  intros Hl SP.
  destruct (make_page_samples_pages _ _ _ SP) as [So Fo].
  rewrite Z.max_r in Fo by lia.
  destruct (with_page_1_sorted sp So) as (S1 & I1 & Sub & L1 & L2).
  { eapply Forall_impl; [|exact Fo]. cbv beta; intros; lia. }
  assert (N1 : NoDup (with_page_1 sp)) by (apply strictly_sorted_NoDup, S1).
  assert (Lf := to_fetch_without_1 l _ N1 I1).
  assert (In1 : forall p, In p (with_page_1 sp) -> 1 <= p <= l).
  { intros p Ip. destruct (Sub p Ip) as [->|I]; [lia|].
    rewrite Forall_forall in Fo. apply Fo, I. }
  assert (Cnt := sorted_count_le _ 1 l S1 In1).
  split; [exact S1|]. split; [exact I1|]. split; [exact In1|].
  split; [split; [destruct (with_page_1 sp); [destruct I1 | simpl; lia] | lia]|].
  split; [lia|].
  intros Hb H53. assert (C := make_page_samples_count l b sp H53 Hb SP). lia.
Qed.

(** The fetches of a computed curve: the first page, the locator's pages,
    then the sampled pages other than page 1 and the boundary. *)
Lemma compute_curve_fetch_structure remote bp buckets pl t :
  compute_curve remote bp buckets [] = (Ok pl, t) ->
  let m := p_meta pl in
  exists located sampled,
    t = None :: map Some located ++ map Some sampled
    /\ Z.of_nat (List.length located) <= Z.log2_up (m_totalPages m) + 1
    /\ In (lastSubmissionPage m) located
    /\ 1 <= lastSubmissionPage m <= Z.max 1 (m_totalPages m)
    /\ StronglySorted Z.lt sampled
    /\ Forall (fun p => 1 < p < lastSubmissionPage m) sampled
    /\ Z.of_nat (List.length sampled) < sampledPages m
    /\ (1 <= buckets -> lastSubmissionPage m <= 2 ^ 53 ->
        Z.of_nat (List.length sampled) <= buckets).
Proof.
  intros H.
  destruct (compute_curve_ok_inv _ _ _ _ _ _ H)
    as (page0 & tp & tc & l & j & ts & t1 & sp & all & sub & tot & rate
        & R0 & TP & TC & F & MR & SP & SL & SR & ->).
  cbn [p_meta m_totalPages lastSubmissionPage sampledPages].
  destruct (locator_any remote tp ([] ++ [None])) as [Ho _].
  destruct (Ho l j t1 F) as (fetched & -> & Hl & Rl & Il & Ff & Len & _).
  apply sample_loop_trace in SL. subst t.
  destruct (sampled_pages_facts l buckets sp ltac:(lia) SP) as (S1 & I1 & In1 & Cnt & Lt & Bd).
  exists fetched, (to_fetch l (with_page_1 sp)).
  split; [rewrite <- app_assoc; reflexivity|].
  split; [exact Len|]. split; [exact Il|]. split; [exact Hl|].
  split; [apply to_fetch_sorted, S1|].
  split.
  { apply Forall_forall. intros p Ip. apply to_fetch_spec in Ip.
    destruct Ip as (Ip & P1 & Pl). specialize (In1 p Ip). lia. }
  split; [exact Lt|].
  intros Hb H53. apply (Bd Hb H53).
Qed.

Lemma compute_curve_fetches_first remote bp b pl t :
  compute_curve remote bp b [] = (Ok pl, t) -> t <> [].
Proof.
  intros H. destruct (compute_curve_fetch_structure _ _ _ _ _ H) as (lo & sa & -> & _).
  discriminate.
Qed.

(** ** The cache *)

(** The two ways [api_curve] answers with a payload. *)
Lemma api_curve_cases remote now req c pl t c' :
  api_curve remote now req c = (Ok pl, t, c') ->
  exists b,
    PyStr.int_of_string (arg_or (arg_buckets req) "20") = Ok b
    /\ ((exists cached,
           dict_get String.eqb (_cache_key (base_params_of req) b) c = Some cached
           /\ ltb (sub now (ts cached)) CACHE_TTL_SECONDS = true
           /\ pl = entry_payload cached /\ t = [] /\ c' = c)
        \/ (compute_curve (remote (base_params_of req)) (base_params_of req) b [] = (Ok pl, t)
            /\ c' = dict_set String.eqb (_cache_key (base_params_of req) b) (mkEntry now pl) c)).
Proof.
  unfold api_curve. destruct (PyStr.int_of_string _) as [b|e]; [|discriminate].
  intros H. exists b. split; [reflexivity|].
  set (bp := base_params_of req) in *. set (ck := _cache_key bp b) in *.
  assert (Fresh :
    match compute_curve (remote bp) bp b [] with
    | (Ok pl0, t0) => (Ok pl0, t0, dict_set String.eqb ck (mkEntry now pl0) c)
    | (Err e, t0) => (Err e, t0, c)
    end = (Ok pl, t, c') ->
    compute_curve (remote bp) bp b [] = (Ok pl, t)
    /\ c' = dict_set String.eqb ck (mkEntry now pl) c).
  { destruct (compute_curve (remote bp) bp b []) as [[pl0|e] t0]; [|discriminate].
    intros [= -> -> <-]. split; reflexivity. }
  destruct (dict_get String.eqb ck c) as [cached|] eqn:G; [|right; apply Fresh, H].
  destruct (ltb (sub now (ts cached)) CACHE_TTL_SECONDS) eqn:L; [|right; apply Fresh, H].
  left. exists cached. inversion H; subst. split; [reflexivity|]. split; [exact L|]. repeat split.
Qed.

(** X8.  The fetches of a request that is answered.  Either none is made
    (the answer comes from the cache), or they are, in this order: the first
    page without a [page] parameter; the pages of the binary search, at most
    [ceil(log2 totalPages) + 1] of them, the boundary page among them; then
    the sampled pages in ascending order, each strictly between page 1 and
    the boundary page, so that neither of those two is fetched again, and
    fewer than [sampledPages] of them.  For [buckets >= 1] and at most 2^53
    pages, no more than [buckets] sampled pages are fetched, and the request
    makes at most [ceil(log2 totalPages) + buckets + 2] fetches. *)
Theorem api_curve_fetches (remote : params -> oracle) (now : float) (req : request)
  (c c' : cache) (pl : payload) (t : trace) (buckets : Z) :
  api_curve remote now req c = (Ok pl, t, c') ->
  PyStr.int_of_string (arg_or (arg_buckets req) "20") = Ok buckets ->
  let m := p_meta pl in
  (t = []
   \/ exists located sampled,
        t = None :: map Some located ++ map Some sampled
        /\ Z.of_nat (List.length located) <= Z.log2_up (m_totalPages m) + 1
        /\ In (lastSubmissionPage m) located
        /\ StronglySorted Z.lt sampled
        /\ Forall (fun p => 1 < p < lastSubmissionPage m) sampled
        /\ Z.of_nat (List.length sampled) < sampledPages m
        /\ (1 <= buckets -> m_totalPages m <= 2 ^ 53 ->
            Z.of_nat (List.length sampled) <= buckets))
  /\ (1 <= buckets -> m_totalPages m <= 2 ^ 53 ->
      Z.of_nat (List.length t) <= Z.log2_up (m_totalPages m) + buckets + 2).
Proof.
  intros H B m. destruct (api_curve_cases _ _ _ _ _ _ _ H) as (b & B' & D).
  rewrite B in B'. inversion B'; subst b. clear B'.
  destruct D as [(cached & _ & _ & _ & -> & _)|[Cc _]].
  - split; [left; reflexivity|]. intros Hb _. simpl.
    assert (L := Z.log2_up_nonneg (m_totalPages m)). lia.
  - destruct (compute_curve_fetch_structure _ _ _ _ _ Cc)
      as (located & sampled & -> & Len & Il & Hl & So & Fo & Lt & Bd).
    fold m in Len, Il, Hl, Fo, Lt, Bd. split.
    + right. exists located, sampled.
      split; [reflexivity|]. split; [exact Len|]. split; [exact Il|]. split; [exact So|].
      split; [exact Fo|]. split; [exact Lt|].
      intros Hb H53. apply Bd; [exact Hb | lia].
    + intros Hb H53. specialize (Bd Hb ltac:(lia)).
      cbn [List.length]. rewrite length_app, !length_map. lia.
Qed.

Lemma api_curve_fetches_witness :
  exists pl t c',
    api_curve (fun _ => demo_oracle) (Fin 0) (demo_request "3") [] = (Ok pl, t, c')
    /\ (let m := p_meta pl in
        (t = []
         \/ exists located sampled,
              t = None :: map Some located ++ map Some sampled
              /\ Z.of_nat (List.length located) <= Z.log2_up (m_totalPages m) + 1
              /\ In (lastSubmissionPage m) located
              /\ StronglySorted Z.lt sampled
              /\ Forall (fun p => 1 < p < lastSubmissionPage m) sampled
              /\ Z.of_nat (List.length sampled) < sampledPages m
              /\ (1 <= 3 -> m_totalPages m <= 2 ^ 53 ->
                  Z.of_nat (List.length sampled) <= 3))
        /\ (1 <= 3 -> m_totalPages m <= 2 ^ 53 ->
            Z.of_nat (List.length t) <= Z.log2_up (m_totalPages m) + 3 + 2)).
Proof.
  destruct (api_curve (fun _ => demo_oracle) (Fin 0) (demo_request "3") [])
    as [[[pl|e] t] c'] eqn:E; [|vm_compute in E; discriminate E].
  exists pl, t, c'. split; [reflexivity|].
  apply (api_curve_fetches (fun _ => demo_oracle) (Fin 0) (demo_request "3") [] c' pl t 3 E).
  reflexivity.
Defined.

(** X9.  A request that was computed (it made fetches) is answered from the
    cache when it is repeated less than 60 seconds later: with the same
    payload, without a fetch, whatever the remote would answer by then, and
    without a change to the cache. *)
Theorem cache_serves_repeat (remote remote' : params -> oracle) (now now' : float)
  (req : request) (c c' : cache) (pl : payload) (t : trace) :
  api_curve remote now req c = (Ok pl, t, c') ->
  t <> [] ->
  ltb (sub now' now) CACHE_TTL_SECONDS = true ->
  api_curve remote' now' req c' = (Ok pl, [], c').
Proof.
  intros H Ht Fresh. destruct (api_curve_cases _ _ _ _ _ _ _ H) as (b & B & D).
  destruct D as [(cached & _ & _ & _ & -> & _)|[_ ->]]; [congruence|].
  unfold api_curve. rewrite B.
  rewrite (dict_get_set_same String.eqb String.eqb_spec). cbn [ts entry_payload].
  rewrite Fresh. reflexivity.
Qed.

Lemma cache_serves_repeat_witness :
  exists pl t c',
    api_curve (fun _ => demo_oracle) (Fin 0) (demo_request "3") [] = (Ok pl, t, c')
    /\ api_curve (fun _ => demo_oracle_without_pagination) (Fin (599 # 10)) (demo_request "3") c'
       = (Ok pl, [], c').
Proof.
  destruct (api_curve (fun _ => demo_oracle) (Fin 0) (demo_request "3") [])
    as [[[pl|e] t] c'] eqn:E; [|vm_compute in E; discriminate E].
  exists pl, t, c'. split; [reflexivity|].
  apply (cache_serves_repeat (fun _ => demo_oracle) (fun _ => demo_oracle_without_pagination)
           (Fin 0) (Fin (599 # 10)) (demo_request "3") [] c' pl t E).
  - intros ->. vm_compute in E. discriminate E.
  - vm_compute. reflexivity.
Defined.

(** X10.  The cache only grows.  A request that fails, or that makes no
    fetch, leaves it as it was.  Any request adds at most one entry, and every
    entry the cache holds afterwards was there before or is stamped with the
    time of this request and holds the payload it returns.  No key is ever
    removed, that of an entry past its time to live included. *)
Theorem cache_only_grows (remote : params -> oracle) (now : float) (req : request) (c : cache) :
  let r := fst (fst (api_curve remote now req c)) in
  let t := snd (fst (api_curve remote now req c)) in
  let c' := snd (api_curve remote now req c) in
  (forall e, r = Err e -> c' = c)
  /\ (t = [] -> c' = c)
  /\ (forall k, In k (dict_keys c) -> In k (dict_keys c'))
  /\ (List.length c <= List.length c' <= S (List.length c))%nat
  /\ (forall k e, dict_get String.eqb k c' = Some e ->
        dict_get String.eqb k c = Some e
        \/ (e = mkEntry now (entry_payload e) /\ r = Ok (entry_payload e) /\ t <> [])).
Proof.
  destruct (api_curve remote now req c) as [[[pl|e] t] c'] eqn:H; cbn [fst snd].
  - destruct (api_curve_cases _ _ _ _ _ _ _ H) as (b & B & D).
    destruct D as [(cached & _ & _ & _ & -> & ->)|[Cc ->]].
    + repeat split; auto; lia.
    + assert (Ne := compute_curve_fetches_first _ _ _ _ _ Cc).
      set (ck := _cache_key (base_params_of req) b).
      assert (K := dict_keys_set String.eqb String.eqb_spec ck (mkEntry now pl) c).
      assert (Len : List.length (dict_keys (dict_set String.eqb ck (mkEntry now pl) c))
                    = List.length (dict_set String.eqb ck (mkEntry now pl) c))
        by (unfold dict_keys; apply length_map).
      assert (Len0 : List.length (dict_keys c) = List.length c)
        by (unfold dict_keys; apply length_map).
      split; [discriminate|]. split; [intros E; congruence|]. split; [|split].
      * intros k I. rewrite K. destruct (dict_get String.eqb ck c); [exact I|].
        apply in_or_app. left. exact I.
      * rewrite <- Len, K, <- Len0.
        destruct (dict_get String.eqb ck c); [lia|]. rewrite length_app. simpl. lia.
      * intros k e G. destruct (String.eqb_spec k ck) as [->|N].
        -- rewrite (dict_get_set_same String.eqb String.eqb_spec) in G.
           inversion G; subst e. right. cbn [entry_payload]. repeat split. exact Ne.
        -- rewrite (dict_get_set_other String.eqb String.eqb_spec) in G by exact N.
           left. exact G.
  - assert (E : c' = c).
    { unfold api_curve in H. destruct (PyStr.int_of_string _) as [b|e0]; [|inversion H; reflexivity].
      destruct (compute_curve _ _ _ _) as [[pl0|e1] t0];
        destruct (dict_get _ _ _) as [cached|]; try destruct (ltb _ _);
        inversion H; reflexivity. }
    subst c'. repeat split; auto.
Qed.

(** ** [str] of an integer, and the cache key *)

Lemma digit_char_val d : 0 <= d <= 9 ->
  PyStr.is_digit (PyStr.digit_char d) = true /\ PyStr.digit_val (PyStr.digit_char d) = d.
Proof.
  intros H.
  assert (C : d = 0 \/ d = 1 \/ d = 2 \/ d = 3 \/ d = 4 \/ d = 5 \/ d = 6 \/ d = 7 \/ d = 8 \/ d = 9) by lia.
  destruct C as [ -> | [ -> | [ -> | [ -> | [ -> | [ -> | [ -> | [ -> | [ -> | -> ] ] ] ] ] ] ] ] ];
    split; reflexivity.
Qed.

Lemma decimal_snoc g c : decimal (g ++ [c]) = 10 * decimal g + PyStr.digit_val c.
Proof. unfold decimal. rewrite fold_left_app. reflexivity. Qed.

(** [pos_digits] puts the decimal digits of [n] in front of [acc]. *)
Lemma pos_digits_decimal fuel : forall n acc,
  0 <= n -> n <= Z.of_nat fuel -> (0 < fuel)%nat ->
  exists ds, PyStr.pos_digits fuel n acc = ds ++ acc
             /\ ds <> [] /\ Forall (fun c => PyStr.is_digit c = true) ds
             /\ decimal ds = n.
Proof.
  induction fuel as [|f IH]; intros n acc Hn Hf Hp; [lia|].
  cbn [PyStr.pos_digits].
  assert (B := Z.mod_pos_bound n 10 ltac:(lia)).
  assert (D := Z.div_mod n 10 ltac:(lia)).
  destruct (digit_char_val (n mod 10) ltac:(lia)) as [Dg Dv].
  destruct (Z.eqb_spec (n / 10) 0) as [E|N].
  - exists [PyStr.digit_char (n mod 10)]. split; [reflexivity|]. split; [discriminate|].
    split; [repeat constructor; exact Dg|].
    unfold decimal. cbn [fold_left]. rewrite Dv. lia.
  - assert (P : 0 <= n / 10) by (apply Z.div_pos; lia).
    assert (L : n / 10 < n) by (apply Z.div_lt; lia).
    destruct (IH (n / 10) (PyStr.digit_char (n mod 10) :: acc) P ltac:(lia) ltac:(lia))
      as (ds & E & Ne & F & V).
    exists (ds ++ [PyStr.digit_char (n mod 10)]).
    split; [rewrite E, <- app_assoc; reflexivity|].
    split; [intros X; apply app_eq_nil in X; destruct X; discriminate|].
    split; [apply Forall_app; split; [exact F | repeat constructor; exact Dg]|].
    rewrite decimal_snoc, V, Dv. lia.
Qed.

Lemma chars_of_int_shape n :
  exists ds, ds <> [] /\ Forall (fun c => PyStr.is_digit c = true) ds
             /\ decimal ds = Z.abs n
             /\ PyStr.chars_of_int n = if n <? 0 then "-"%char :: ds else ds.
Proof.
  unfold PyStr.chars_of_int. destruct (Z.ltb_spec n 0) as [L|L].
  - destruct (pos_digits_decimal (Z.to_nat (- n)) (- n) [] ltac:(lia) ltac:(lia) ltac:(lia))
      as (ds & E & Ne & F & V).
    exists ds. rewrite E, app_nil_r. repeat split; auto. lia.
  - destruct (pos_digits_decimal (S (Z.to_nat n)) n [] ltac:(lia) ltac:(lia) ltac:(lia))
      as (ds & E & Ne & F & V).
    exists ds. rewrite E, app_nil_r. repeat split; auto. lia.
Qed.

Lemma chars_of_int_inj n m : PyStr.chars_of_int n = PyStr.chars_of_int m -> n = m.
Proof.
  destruct (chars_of_int_shape n) as (dn & Nn & Fn & Vn & ->).
  destruct (chars_of_int_shape m) as (dm & Nm & Fm & Vm & ->).
  destruct (Z.ltb_spec n 0), (Z.ltb_spec m 0); intros E.
  - inversion E; subst. lia.
  - destruct dm as [|c r]; [congruence|]. inversion E; subst.
    inversion Fm; subst. discriminate.
  - destruct dn as [|c r]; [congruence|]. inversion E; subst.
    inversion Fn; subst. discriminate.
  - subst. lia.
Qed.

Lemma string_of_list_ascii_inj a b :
  string_of_list_ascii a = string_of_list_ascii b -> a = b.
Proof.
  intros H. apply (f_equal list_ascii_of_string) in H.
  rewrite !list_ascii_of_string_of_list_ascii in H. exact H.
Qed.

Lemma string_of_int_inj n m : PyStr.string_of_int n = PyStr.string_of_int m -> n = m.
Proof. intros H. apply chars_of_int_inj, string_of_list_ascii_inj, H. Qed.

Lemma digit_not_ampersand c : PyStr.is_digit c = true -> Ascii.eqb c "&" = false.
Proof.
  intros H. destruct (Ascii.eqb_spec c "&") as [->|]; [discriminate H | reflexivity].
Qed.

Lemma string_of_int_no_ampersand n : has_ampersand (PyStr.string_of_int n) = false.
Proof.
  unfold PyStr.string_of_int.
  destruct (chars_of_int_shape n) as (ds & _ & F & _ & ->).
  assert (A : has_ampersand (string_of_list_ascii ds) = false).
  { induction F as [|c r Hc _ IH]; [reflexivity|]. cbn [string_of_list_ascii has_ampersand].
    rewrite (digit_not_ampersand c Hc), IH. reflexivity. }
  destruct (n <? 0); [|exact A]. cbn [string_of_list_ascii has_ampersand]. rewrite A. reflexivity.
Qed.

(** Two strings cut at their first ampersand. *)
Lemma append_ampersand_inj a b r1 r2 :
  has_ampersand a = false -> has_ampersand b = false ->
  (a ++ String "&" r1 = b ++ String "&" r2)%string -> a = b /\ r1 = r2.
Proof.
  revert b. induction a as [|x a IH]; intros [|y b] Ha Hb E; cbn in *.
  - inversion E. auto.
  - inversion E; subst. rewrite Ascii.eqb_refl in Hb. discriminate.
  - inversion E; subst. rewrite Ascii.eqb_refl in Ha. discriminate.
  - apply orb_false_iff in Ha, Hb. destruct Ha as [_ Ha], Hb as [_ Hb].
    inversion E; subst. destruct (IH b Ha Hb H1) as [-> ->]. auto.
Qed.

Lemma append_inv_head p x y : (p ++ x = p ++ y)%string -> x = y.
Proof. induction p as [|c p IH]; cbn; [auto|]. intros [= E]. apply IH, E. Qed.

Lemma key_field_inj lit a b r1 r2 :
  has_ampersand a = false -> has_ampersand b = false ->
  (a ++ String "&" (lit ++ r1) = b ++ String "&" (lit ++ r2))%string -> a = b /\ r1 = r2.
Proof.
  intros Ha Hb E. destruct (append_ampersand_inj _ _ _ _ Ha Hb E) as [-> E'].
  split; [reflexivity | apply (append_inv_head lit), E'].
Qed.

(** X11.  The cache key determines the request: when none of [division],
    [region], [scaled] and [sort] contains the separator [&], two requests
    with the same key have the same five filters and the same bucket count,
    so that the cache never answers one request with the payload of
    another. *)
Theorem cache_key_injective (bp bp' : params) (b b' : Z) :
  has_ampersand (p_division bp) = false -> has_ampersand (p_division bp') = false ->
  has_ampersand (p_region bp) = false -> has_ampersand (p_region bp') = false ->
  has_ampersand (p_scaled bp) = false -> has_ampersand (p_scaled bp') = false ->
  has_ampersand (p_sort bp) = false -> has_ampersand (p_sort bp') = false ->
  _cache_key bp b = _cache_key bp' b' -> bp = bp' /\ b = b'.
Proof.
  destruct bp as [v d r sc so], bp' as [v' d' r' sc' so']. cbn [p_view p_division p_region p_scaled p_sort].
  intros Hd Hd' Hr Hr' Hsc Hsc' Hso Hso' E.
  unfold _cache_key in E. cbn [p_view p_division p_region p_scaled p_sort] in E.
  apply (append_inv_head "buckets=") in E.
  apply (key_field_inj "division=") in E; try apply string_of_int_no_ampersand.
  destruct E as [Eb E]. apply string_of_int_inj in Eb. subst b'.
  apply (key_field_inj "region=") in E; try assumption. destruct E as [-> E].
  apply (key_field_inj "scaled=") in E; try assumption. destruct E as [-> E].
  apply (key_field_inj "sort=") in E; try assumption. destruct E as [-> E].
  apply (key_field_inj "view=") in E; try assumption. destruct E as [-> ->].
  split; reflexivity.
Qed.

Lemma cache_key_injective_witness :
  demo_params = mkParams "0" "1" "0" "0" "0" /\ 20 = 20.
Proof.
  apply (cache_key_injective demo_params (mkParams "0" "1" "0" "0" "0") 20 20);
    reflexivity.
Defined.

(** Without that hypothesis two requests can share a key. *)
Example cache_key_collision :
  _cache_key (mkParams "0" "1&region=2" "0" "0" "0") 20
  = _cache_key (mkParams "0" "1" "2&region=0" "0" "0") 20.
Proof. reflexivity. Qed.

(** ** What a payload says *)

Lemma extract_points_sound page fb ts pts sub tot :
  _extract_points_from_page page fb ts = Ok (pts, sub, tot) ->
  Forall (point_sound ts) pts /\ 0 <= tot.
Proof.
  unfold _extract_points_from_page. intros H.
  apply rbind_ok_inv in H. destruct H as (tc0 & _ & H).
  apply extract_rows_shape in H. destruct H as (-> & _ & new & -> & _ & F & _).
  set (tc := if tc0 =? 0 then fb else tc0) in *.
  split; [|lia]. cbn [app]. eapply Forall_impl; [|exact F]. intros p Pp.
  exists (if ts =? 0 then tc else ts). split; [exact Pp|].
  intros N. destruct (Z.eqb_spec ts 0); [contradiction | reflexivity].
Qed.

Lemma sample_loop_sound remote fst_page lsp lsj tc ts pages : forall pts0 s0 t0 t all sub tot t',
  sample_loop remote fst_page lsp lsj tc ts pages (pts0, s0, t0) t = (Ok (all, sub, tot), t') ->
  Forall (point_sound ts) pts0 -> 0 <= t0 ->
  Forall (point_sound ts) all /\ 0 <= tot.
Proof.
  induction pages as [|p pages IH]; intros pts0 s0 t0 t all sub tot t' H F T.
  - cbn [sample_loop] in H. apply ret_ok_inv in H. destruct H as [[= <- <- <-] _]. auto.
  - cbn [sample_loop] in H.
    apply bind_ok_inv in H. destruct H as (page & t1 & _ & H).
    apply bind_ok_inv in H. destruct H as ([[pts1 sub1] tot1] & t2 & E & H).
    apply lift_ok_inv in E. destruct E as [E ->].
    apply extract_points_sound in E. destruct E as [F1 T1].
    apply IH in H; [exact H | apply Forall_app; split; assumption | lia].
Qed.

Lemma merged_sorted_subset all p :
  In p (sort_by_percentile (dict_values (merge_points all))) -> In p all.
Proof.
  intros I. apply (Permutation_in _ (Permutation_sym (sort_by_percentile_perm _))) in I.
  unfold dict_values in I. apply in_map_iff in I. destruct I as ([k q] & E & I).
  simpl in E. subst q. destruct (merge_points_keys all) as [_ K]. apply (K k p I).
Qed.

Lemma compute_curve_sound remote bp b t pl t' :
  compute_curve remote bp b t = (Ok pl, t') -> payload_sound pl.
Proof.
  intros H.
  destruct (compute_curve_ok_inv _ _ _ _ _ _ H)
    as (page0 & tp & tc & l & j & ts & t1 & sp & all & sub & tot & rate
        & R0 & TP & TC & F & MR & SP & SL & SR & ->).
  unfold payload_sound.
  cbn [p_meta points m_totalPages lastSubmissionPage sampledPages totalSubmitted sampledRows].
  destruct (locator_any remote tp (t ++ [None])) as [Ho _].
  destruct (Ho l j t1 F) as (fetched & _ & Hl & _).
  destruct (max_rank_loop_spec _ _ _ MR) as (Ts & _).
  destruct (sampled_pages_facts l b sp ltac:(lia) SP) as (_ & _ & _ & Cnt & _).
  destruct (sample_loop_sound _ _ _ _ _ _ _ _ _ _ _ _ _ _ _ SL (Forall_nil _) ltac:(lia)) as [Fa Tt].
  split; [exact Hl|]. split; [exact Ts|]. split; [exact Cnt|]. split; [exact Tt|].
  apply Forall_forall. intros p Ip. apply merged_sorted_subset in Ip.
  rewrite Forall_forall in Fa. apply Fa, Ip.
Qed.

Lemma api_curve_err_cache remote now req c e t c' :
  api_curve remote now req c = (Err e, t, c') -> c' = c.
Proof.
  unfold api_curve. destruct (PyStr.int_of_string _) as [b|e0]; [|intros [= _ _ <-]; reflexivity].
  destruct (compute_curve _ _ _ _) as [[pl0|e1] t0];
    destruct (dict_get _ _ _) as [cached|]; try destruct (ltb _ _);
    intros H; inversion H; reflexivity.
Qed.

Lemma api_curve_sound remote now req c :
  cache_sound c ->
  cache_sound (snd (api_curve remote now req c))
  /\ forall pl, fst (fst (api_curve remote now req c)) = Ok pl -> payload_sound pl.
Proof.
  intros I. destruct (api_curve remote now req c) as [[[pl|e] t] c'] eqn:H; cbn [fst snd].
  - destruct (api_curve_cases _ _ _ _ _ _ _ H) as (b & B & D).
    destruct D as [(cached & G & _ & -> & _ & ->)|[Cc ->]].
    + split; [exact I|]. intros pl' [= <-].
      apply (dict_get_In String.eqb String.eqb_spec) in G.
      unfold cache_sound in I. rewrite Forall_forall in I. apply (I _ G).
    + assert (P := compute_curve_sound _ _ _ _ _ _ Cc). split.
      * apply (dict_set_Forall String.eqb String.eqb_spec); [exact I | exact P].
      * intros pl' [= <-]. exact P.
  - rewrite (api_curve_err_cache _ _ _ _ _ _ _ H). split; [exact I | discriminate].
Qed.

Lemma reachable_sound c : reachable c -> cache_sound c.
Proof.
  induction 1 as [|remote now req c R IH]; [constructor|].
  apply api_curve_sound, IH.
Qed.

Lemma api_curve_payload_sound remote now req c pl t c' :
  reachable c -> api_curve remote now req c = (Ok pl, t, c') -> payload_sound pl.
Proof.
  intros R E. apply reachable_sound in R.
  destruct (api_curve_sound remote now req c R) as [_ H]. apply H. rewrite E. reflexivity.
Qed.

(** X12.  Every point of a payload [api_curve] returns, computed or served
    from the cache, has a rank of 1 or more, a non-negative rep count and a
    percentile of at most 100.0; and when [totalSubmitted] is not 0, its
    percentile is that of its rank against [totalSubmitted]. *)
Theorem payload_points_sound (remote : params -> oracle) (now : float) (req : request)
  (c c' : cache) (pl : payload) (t : trace) :
  reachable c -> api_curve remote now req c = (Ok pl, t, c') ->
  Forall (fun p =>
            1 <= rank p /\ 0 <= reps p
            /\ leb (percentile p) (Fin 100) = true
            /\ (totalSubmitted (p_meta pl) <> 0 ->
                _percentile_from_rank (rank p) (totalSubmitted (p_meta pl)) = Ok (percentile p)))
         (points pl).
Proof.
  intros R E. destruct (api_curve_payload_sound _ _ _ _ _ _ _ R E) as (_ & _ & _ & _ & F).
  eapply Forall_impl; [|exact F]. cbv beta.
  intros p (base & (Hr & Hn & Hb & Hp) & Hts).
  split; [exact Hr|]. split; [exact Hn|]. split.
  - apply (percentile_le_100 _ _ _ Hb Hr Hp).
  - intros N. rewrite <- (Hts N). exact Hp.
Qed.

Lemma payload_points_sound_witness :
  exists pl t c',
    api_curve (fun _ => demo_oracle) (Fin 0) (demo_request "3") [] = (Ok pl, t, c')
    /\ Forall (fun p =>
                 1 <= rank p /\ 0 <= reps p
                 /\ leb (percentile p) (Fin 100) = true
                 /\ (totalSubmitted (p_meta pl) <> 0 ->
                     _percentile_from_rank (rank p) (totalSubmitted (p_meta pl))
                     = Ok (percentile p)))
              (points pl).
Proof.
  destruct (api_curve (fun _ => demo_oracle) (Fin 0) (demo_request "3") [])
    as [[[pl|e] t] c'] eqn:E; [|vm_compute in E; discriminate E].
  exists pl, t, c'. split; [reflexivity|].
  apply (payload_points_sound (fun _ => demo_oracle) (Fin 0) (demo_request "3") [] c' pl t
           reachable_empty E).
Defined.

(** X13.  In the metadata of every payload [api_curve] returns:
    [lastSubmissionPage] is at least 1 and at most [max(1, totalPages)];
    [totalSubmitted] and [sampledRows] are not negative; and [sampledPages]
    is at least 1 and at most [lastSubmissionPage]: the sampled pages are
    distinct pages up to the boundary, page 1 among them. *)
Theorem payload_meta_bounds (remote : params -> oracle) (now : float) (req : request)
  (c c' : cache) (pl : payload) (t : trace) :
  reachable c -> api_curve remote now req c = (Ok pl, t, c') ->
  let m := p_meta pl in
  1 <= lastSubmissionPage m <= Z.max 1 (m_totalPages m)
  /\ 0 <= totalSubmitted m
  /\ 1 <= sampledPages m <= lastSubmissionPage m
  /\ 0 <= sampledRows m.
Proof.
  intros R E m.
  destruct (api_curve_payload_sound _ _ _ _ _ _ _ R E) as (A & B & C & D & _).
  repeat split; first [apply A | apply B | apply C | apply D].
Qed.

Lemma payload_meta_bounds_witness :
  exists pl t c',
    api_curve (fun _ => demo_oracle) (Fin 0) (demo_request "3") [] = (Ok pl, t, c')
    /\ (let m := p_meta pl in
        1 <= lastSubmissionPage m <= Z.max 1 (m_totalPages m)
        /\ 0 <= totalSubmitted m
        /\ 1 <= sampledPages m <= lastSubmissionPage m
        /\ 0 <= sampledRows m).
Proof.
  destruct (api_curve (fun _ => demo_oracle) (Fin 0) (demo_request "3") [])
    as [[[pl|e] t] c'] eqn:E; [|vm_compute in E; discriminate E].
  exists pl, t, c'. split; [reflexivity|].
  apply (payload_meta_bounds (fun _ => demo_oracle) (Fin 0) (demo_request "3") [] c' pl t
           reachable_empty E).
Defined.

(** ** When the locator and the request return *)

Lemma any_display_returns rows :
  Forall row_indexable rows -> exists b, any_display rows = Ok b.
Proof.
  induction 1 as [|r rows Hr _ IH]; [exists false; reflexivity|].
  cbn [any_display]. rewrite (first_score_strict_indexable r Hr). cbn [rbind].
  destruct (str_truthy _); [exists true; reflexivity | exact IH].
Qed.

Lemma find_loop_returns remote fuel : forall lo hi last t,
  (forall p, lo < p <= hi ->
     exists page b, remote (Some p) = Some page /\ _page_has_submissions page = Ok b) ->
  hi - lo <= Z.of_nat fuel ->
  exists l j t', find_loop remote fuel lo hi last t = (Ok (l, j), t').
Proof.
  induction fuel as [|f IH]; intros lo hi last t Hp Hf.
  - cbn [find_loop]. destruct (Z.ltb_spec lo hi); [lia|]. eexists _, _, _. reflexivity.
  - rewrite find_loop_step. destruct (Z.ltb_spec lo hi) as [L|L]; [|eexists _, _, _; reflexivity].
    cbv zeta. assert (M := mid_bounds lo hi L). set (mid := (lo + hi + 1) / 2) in *.
    destruct (Hp mid ltac:(lia)) as (page & b & -> & ->).
    destruct b; apply IH; try lia; intros p Pp; apply Hp; lia.
Qed.

Lemma find_loop_none remote fuel : forall lo hi last t,
  (forall p, lo < p <= hi ->
     exists page, remote (Some p) = Some page /\ _page_has_submissions page = Ok false) ->
  hi - lo <= Z.of_nat fuel ->
  exists mids,
    find_loop remote fuel lo hi last t = (Ok (lo, last), t ++ map Some mids)
    /\ Z.of_nat (List.length mids) <= Z.log2_up (hi - lo + 1).
Proof.
  induction fuel as [|f IH]; intros lo hi last t Hp Hf.
  - cbn [find_loop]. destruct (Z.ltb_spec lo hi); [lia|]. exists [].
    cbn [map]. rewrite app_nil_r. split; [reflexivity | apply Z.log2_up_nonneg].
  - rewrite find_loop_step. destruct (Z.ltb_spec lo hi) as [L|L].
    2:{ exists []. cbn [map]. rewrite app_nil_r. split; [reflexivity | apply Z.log2_up_nonneg]. }
    cbv zeta. assert (M := mid_bounds lo hi L). set (mid := (lo + hi + 1) / 2) in *.
    assert (Am := Z.mul_div_le (lo + hi + 1) 2 ltac:(lia)). fold mid in Am.
    destruct (Hp mid ltac:(lia)) as (page & -> & ->).
    destruct (IH lo (mid - 1) last (t ++ [Some mid])) as (mids & E & Len);
      [intros p Pp; apply Hp; lia | lia |].
    exists (mid :: mids). rewrite E. cbn [map List.length]. rewrite <- app_assoc, Nat2Z.inj_succ.
    split; [reflexivity|].
    destruct (Z.eq_dec mid (lo + 1)) as [E1|N1].
    + assert (Z.log2_up (mid - 1 - lo + 1) = 0)
        by (replace (mid - 1 - lo + 1) with 1 by lia; reflexivity).
      assert (0 < Z.log2_up (hi - lo + 1)) by (apply Z.log2_up_pos; lia). lia.
    + assert (X := log2_up_halve (hi - lo + 1) (mid - 1 - lo + 1) ltac:(lia) ltac:(lia) ltac:(lia)).
      lia.
Qed.

Lemma locator_returns (remote : oracle) (total : Z) (t : trace) :
  (forall p, 1 <= p <= Z.max 1 total ->
     exists page b, remote (Some p) = Some page /\ _page_has_submissions page = Ok b) ->
  exists l j t', _find_last_submission_page remote total t = (Ok (l, j), t').
Proof.
  intros Hp. rewrite find_last_submission_page_eq.
  destruct (find_loop_returns remote (Z.to_nat total) 1 total empty_json t) as (l & j & t' & E);
    [intros p Pp; apply Hp; lia | lia |].
  rewrite E.
  destruct (find_loop_any remote (Z.to_nat total) 1 total empty_json t ltac:(lia)) as [Ho _].
  destruct (Ho l j t' E) as (mids & _ & Hl & _).
  destruct (dict_is_empty j); [|eexists _, _, _; reflexivity].
  destruct (Hp l ltac:(lia)) as (page & b & -> & _). eexists _, _, _. reflexivity.
Qed.

(** X14.  When every page from 1 to [max(1, total_pages)] is served and its
    rows can be read, the locator returns.  When moreover no page from 2 on
    has a submission, it keeps no page of the search, returns page 1, and
    fetches page 1 last, after at most [ceil(log2 total_pages)] midpoints:
    a leaderboard without submissions, or without pages, is answered by its
    first page. *)
Theorem find_last_submission_page_returns (remote : oracle) (total : Z) (t : trace) :
  (forall p, 1 <= p <= Z.max 1 total ->
     exists page b, remote (Some p) = Some page /\ _page_has_submissions page = Ok b) ->
  (exists l j t', _find_last_submission_page remote total t = (Ok (l, j), t'))
  /\ ((forall p page, 2 <= p <= total -> remote (Some p) = Some page ->
         _page_has_submissions page = Ok false) ->
      exists page1 mids,
        remote (Some 1) = Some page1
        /\ _find_last_submission_page remote total t
           = (Ok (1, page1), t ++ map Some mids ++ [Some 1])
        /\ Z.of_nat (List.length mids) <= Z.log2_up total).
Proof.
  intros Hp. split; [apply locator_returns, Hp|].
  rewrite find_last_submission_page_eq.
  - intros None_.
    destruct (find_loop_none remote (Z.to_nat total) 1 total empty_json t) as (mids & E & Len).
    { intros p Pp. destruct (Hp p ltac:(lia)) as (page & b & R & S).
      exists page. split; [exact R|]. apply (None_ p page ltac:(lia) R). }
    { lia. }
    replace (total - 1 + 1) with total in Len by lia.
    destruct (Hp 1 ltac:(lia)) as (page1 & b & R1 & _).
    exists page1, mids. split; [exact R1|]. split; [|exact Len].
    rewrite E. cbn [dict_is_empty empty_json pagination leaderboardRows].
    rewrite R1, <- app_assoc. reflexivity.
Qed.

Lemma find_last_submission_page_returns_witness :
  (exists l j t', _find_last_submission_page demo_oracle_without_pagination 0 [] = (Ok (l, j), t'))
  /\ ((forall p page, 2 <= p <= 0 -> demo_oracle_without_pagination (Some p) = Some page ->
         _page_has_submissions page = Ok false) ->
      exists page1 mids,
        demo_oracle_without_pagination (Some 1) = Some page1
        /\ _find_last_submission_page demo_oracle_without_pagination 0 []
           = (Ok (1, page1), [] ++ map Some mids ++ [Some 1])
        /\ Z.of_nat (List.length mids) <= Z.log2_up 0).
Proof.
  apply (find_last_submission_page_returns demo_oracle_without_pagination 0 []).
  intros p Hp. assert (p = 1) by lia. subst p.
  eexists _, _. split; reflexivity.
Defined.

Lemma truediv_returns a b :
  0 <= a <= 2 ^ 53 -> 1 <= b -> exists q, truediv a b = Ok (Fin q).
Proof.
  intros Ha Hb.
  assert (Qb : (1 <= inject_Z b)%Q) by (unfold Qle; simpl; lia).
  assert (Qa : (0 <= inject_Z a)%Q) by (unfold Qle; simpl; lia).
  set (x := (inject_Z a / inject_Z b)%Q).
  assert (X0 : (0 <= x)%Q).
  { unfold x. apply Qle_shift_div_l; [lra|]. lra. }
  assert (X1 : (x <= inject_Z a)%Q).
  { unfold x. apply Qle_shift_div_r; [lra|].
    rewrite <- inject_Z_mult, <- Zle_Qle. nia. }
  assert (R0 := rnd_ge_0 x X0).
  assert (R1 : (rnd x <= inject_Z a)%Q).
  { apply Qle_trans with (rnd (inject_Z a)); [apply rnd_le, X1|]. rewrite rnd_Z; [lra | lia]. }
  assert (H53 : (inject_Z a <= inject_Z (2 ^ 53))%Q) by (rewrite <- Zle_Qle; lia).
  assert (G : (inject_Z (2 ^ 53) < huge)%Q) by reflexivity.
  assert (P := huge_pos).
  exists (rnd x). unfold truediv. destruct (Z.eqb_spec b 0); [lia|]. fold x.
  rewrite round_fin by lra. reflexivity.
Qed.

Lemma percentile_returns rk base :
  1 <= rk <= 2 ^ 53 -> 1 <= base -> exists f, _percentile_from_rank rk base = Ok f.
Proof.
  intros Hr Hb. unfold _percentile_from_rank.
  destruct (truediv_returns (rk - 1) base ltac:(lia) Hb) as (q & ->). cbn [rbind].
  eexists. reflexivity.
Qed.

Lemma extract_row_returns tc ts acc r :
  well_formed_row r -> exists acc', extract_row tc ts acc r = Ok acc'.
Proof.
  intros (_ & Tdisplay & Tbreakdown & Hr). destruct acc as [[pts sub] tot]. unfold extract_row.
  destruct (int_or_0 (overallRank r)) as [rk|e] eqn:I.
  - destruct (parse_reps_returns (scoreDisplay (first_score_lenient r))
                (breakdown (first_score_lenient r)) Tbreakdown Tdisplay) as (parsed & ->).
    cbn [rbind].
    destruct parsed as [n|]; [|eexists; reflexivity].
    destruct (Z.leb_spec rk 0) as [L|L]; cbn [orb]; [eexists; reflexivity|].
    destruct (Z.leb_spec (if ts =? 0 then tc else ts) 0) as [Lb|Lb]; [eexists; reflexivity|].
    destruct (percentile_returns rk (if ts =? 0 then tc else ts)) as (f & ->);
      [specialize (Hr rk eq_refl); lia | lia |].
    cbn [rbind]. eexists; reflexivity.
  - rewrite (int_or_0_error _ _ I). eexists; reflexivity.
Qed.

Lemma extract_rows_returns tc ts rows : forall acc,
  Forall well_formed_row rows ->
  exists acc', extract_rows tc ts rows acc = Ok acc'.
Proof.
  induction rows as [|r rows IH]; intros acc F; [eexists; reflexivity|].
  inversion F as [|? ? Hr Fr]; subst. cbn [extract_rows].
  destruct (extract_row_returns tc ts acc r Hr) as (acc1 & ->). cbn [rbind].
  apply IH, Fr.
Qed.

Lemma extract_points_returns page fb ts :
  well_formed_page page -> exists r, _extract_points_from_page page fb ts = Ok r.
Proof.
  intros [(tc & Tc) F]. unfold _extract_points_from_page. rewrite Tc. cbn [rbind].
  apply extract_rows_returns, F.
Qed.

Lemma max_rank_loop_returns rows : forall m0,
  Forall row_indexable rows -> exists m, max_rank_loop rows m0 = Ok m.
Proof.
  induction rows as [|r rows IH]; intros m0 F; [eexists; reflexivity|].
  inversion F as [|? ? Hr Fr]; subst. cbn [max_rank_loop].
  rewrite (first_score_strict_indexable r Hr). cbn [rbind].
  destruct (str_truthy _); [|apply IH, Fr].
  destruct (int_or_0 (overallRank r)) as [n|e] eqn:I; [apply IH, Fr|].
  rewrite (int_or_0_error _ _ I). apply IH, Fr.
Qed.

Lemma well_formed_indexable page : well_formed_page page -> Forall row_indexable (rows_of page).
Proof.
  intros [_ F]. eapply Forall_impl; [|exact F]. intros r [H _]. exact H.
Qed.

Lemma make_page_samples_returns l b :
  l <= 2 ^ 53 -> 1 <= b -> exists sp, _make_page_samples l b = Ok sp.
Proof.
  intros Hl Hb. unfold _make_page_samples. destruct (Z.leb_spec l 0); [eexists; reflexivity|].
  destruct (truediv_ceiling l b ltac:(lia) Hb) as (q & -> & _). cbn [rbind ceil].
  eexists; reflexivity.
Qed.

Lemma sample_loop_returns remote page0 l j tc ts pages : forall acc t,
  well_formed_page page0 -> well_formed_page j ->
  (forall p, In p pages -> exists page, remote (Some p) = Some page /\ well_formed_page page) ->
  exists acc' t', sample_loop remote page0 l j tc ts pages acc t = (Ok acc', t').
Proof.
  induction pages as [|p pages IH]; intros [[pts sub] tot] t W0 Wj Hp.
  - eexists _, _. reflexivity.
  - cbn [sample_loop].
    assert (Step : forall page t1, well_formed_page page ->
              exists acc' t',
                bind (lift (_extract_points_from_page page tc ts))
                  (fun x => let '(pts1, sub1, tot1) := x in
                     sample_loop remote page0 l j tc ts pages
                       (pts ++ pts1, sub + sub1, tot + tot1)) t1 = (Ok acc', t')).
    { intros page t1 W. destruct (extract_points_returns page tc ts W) as ([[p1 s1] t1'] & E).
      unfold bind at 1, lift. rewrite E.
      apply IH; try assumption. intros q Iq. apply Hp. right. exact Iq. }
    destruct (p =? 1).
    + unfold bind at 1, ret. apply Step, W0.
    + destruct (p =? l).
      * unfold bind at 1, ret. apply Step, Wj.
      * destruct (Hp p (or_introl eq_refl)) as (page & R & W).
        unfold bind at 1, _get_json. rewrite R. apply Step, W.
Qed.

Lemma compute_curve_returns remote bp b page0 tp :
  1 <= b ->
  remote None = Some page0 -> well_formed_page page0 ->
  int_or_0 (totalPages (pagination_of page0)) = Ok tp -> tp <= 2 ^ 53 ->
  (forall p, 1 <= p <= Z.max 1 tp ->
     exists page, remote (Some p) = Some page /\ well_formed_page page) ->
  exists pl t, compute_curve remote bp b [] = (Ok pl, t).
Proof.
  intros Hb R0 W0 TP H53 Hp.
  destruct W0 as [(tc & TC) F0]. assert (W0 : well_formed_page page0) by (split; [exists tc; exact TC | exact F0]).
  destruct (locator_returns remote tp ([] ++ [None])) as (l & j & t1 & FL).
  { intros p Pp. destruct (Hp p Pp) as (page & R & W). exists page.
    destruct (any_display_returns _ (well_formed_indexable _ W)) as (bb & E).
    exists bb. split; [exact R | exact E]. }
  destruct (locator_any remote tp ([] ++ [None])) as [Ho _].
  destruct (Ho l j t1 FL) as (fetched & _ & Hl & Rl & _).
  destruct (Hp l Hl) as (page & Rl' & Wj). rewrite Rl in Rl'. inversion Rl'; subst page.
  destruct (max_rank_loop_returns (rows_of j) 0 (well_formed_indexable _ Wj)) as (ts & MR).
  destruct (make_page_samples_returns l b ltac:(lia) Hb) as (sp & SP).
  destruct (sampled_pages_facts l b sp ltac:(lia) SP) as (_ & _ & In1 & _).
  destruct (sample_loop_returns remote page0 l j tc ts (with_page_1 sp) ([], 0, 0) t1 W0 Wj)
    as ([[all sub] tot] & t2 & SL).
  { intros p Ip. apply Hp. specialize (In1 p Ip). lia. }
  assert (A := sample_loop_inv _ _ _ _ _ _ _ _ _ _ _ SL).
  destruct A as [_ C]; [split; [constructor | lia]|].
  destruct (submission_rate_total sub tot C) as (rate & SR).
  assert (L : locate_boundary remote [] = (Ok (mkLocated page0 tp tc l j ts), t1)).
  { unfold locate_boundary. rewrite (bind_ok _ _ _ _ _ (get_json_ok _ _ _ _ R0)).
    rewrite TP, TC, !(bind_ok (lift (Ok _)) _ _ _ _ eq_refl).
    rewrite (bind_ok _ _ _ _ _ FL). unfold _max_submitted_rank.
    rewrite MR, (bind_ok (lift (Ok _)) _ _ _ _ eq_refl). reflexivity. }
  unfold compute_curve. rewrite (bind_ok _ _ _ _ _ L).
  cbn [last_sub_page first last_sub_json total_competitors total_submitted total_pages].
  rewrite SP, (bind_ok (lift (Ok _)) _ _ _ _ eq_refl). cbv zeta.
  change (if existsb (Z.eqb 1) sp then sp else py_sort Z.ltb (1 :: sp)) with (with_page_1 sp).
  rewrite (bind_ok _ _ _ _ _ SL).
  rewrite SR, (bind_ok (lift (Ok _)) _ _ _ _ eq_refl). unfold ret.
  eexists _, _. reflexivity.
Qed.

(** X15.  A request with [buckets >= 1] against a well-formed leaderboard is
    answered.  It is enough that the first page is served and well formed,
    that its [totalPages] reads as an integer of at most 2^53, and that every
    page from 1 to [max(1, totalPages)] is served and well formed (a page is
    well formed when its [totalCompetitors] reads as an integer, the first
    score of each row can be indexed, its display and breakdown have at most
    4300 characters, and the numeric ranks are at most 2^53): then no fetch,
    conversion, division or index fails. *)
Theorem api_curve_succeeds (remote : params -> oracle) (now : float) (req : request)
  (c : cache) (buckets : Z) (page0 : page_json) (tp : Z) :
  PyStr.int_of_string (arg_or (arg_buckets req) "20") = Ok buckets ->
  1 <= buckets ->
  remote (base_params_of req) None = Some page0 ->
  well_formed_page page0 ->
  int_or_0 (totalPages (pagination_of page0)) = Ok tp ->
  tp <= 2 ^ 53 ->
  (forall p, 1 <= p <= Z.max 1 tp ->
     exists page, remote (base_params_of req) (Some p) = Some page /\ well_formed_page page) ->
  exists pl t c', api_curve remote now req c = (Ok pl, t, c').
Proof.
  intros B Hb R0 W0 TP H53 Hp.
  destruct (compute_curve_returns (remote (base_params_of req)) (base_params_of req)
              buckets page0 tp Hb R0 W0 TP H53 Hp) as (pl & t & E).
  unfold api_curve. rewrite B, E.
  destruct (dict_get String.eqb _ c) as [cached|]; [|eexists _, _, _; reflexivity].
  destruct (ltb _ _); eexists _, _, _; reflexivity.
Qed.

Ltac demo_well_formed :=
  split; [exists 30; reflexivity|];
  repeat constructor; try exact I;
  try (apply Z.leb_le; reflexivity);
  intros rk H; vm_compute in H; inversion H; apply Z.leb_le; reflexivity.

Lemma api_curve_succeeds_witness :
  exists pl t c',
    api_curve (fun _ => demo_oracle) (Fin 0) (demo_request "3") [] = (Ok pl, t, c').
Proof.
  apply (api_curve_succeeds (fun _ => demo_oracle) (Fin 0) (demo_request "3") []
           3 (demo_page 1) 10).
  - reflexivity.
  - lia.
  - reflexivity.
  - demo_well_formed.
  - reflexivity.
  - apply Z.leb_le; reflexivity.
  - intros p Hp.
    assert (C : p = 1 \/ p = 2 \/ p = 3 \/ p = 4 \/ p = 5
                \/ p = 6 \/ p = 7 \/ p = 8 \/ p = 9 \/ p = 10) by lia.
    destruct C as [ -> | [ -> | [ -> | [ -> | [ -> | [ -> | [ -> | [ -> | [ -> | -> ] ] ] ] ] ] ] ] ];
      (eexists; split; [reflexivity | demo_well_formed]).
Defined.

(* ================================================================== *)
(** * The submission rate, against the rows of the sampled pages *)










(** The counts of the synthetic leaderboard with three buckets: pages 1 and
    3 are sampled, six rows, all six submitted. *)
Example demo_counts :
  total_rows_seen [demo_page 1; demo_page 3] = 6
  /\ submitted_rows_seen [demo_page 1; demo_page 3] = 6
  /\ submitted_rows_seen [demo_page 4] = 2
  /\ total_rows_seen [demo_page 4] = 3.
Proof. vm_compute. repeat split. Qed.
